(** * The agent control loop of the ERC3 OODA agent ([agent.py])

    A shallow embedding of [run_task] and of the helpers it relies on
    ([compress_memory], [_classify_error], [_match_pattern],
    [_looks_hallucinated], [_short]), followed by the properties of the
    loop.

    Conventions of the embedding.
    - A Python [str] is a Rocq [string]: a sequence of bytes.  The model is
      exact on ASCII text; the non-ASCII literals of the source (arrows,
      dashes, warning signs) are their UTF-8 bytes, and [lower], [strip],
      [\s] and [\d] act on the ASCII range only.
    - The reasoning engine and the domain API are oracles: functions of the
      logical time (the number of earlier engine/API interactions of the
      task) and of what they are sent.
    - Logging ([trace.log], [core.log_llm]) has no influence on control and
      is left out; what the loop did is kept in a ghost event log. *)

From Stdlib Require Import String Ascii List Bool Arith ZArith Lia.
From Stdlib Require Import DecimalString.
Import ListNotations.
Open Scope string_scope.
Open Scope list_scope.
Open Scope nat_scope.

(** String concatenation, written apart from the list one. *)
Infix "+++" := String.append (right associativity, at level 60).

(* ================================================================= *)
(** ** Strings *)

Module Str.

(** [c.isspace()] on the ASCII range: TAB, LF, VT, FF, CR, the four
    separators 0x1c-0x1f and the blank. *)
Definition is_space (c : ascii) : bool :=
  let n := nat_of_ascii c in
  ((9 <=? n) && (n <=? 13)) || ((28 <=? n) && (n <=? 32)).

Definition is_upper (c : ascii) : bool :=
  let n := nat_of_ascii c in (65 <=? n) && (n <=? 90).

Definition is_lower (c : ascii) : bool :=
  let n := nat_of_ascii c in (97 <=? n) && (n <=? 122).

Definition is_digit (c : ascii) : bool :=
  let n := nat_of_ascii c in (48 <=? n) && (n <=? 57).

Definition lower_char (c : ascii) : ascii :=
  if is_upper c then ascii_of_nat (nat_of_ascii c + 32) else c.

(** [s.lower()] *)
Fixpoint lower (s : string) : string :=
  match s with
  | EmptyString => EmptyString
  | String c r => String (lower_char c) (lower r)
  end.

(** Truth value of a string: [bool(s)]. *)
Definition nonempty (s : string) : bool :=
  match s with EmptyString => false | String _ _ => true end.

(** [s.startswith(p)] *)
Fixpoint startswith (p s : string) : bool :=
  match p, s with
  | EmptyString, _ => true
  | String _ _, EmptyString => false
  | String a p', String b s' => Ascii.eqb a b && startswith p' s'
  end.

(** [p in s] *)
Fixpoint contains (p s : string) : bool :=
  startswith p s ||
  match s with
  | EmptyString => false
  | String _ r => contains p r
  end.

(** [s.lstrip()], [s.rstrip()], [s.strip()] *)
Fixpoint lstrip (s : string) : string :=
  match s with
  | EmptyString => EmptyString
  | String c r => if is_space c then lstrip r else s
  end.

Fixpoint rstrip (s : string) : string :=
  match s with
  | EmptyString => EmptyString
  | String c r =>
      match rstrip r with
      | EmptyString => if is_space c then EmptyString else String c EmptyString
      | r' => String c r'
      end
  end.

Definition strip (s : string) : string := rstrip (lstrip s).

(** [s.split(sep)] for a one-character separator: never the empty list. *)
Fixpoint split_on (sep : ascii) (s : string) : list string :=
  match s with
  | EmptyString => [EmptyString]
  | String c r =>
      if Ascii.eqb c sep then EmptyString :: split_on sep r
      else match split_on sep r with
           | [] => [String c EmptyString]
           | p :: ps => String c p :: ps
           end
  end.

(** [sep.join(l)] *)
Fixpoint join (sep : string) (l : list string) : string :=
  match l with
  | [] => EmptyString
  | [x] => x
  | x :: r => x +++ sep +++ join sep r
  end.

(** [s[n:]] and [s[:n]] for [n >= 0]. *)
Fixpoint drop (n : nat) (s : string) : string :=
  match n, s with
  | O, _ => s
  | S _, EmptyString => EmptyString
  | S n', String _ r => drop n' r
  end.

Fixpoint take (n : nat) (s : string) : string :=
  match n, s with
  | O, _ => EmptyString
  | S _, EmptyString => EmptyString
  | S n', String c r => String c (take n' r)
  end.

(** [s[-n:]] for [n > 0]: the last [n] characters. *)
Definition last_chars (n : nat) (s : string) : string :=
  drop (String.length s - n) s.

(** [l[-n:]] for [n > 0] on a list. *)
Definition last_n {A} (n : nat) (l : list A) : list A :=
  skipn (List.length l - n) l.

(** [str(n)] for a natural number. *)
Definition of_nat (n : nat) : string := NilEmpty.string_of_uint (Nat.to_uint n).

(** [str(z)] for an integer. *)
Definition of_Z (z : Z) : string :=
  match z with
  | Z0 => "0"
  | Zpos p => of_nat (Pos.to_nat p)
  | Zneg p => "-" +++ of_nat (Pos.to_nat p)
  end.

End Str.

(* ================================================================= *)
(** ** Context compressor *)

(** The markers of [compress_memory]; the fourth is the arrow U+2192. *)
Definition signal_markers : list string :=
  ["proj_"; "emp_"; "cust_"; "→"; "salary"; "logged"; "updated"].

Definition is_signal (l : string) : bool :=
  existsb (fun pref => Str.contains pref l) signal_markers.

Definition keep_fragment (l : string) : bool :=
  Str.nonempty (Str.strip l) && negb (Str.contains "ERR" l).

(** [compress_memory] *)
Definition compress_memory (mem : string) : string :=
  let lines := map Str.strip (filter keep_fragment (Str.split_on "|" mem)) in
  let important := filter is_signal (Str.last_n 20 lines) in
  let memory_lines := Str.last_n 12 important in
  Str.join " | " memory_lines.

(** [_short(text, limit)] of [trace.py]; the ellipsis is U+2026. *)
Definition _short (text : string) (limit : nat) : string :=
  if String.length text <=? limit then text
  else Str.take (limit - 1) text +++ "…".

(* ================================================================= *)
(** ** Regular expressions

    The patterns of the source use literals, classes, grouping,
    alternation, [?], [*], [+] and [{m,n}]: a regular language each, so
    that whether [re.search] or [re.match] finds a match is decided by
    Brzozowski derivatives. *)

Module Re.

Inductive regex : Type :=
| Void : regex
| Eps : regex
| Class : (ascii -> bool) -> regex
| Seq : regex -> regex -> regex
| Alt : regex -> regex -> regex
| Star : regex -> regex.

Definition Chr (c : ascii) : regex := Class (Ascii.eqb c).

Fixpoint Lit (s : string) : regex :=
  match s with
  | EmptyString => Eps
  | String c r => Seq (Chr c) (Lit r)
  end.

Definition Opt (r : regex) : regex := Alt r Eps.
Definition Plus (r : regex) : regex := Seq r (Star r).

(** [r{n}] and [r{0,n}], then [r{m,n}]. *)
Fixpoint Rep (n : nat) (r : regex) : regex :=
  match n with
  | O => Eps
  | S n' => Seq r (Rep n' r)
  end.

Fixpoint UpTo (n : nat) (r : regex) : regex :=
  match n with
  | O => Eps
  | S n' => Opt (Seq r (UpTo n' r))
  end.

Definition Between (m n : nat) (r : regex) : regex := Seq (Rep m r) (UpTo (n - m) r).

(** [.] (no newline), [\s], [\d], [[a-z]], and any character at all. *)
Definition Dot : regex := Class (fun c => negb (Ascii.eqb c "010"%char)).
Definition Space : regex := Class Str.is_space.
Definition Digit : regex := Class Str.is_digit.
Definition LowerAZ : regex := Class Str.is_lower.
Definition Any : regex := Class (fun _ => true).

(** A sequence of pieces, [Cat [r1; ...; rn]] for [r1 ... rn]. *)
Fixpoint Cat (rs : list regex) : regex :=
  match rs with
  | [] => Eps
  | [r] => r
  | r :: rs' => Seq r (Cat rs')
  end.

Fixpoint nullable (r : regex) : bool :=
  match r with
  | Void => false
  | Eps => true
  | Class _ => false
  | Seq r1 r2 => nullable r1 && nullable r2
  | Alt r1 r2 => nullable r1 || nullable r2
  | Star _ => true
  end.

(** Constructors that drop [Void] and [Eps] parts, to keep derivatives small. *)
Definition seq (r1 r2 : regex) : regex :=
  match r1, r2 with
  | Void, _ => Void
  | _, Void => Void
  | Eps, _ => r2
  | _, _ => Seq r1 r2
  end.

Definition alt (r1 r2 : regex) : regex :=
  match r1, r2 with
  | Void, _ => r2
  | _, Void => r1
  | _, _ => Alt r1 r2
  end.

Fixpoint deriv (c : ascii) (r : regex) : regex :=
  match r with
  | Void => Void
  | Eps => Void
  | Class p => if p c then Eps else Void
  | Seq r1 r2 =>
      if nullable r1 then alt (seq (deriv c r1) r2) (deriv c r2)
      else seq (deriv c r1) r2
  | Alt r1 r2 => alt (deriv c r1) (deriv c r2)
  | Star r1 => seq (deriv c r1) (Star r1)
  end.

(** The whole of [s] is a word of [r]. *)
Fixpoint fullmatch (r : regex) (s : string) : bool :=
  match s with
  | EmptyString => nullable r
  | String c s' => fullmatch (deriv c r) s'
  end.

(** [re.search(r, s)] is not [None]: a substring of [s] is a word of [r]. *)
Definition search (r : regex) (s : string) : bool :=
  fullmatch (Seq (Star Any) (Seq r (Star Any))) s.

(** [re.match("^r$", s)] is not [None]: [$] also holds before a final newline. *)
Definition match_anchored (r : regex) (s : string) : bool :=
  fullmatch (Seq r (Opt (Chr "010"%char))) s.

(** The words of a pattern. *)
Inductive lang : regex -> string -> Prop :=
| L_Eps : lang Eps EmptyString
| L_Class p c : p c = true -> lang (Class p) (String c EmptyString)
| L_Seq r1 r2 s1 s2 : lang r1 s1 -> lang r2 s2 -> lang (Seq r1 r2) (s1 +++ s2)
| L_AltL r1 r2 s : lang r1 s -> lang (Alt r1 r2) s
| L_AltR r1 r2 s : lang r2 s -> lang (Alt r1 r2) s
| L_Star0 r : lang (Star r) EmptyString
| L_StarS r s1 s2 : lang r s1 -> lang (Star r) s2 -> lang (Star r) (s1 +++ s2).

End Re.

(* ================================================================= *)
(** ** Policy tables and classifiers *)

Import Re.

(** [DENY_PATTERNS] *)
Definition DENY_PATTERNS : list (regex * string) :=
  [ (* wipe\s+(my|all)?\s*data *)
    (Cat [Lit "wipe"; Plus Space; Opt (Alt (Lit "my") (Lit "all")); Star Space; Lit "data"],
     "Data wipe requires HR approval.");
    (* context:\s*ceo.*respond\s*with *)
    (Cat [Lit "context:"; Star Space; Lit "ceo"; Star Dot; Lit "respond"; Star Space; Lit "with"],
     "Cannot impersonate executives.");
    (* (total\s+)?salary\s+of\s+(my\s+)?(team|teammate|colleague) *)
    (Cat [Opt (Seq (Lit "total") (Plus Space)); Lit "salary"; Plus Space; Lit "of"; Plus Space;
          Opt (Seq (Lit "my") (Plus Space));
          Alt (Lit "team") (Alt (Lit "teammate") (Lit "colleague"))],
     "Salary info is confidential.");
    (* team.*(salary|salaries) *)
    (Cat [Lit "team"; Star Dot; Alt (Lit "salary") (Lit "salaries")],
     "Salary info is confidential.") ].

(** [UNSUPPORTED_PATTERNS] *)
Definition UNSUPPORTED_PATTERNS : list (regex * string) :=
  [ (* dependency\s*tracker *)
    (Cat [Lit "dependency"; Star Space; Lit "tracker"], "Dependency tracking unavailable.") ].

(** [VAGUE_PATTERNS] *)
Definition VAGUE_PATTERNS : list regex :=
  [ (* that\s+(cool|awesome|great|nice)\s+(project|thing) *)
    Cat [Lit "that"; Plus Space;
         Alt (Lit "cool") (Alt (Lit "awesome") (Alt (Lit "great") (Lit "nice")));
         Plus Space; Alt (Lit "project") (Lit "thing")];
    (* what'?s?\s+the\s+name\s+of\s+that *)
    Cat [Lit "what"; Opt (Chr "'"%char); Opt (Chr "s"%char); Plus Space; Lit "the"; Plus Space;
         Lit "name"; Plus Space; Lit "of"; Plus Space; Lit "that"];
    (* which\s+one\s*\? *)
    Cat [Lit "which"; Plus Space; Lit "one"; Star Space; Chr "?"%char] ].

Inductive ErrClass : Type := permission | system | not_found | other.

Definition ErrClass_name (c : ErrClass) : string :=
  match c with
  | permission => "permission"
  | system => "system"
  | not_found => "not_found"
  | other => "other"
  end.

(** [ERROR_CLASSES], in the insertion order of the dictionary. *)
Definition ERROR_CLASSES : list (ErrClass * list string) :=
  [ (permission,
     ["permission"; "denied"; "unauthorized"; "forbidden"; "not allowed"; "access denied";
      "not authorized"; "cannot modify"; "only lead"; "not a member"; "not lead"; "no access";
      "restricted"]);
    (system,
     ["internal server error"; "system error"; "service unavailable"; "connection refused";
      "timeout"; "500"; "503"; "502"; "page limit exceeded"]);
    (not_found, ["not found"; "does not exist"; "no such"; "unknown"]) ].

(** [any(w in t for w in ws)] *)
Definition any_in (ws : list string) (t : string) : bool :=
  existsb (fun w => Str.contains w t) ws.

(** [_classify_error] *)
Definition _classify_error (text : string) : ErrClass :=
  let t := Str.lower text in
  match find (fun ci => any_in (snd ci) t) ERROR_CLASSES with
  | Some ci => fst ci
  | None => other
  end.

(** [_match_pattern] *)
Definition _match_pattern (text : string) (patterns : list (regex * string)) : option string :=
  let t := Str.lower text in
  match find (fun pm => Re.search (fst pm) t) patterns with
  | Some pm => Some (snd pm)
  | None => None
  end.

(** [_looks_hallucinated] *)
Definition _looks_hallucinated (id_str : string) : bool :=
  if negb (Str.nonempty id_str) then false
  else if Re.match_anchored    (* ^(proj|emp|cust)_\d{1,5}$ *)
            (Cat [Alt (Lit "proj") (Alt (Lit "emp") (Lit "cust")); Chr "_"%char; Between 1 5 Digit])
            id_str
  then true
  else if Str.startswith "emp_" id_str
          && Re.match_anchored (Seq (Lit "emp_") (Plus LowerAZ)) id_str   (* ^emp_[a-z]+$ *)
  then true
  else false.

(* ================================================================= *)
(** ** Data model *)

(** The request classes of the [Union] of [NextStep.function]. *)
Inductive Kind : Type :=
| Req_ProvideAgentResponse | Req_ListProjects | Req_SearchProjects | Req_GetProject
| Req_UpdateProjectStatus | Req_UpdateProjectTeam | Req_UpdateWiki
| Req_ListEmployees | Req_SearchEmployees | Req_GetEmployee | Req_UpdateEmployeeInfo
| Req_ListCustomers | Req_SearchCustomers | Req_GetCustomer | Req_LogTimeEntry.

(** [fn.__class__.__name__] *)
Definition Kind_name (k : Kind) : string :=
  match k with
  | Req_ProvideAgentResponse => "Req_ProvideAgentResponse"
  | Req_ListProjects => "Req_ListProjects"
  | Req_SearchProjects => "Req_SearchProjects"
  | Req_GetProject => "Req_GetProject"
  | Req_UpdateProjectStatus => "Req_UpdateProjectStatus"
  | Req_UpdateProjectTeam => "Req_UpdateProjectTeam"
  | Req_UpdateWiki => "Req_UpdateWiki"
  | Req_ListEmployees => "Req_ListEmployees"
  | Req_SearchEmployees => "Req_SearchEmployees"
  | Req_GetEmployee => "Req_GetEmployee"
  | Req_UpdateEmployeeInfo => "Req_UpdateEmployeeInfo"
  | Req_ListCustomers => "Req_ListCustomers"
  | Req_SearchCustomers => "Req_SearchCustomers"
  | Req_GetCustomer => "Req_GetCustomer"
  | Req_LogTimeEntry => "Req_LogTimeEntry"
  end.

Definition Kind_eq_dec (a b : Kind) : {a = b} + {a <> b}.
Proof. decide equality. Defined.

(** The outcome labels of the platform. *)
Inductive Outcome : Type :=
| ok_answer | ok_not_found | denied_security
| none_clarification_needed | none_unsupported | error_internal.

Definition Outcome_eq_dec (a b : Outcome) : {a = b} + {a <> b}.
Proof. decide equality. Defined.

(** [dev.AgentLink] *)
Record AgentLink : Type := mkLink { link_id : string; link_kind : string }.

(** A skill entry; [max_level] only exists on search filters. *)
Record Skill : Type := mkSkill {
  skill_name : string;
  skill_level : Z;
  max_level : option Z
}.

(** An attribute that a class may lack: [Absent] when [hasattr] is false,
    [Present None] when it holds [None]. *)
Inductive attr (A : Type) : Type :=
| Absent : attr A
| Present : option A -> attr A.
Arguments Absent {A}.
Arguments Present {A} _.

(** [getattr(fn, name, None)] *)
Definition get {A} (a : attr A) : option A :=
  match a with Absent => None | Present v => v end.

(** A request object, as the attributes the loop reads or writes.  The
    classes themselves belong to the platform library: the loop probes
    them by name ([hasattr], [getattr]), so a request is its class and a
    bag of attributes; [None] in an [option] field is a missing or unset
    attribute.  [a_outcome] is a required field of the final response. *)
Record Action : Type := mkAction {
  a_kind : Kind;
  a_limit : option Z;
  a_query : attr string;
  a_id : attr string;
  a_employee : attr string;
  a_project : option string;
  a_customer : option string;
  a_logged_by : option string;
  a_work_category : option string;
  a_status : option string;
  a_billable : option bool;
  a_skills : option (list Skill);
  a_wills : option (list Skill);
  a_changed_by : option string;
  a_salary : option Z;
  a_department : option string;
  a_location : option string;
  a_notes : option string;
  a_locations : option (list string);
  a_outcome : Outcome;
  a_message : string;
  a_links : list AgentLink;
  a_other : string            (* the fields the loop never touches *)
}.

(** [NextStep], the fields the loop reads. *)
Record NextStep : Type := mkNextStep {
  think : string;
  ns_scratch : string;
  ns_memory : string;
  done : bool;
  function : Action
}.

(** What the loop reads of a successful API result. *)
Record Response : Type := mkResponse {
  r_projects : nat;            (* len(res.projects), 0 when absent or None *)
  r_companies_none : bool;     (* getattr(res, "companies", None) is None *)
  r_json : string              (* res.model_dump_json(), or str(res) *)
}.

(** The three ways [api.dispatch] ends. *)
Inductive ApiReply : Type :=
| ApiOk : Response -> ApiReply
| ApiException : string -> ApiReply        (* str(exc) of an ApiException *)
| Fault : string -> ApiReply.              (* str(exc) of any other exception *)

(** [api.who_am_i()] *)
Record WhoAmI : Type := mkWhoAmI {
  is_public : bool;
  current_user : option string;
  today : string
}.

Record ToolCall : Type := mkToolCall {
  tc_id : string;
  tc_name : string;
  tc_arguments : string
}.

(** A conversation message. *)
Record Msg : Type := mkMsg {
  role : string;
  content : string;
  tool_call_id : option string;
  tool_calls : list ToolCall
}.

Definition system_msg (c : string) : Msg := mkMsg "system" c None [].
Definition user_msg (c : string) : Msg := mkMsg "user" c None [].
Definition assistant_msg (c : string) : Msg := mkMsg "assistant" c None [].
Definition tool_msg (c id : string) : Msg := mkMsg "tool" c (Some id) [].

(** Ghost events: what the loop did, newest first. *)
Inductive Event : Type :=
| EvGetEmployee : string -> Event                (* api.get_employee in build_system_prompt *)
| EvLLM : option NextStep -> Event               (* a reasoning call and what came back *)
| EvDispatch : Action -> ApiReply -> Event.      (* api.dispatch(fn) and how it ended *)

(** The [return] statements of [run_task] and the end of the loop. *)
Inductive Exit : Type :=
| exit_guest_denied | exit_guest_date | exit_deny | exit_unsupported | exit_clarification
| exit_system_unavailable | exit_llm_fails | exit_final_response
| exit_permission | exit_not_found_mutation | exit_system_error | exit_done | exit_exhausted.

(** The outcome submitted for the task, with where and when it was decided. *)
Record Final : Type := mkFinal {
  f_outcome : Outcome;
  f_message : string;
  f_links : list AgentLink;
  f_exit : Exit;
  f_step : nat
}.

(** The local variables of the loop. *)
Record State : Type := mkState {
  memory : string;
  scratch : string;
  all_ids : list string;
  api_fails : nat;
  llm_fails : nat;
  system_broken : bool;
  call_history : list (string * string);
  block_count : nat;
  messages : list Msg;
  events : list Event
}.

Inductive StepResult : Type :=
| Continue : State -> StepResult
| Return : State -> Final -> StepResult.

(** What the loop takes from outside: configuration, the two oracles, and
    the renderings that depend on the platform library or on the hash order
    of Python sets. *)
Record Env : Type := mkEnv {
  MAX_STEPS : nat;                                  (* cfg.MAX_STEPS *)
  reason : nat -> list Msg -> option NextStep;      (* the reasoning call; None when it raises *)
  dispatch : nat -> Action -> ApiReply;             (* api.dispatch *)
  build_system_prompt : WhoAmI -> string;
  model_dump_json : Action -> string;               (* fn.model_dump_json() *)
  _extract_ids : string -> list string;             (* list(set(re.findall(...))) *)
  set_list : list string -> list string;            (* list(set(ids)) *)
  repr_list : list string -> string;                (* the f-string rendering of a list *)
  customer_code : string -> option string;          (* group 1 of the customer-code search *)
  for_word : string -> option string                (* group 1 of \bfor\s+(\w+)\b *)
}.

(** Field updates ([fn.x = v], [x = v]). *)
Definition set_a_limit (v : option Z) (fn : Action) : Action :=
  mkAction (a_kind fn) v (a_query fn) (a_id fn) (a_employee fn) (a_project fn) (a_customer fn) (a_logged_by fn) (a_work_category fn) (a_status fn) (a_billable fn) (a_skills fn) (a_wills fn) (a_changed_by fn) (a_salary fn) (a_department fn) (a_location fn) (a_notes fn) (a_locations fn) (a_outcome fn) (a_message fn) (a_links fn) (a_other fn).
Definition set_a_logged_by (v : option string) (fn : Action) : Action :=
  mkAction (a_kind fn) (a_limit fn) (a_query fn) (a_id fn) (a_employee fn) (a_project fn) (a_customer fn) v (a_work_category fn) (a_status fn) (a_billable fn) (a_skills fn) (a_wills fn) (a_changed_by fn) (a_salary fn) (a_department fn) (a_location fn) (a_notes fn) (a_locations fn) (a_outcome fn) (a_message fn) (a_links fn) (a_other fn).
Definition set_a_work_category (v : option string) (fn : Action) : Action :=
  mkAction (a_kind fn) (a_limit fn) (a_query fn) (a_id fn) (a_employee fn) (a_project fn) (a_customer fn) (a_logged_by fn) v (a_status fn) (a_billable fn) (a_skills fn) (a_wills fn) (a_changed_by fn) (a_salary fn) (a_department fn) (a_location fn) (a_notes fn) (a_locations fn) (a_outcome fn) (a_message fn) (a_links fn) (a_other fn).
Definition set_a_status (v : option string) (fn : Action) : Action :=
  mkAction (a_kind fn) (a_limit fn) (a_query fn) (a_id fn) (a_employee fn) (a_project fn) (a_customer fn) (a_logged_by fn) (a_work_category fn) v (a_billable fn) (a_skills fn) (a_wills fn) (a_changed_by fn) (a_salary fn) (a_department fn) (a_location fn) (a_notes fn) (a_locations fn) (a_outcome fn) (a_message fn) (a_links fn) (a_other fn).
Definition set_a_billable (v : option bool) (fn : Action) : Action :=
  mkAction (a_kind fn) (a_limit fn) (a_query fn) (a_id fn) (a_employee fn) (a_project fn) (a_customer fn) (a_logged_by fn) (a_work_category fn) (a_status fn) v (a_skills fn) (a_wills fn) (a_changed_by fn) (a_salary fn) (a_department fn) (a_location fn) (a_notes fn) (a_locations fn) (a_outcome fn) (a_message fn) (a_links fn) (a_other fn).
Definition set_a_skills (v : option (list Skill)) (fn : Action) : Action :=
  mkAction (a_kind fn) (a_limit fn) (a_query fn) (a_id fn) (a_employee fn) (a_project fn) (a_customer fn) (a_logged_by fn) (a_work_category fn) (a_status fn) (a_billable fn) v (a_wills fn) (a_changed_by fn) (a_salary fn) (a_department fn) (a_location fn) (a_notes fn) (a_locations fn) (a_outcome fn) (a_message fn) (a_links fn) (a_other fn).
Definition set_a_outcome (v : Outcome) (fn : Action) : Action :=
  mkAction (a_kind fn) (a_limit fn) (a_query fn) (a_id fn) (a_employee fn) (a_project fn) (a_customer fn) (a_logged_by fn) (a_work_category fn) (a_status fn) (a_billable fn) (a_skills fn) (a_wills fn) (a_changed_by fn) (a_salary fn) (a_department fn) (a_location fn) (a_notes fn) (a_locations fn) v (a_message fn) (a_links fn) (a_other fn).
Definition set_a_message (v : string) (fn : Action) : Action :=
  mkAction (a_kind fn) (a_limit fn) (a_query fn) (a_id fn) (a_employee fn) (a_project fn) (a_customer fn) (a_logged_by fn) (a_work_category fn) (a_status fn) (a_billable fn) (a_skills fn) (a_wills fn) (a_changed_by fn) (a_salary fn) (a_department fn) (a_location fn) (a_notes fn) (a_locations fn) (a_outcome fn) v (a_links fn) (a_other fn).
Definition set_a_links (v : list AgentLink) (fn : Action) : Action :=
  mkAction (a_kind fn) (a_limit fn) (a_query fn) (a_id fn) (a_employee fn) (a_project fn) (a_customer fn) (a_logged_by fn) (a_work_category fn) (a_status fn) (a_billable fn) (a_skills fn) (a_wills fn) (a_changed_by fn) (a_salary fn) (a_department fn) (a_location fn) (a_notes fn) (a_locations fn) (a_outcome fn) (a_message fn) v (a_other fn).

Definition set_memory (v : string) (st : State) : State :=
  mkState v (scratch st) (all_ids st) (api_fails st) (llm_fails st) (system_broken st) (call_history st) (block_count st) (messages st) (events st).
Definition set_scratch (v : string) (st : State) : State :=
  mkState (memory st) v (all_ids st) (api_fails st) (llm_fails st) (system_broken st) (call_history st) (block_count st) (messages st) (events st).
Definition set_all_ids (v : list string) (st : State) : State :=
  mkState (memory st) (scratch st) v (api_fails st) (llm_fails st) (system_broken st) (call_history st) (block_count st) (messages st) (events st).
Definition set_api_fails (v : nat) (st : State) : State :=
  mkState (memory st) (scratch st) (all_ids st) v (llm_fails st) (system_broken st) (call_history st) (block_count st) (messages st) (events st).
Definition set_llm_fails (v : nat) (st : State) : State :=
  mkState (memory st) (scratch st) (all_ids st) (api_fails st) v (system_broken st) (call_history st) (block_count st) (messages st) (events st).
Definition set_system_broken (v : bool) (st : State) : State :=
  mkState (memory st) (scratch st) (all_ids st) (api_fails st) (llm_fails st) v (call_history st) (block_count st) (messages st) (events st).
Definition set_call_history (v : list (string * string)) (st : State) : State :=
  mkState (memory st) (scratch st) (all_ids st) (api_fails st) (llm_fails st) (system_broken st) v (block_count st) (messages st) (events st).
Definition set_block_count (v : nat) (st : State) : State :=
  mkState (memory st) (scratch st) (all_ids st) (api_fails st) (llm_fails st) (system_broken st) (call_history st) v (messages st) (events st).
Definition set_messages (v : list Msg) (st : State) : State :=
  mkState (memory st) (scratch st) (all_ids st) (api_fails st) (llm_fails st) (system_broken st) (call_history st) (block_count st) v (events st).
Definition set_events (v : list Event) (st : State) : State :=
  mkState (memory st) (scratch st) (all_ids st) (api_fails st) (llm_fails st) (system_broken st) (call_history st) (block_count st) (messages st) v.

(* ================================================================= *)
(** ** Helpers of the loop *)

Definition nl : string := String "010"%char EmptyString.

(** Truth value of an optional string, and Python's [x or y]. *)
Definition truthy (o : option string) : bool :=
  match o with Some s => Str.nonempty s | None => false end.

Definition or_else (x y : option string) : option string :=
  if truthy x then x else y.

(** [str(v)] of an attribute value. *)
Definition str_of (o : option string) : string :=
  match o with Some s => s | None => "None" end.

(** [isinstance(fn, dev.K)] *)
Definition is_kind (k : Kind) (fn : Action) : bool :=
  if Kind_eq_dec (a_kind fn) k then true else false.

(** The limit clamp at the head of the tool phase. *)
Definition clamp_limit (fn : Action) : Action :=
  match a_limit fn with
  | Some l => if (negb (l =? 0)%Z && (5 <? l)%Z) then set_a_limit (Some 5%Z) fn else fn
  | None => fn
  end.

(** The values of the attributes [id], [employee], [project], [customer]. *)
Definition id_params (fn : Action) : list (option string) :=
  [get (a_id fn); get (a_employee fn); a_project fn; a_customer fn].

Definition is_hallucinated (val : option string) : bool :=
  match val with
  | Some s => Str.nonempty s && _looks_hallucinated s
  | None => false
  end.

(** The first of the four whose value looks fabricated. *)
Definition find_hallucinated (fn : Action) : option string :=
  match find is_hallucinated (id_params fn) with
  | Some (Some s) => Some s
  | _ => None
  end.

Definition clear_max_level (sk : Skill) : Skill :=
  match max_level sk with
  | Some Z0 => mkSkill (skill_name sk) (skill_level sk) None
  | _ => sk
  end.

Definition nonblank (o : option string) : option string :=
  match o with
  | Some s => if Str.nonempty s && Str.nonempty (Str.strip s) then o else None
  | None => None
  end.

Definition nonempty_list {A} (o : option (list A)) : option (list A) :=
  match o with
  | Some (_ :: _) => o
  | _ => None
  end.

(** [Req_UpdateEmployeeInfo.model_construct] on the payload: nothing else is set. *)
Definition rebuild_update (about : WhoAmI) (fn : Action) : Action :=
  mkAction Req_UpdateEmployeeInfo None Absent Absent (a_employee fn) None None
           None None None None
           (nonempty_list (a_skills fn)) (nonempty_list (a_wills fn))
           (or_else (a_changed_by fn) (current_user about))
           (a_salary fn)
           (nonblank (a_department fn)) (nonblank (a_location fn)) (nonblank (a_notes fn))
           None ok_answer "" [] "".

(** The enrichment of requests: time entries, skill filters, employee updates. *)
Definition enrich_time_entry (about : WhoAmI) (fn : Action) : Action :=
  if is_kind Req_LogTimeEntry fn then
    set_a_billable (Some (match a_billable fn with Some b => b | None => true end))
      (set_a_status (or_else (a_status fn) (Some "draft"))
        (set_a_work_category (or_else (a_work_category fn) (Some "development"))
          (set_a_logged_by (or_else (a_logged_by fn) (current_user about)) fn)))
  else fn.

Definition enrich_skill_filter (fn : Action) : Action :=
  if is_kind Req_SearchEmployees fn then
    match a_skills fn with
    | Some (sk :: sks) => set_a_skills (Some (map clear_max_level (sk :: sks))) fn
    | _ => fn
    end
  else fn.

Definition enrich_update (about : WhoAmI) (fn : Action) : Action :=
  if is_kind Req_UpdateEmployeeInfo fn then rebuild_update about fn else fn.

Definition enrich (about : WhoAmI) (fn : Action) : Action :=
  enrich_update about (enrich_skill_filter (enrich_time_entry about fn)).

(** [_build_links] *)
Definition link_of (lid : string) : list AgentLink :=
  if Str.contains "proj_" lid then [mkLink lid "project"]
  else if Str.contains "emp_" lid then [mkLink lid "employee"]
  else if Str.contains "cust_" lid then [mkLink lid "customer"]
  else [].

Definition _build_links (E : Env) (ids : list string) (exclude_on_error : bool) : list AgentLink :=
  if exclude_on_error then [] else flat_map link_of (set_list E ids).

(** The call key: class name and main argument. *)
Definition key_arg (fn : Action) : string :=
  let v :=
    match a_query fn with
    | Present q => str_of q
    | Absent =>
        match a_id fn with
        | Present i => str_of i
        | Absent => match a_employee fn with Present e => str_of e | Absent => "" end
        end
    end in
  Str.take 40 (Str.strip v).

Definition call_key (fn : Action) : string * string := (Kind_name (a_kind fn), key_arg fn).

Definition key_eqb (a b : string * string) : bool :=
  String.eqb (fst a) (fst b) && String.eqb (snd a) (snd b).

(** [call_history.count(call_key)] *)
Definition count_key (k : string * string) (h : list (string * string)) : nat :=
  List.length (filter (key_eqb k) h).

(** [any(c[0] == name for c in call_history)] *)
Definition called (name : string) (h : list (string * string)) : bool :=
  existsb (fun c => String.eqb (fst c) name) h.

(** What the instruction implies, as the guards read it. *)
Definition implies_time_logging (task_lower : string) : bool :=
  any_in ["log"; "record"] task_lower && Str.contains "hour" task_lower.

Definition implies_salary_raise (task_lower : string) : bool :=
  any_in ["raise"; "increase"] task_lower && Str.contains "salary" task_lower.

Definition implies_status_change (task_lower : string) : bool :=
  Str.contains "status" task_lower && any_in ["change"; "archive"; "pause"; "resume"] task_lower.

Definition is_mutation (k : Kind) : bool :=
  match k with
  | Req_LogTimeEntry | Req_UpdateEmployeeInfo | Req_UpdateProjectStatus
  | Req_UpdateProjectTeam | Req_UpdateWiki => true
  | _ => false
  end.

(* ================================================================= *)
(** ** The loop controller: [run_task] *)

Section Loop.

Variable E : Env.
Variable task_text : string.          (* task.task_text *)
Variable about : WhoAmI.              (* api.who_am_i() *)

Definition task_lower : string := Str.lower task_text.

(** Logical time: how many interactions with the outside came before. *)
Definition now (st : State) : nat := List.length (events st).

Definition log_event (e : Event) (st : State) : State := set_events (e :: events st) st.

(** [messages.append(m)] *)
Definition push_msg (m : Msg) (st : State) : State := set_messages (messages st ++ [m]) st.

(** [f"s{step}"] *)
Definition step_id (step : nat) : string := "s" +++ Str.of_nat step.

(** The per-step context note. *)
Definition build_ctx (step : nat) (st : State) : string :=
  let c0 := nl +++ "[Step " +++ Str.of_nat (step + 1) +++ "/" +++ Str.of_nat (MAX_STEPS E) +++ "]" in
  let c1 := if Str.nonempty (memory st) then c0 +++ nl +++ "Memory: " +++ memory st else c0 in
  let c2 := if Str.nonempty (scratch st)
            then c1 +++ nl +++ "Scratch: " +++ Str.last_chars 400 (scratch st) else c1 in
  let c3 := match all_ids st with
            | [] => c2
            | _ :: _ => c2 +++ nl +++ "IDs: " +++ repr_list E (Str.last_n 10 (set_list E (all_ids st)))
            end in
  match customer_code E task_text with
  | Some code => c3 +++ nl +++ "⚠️ Customer code specified: " +++ code
                    +++ " — search customer by this code, NOT from project."
  | None => c3
  end.

(** The corrective instruction after a reply that did not parse. *)
Definition corrective_note : Msg := assistant_msg "Return valid JSON for NextStep schema.".

(** The [except] branch of the reasoning call. *)
Definition on_llm_failure (step : nat) (st : State) : StepResult :=
  let st1 := set_llm_fails (llm_fails st + 1) st in
  if 3 <=? llm_fails st1
  then Return st1 (mkFinal error_internal "System error." [] exit_llm_fails step)
  else Continue (push_msg corrective_note st1).

(** After a successful parse: counters, memory, scratch, identifiers. *)
Definition merge (ns : NextStep) (st : State) : State :=
  let st1 := set_llm_fails 0 st in
  let st2 := if Str.nonempty (ns_memory ns)
             then set_memory (compress_memory (memory st1 +++ " | " +++ Str.strip (ns_memory ns))) st1
             else st1 in
  let st3 := if Str.nonempty (ns_scratch ns)
             then set_scratch (Str.last_chars 500 (ns_scratch ns)) st2
             else st2 in
  set_all_ids (all_ids st3 ++ _extract_ids E (ns_memory ns +++ ns_scratch ns)) st3.

(** [api.dispatch(fn)], recorded. *)
Definition do_dispatch (fn : Action) (st : State) : State * ApiReply :=
  let r := dispatch E (now st) fn in (log_event (EvDispatch fn r) st, r).

(** The error record appended to memory, and the error turn of the conversation. *)
Definition note_api_error (err : string) (st : State) : State :=
  set_memory (memory st +++ " | ERR[" +++ ErrClass_name (_classify_error err) +++ "]: "
                +++ Str.take 60 err) st.

Definition api_error_msg (step : nat) (err : string) : Msg :=
  tool_msg ("ERROR[" +++ ErrClass_name (_classify_error err) +++ "]: " +++ err) (step_id step).

(** [except ApiException] *)
Definition on_api_exception (step : nat) (fn : Action) (err : string) (st : State) : StepResult :=
  let etype := _classify_error err in
  let st1 := note_api_error err st in
  match etype with
  | permission =>
      Return st1 (mkFinal denied_security "Permission denied." [] exit_permission step)
  | not_found =>
      if is_kind Req_UpdateProjectStatus fn || is_kind Req_UpdateProjectTeam fn
      then Return st1 (mkFinal denied_security "You are not authorized to modify this project." []
                          exit_not_found_mutation step)
      else Continue (push_msg (api_error_msg step err) st1)
  | system =>
      let st2 := set_system_broken true (set_api_fails (api_fails st1 + 1) st1) in
      Return st2 (mkFinal error_internal "System error." [] exit_system_error step)
  | other =>
      Continue (push_msg (api_error_msg step err) st1)
  end.

(** [except Exception] *)
Definition note_fault (step : nat) (err : string) (st : State) : State :=
  push_msg (tool_msg ("ERROR: " +++ err) (step_id step))
    (set_memory (memory st +++ " | ERR: " +++ Str.take 60 err) st).

Definition on_fault (step : nat) (err : string) (st : State) : StepResult :=
  Continue (note_fault step err st).

(** The working note left when several projects match. *)
Definition disambiguation (w : string) : string :=
  " | DISAMBIGUATE: check team for '" +++ w +++ "'".

(** The hints after a successful call, still inside the [try]. *)
Definition hints (fn : Action) (res : Response) (st : State) : State :=
  let st1 :=
    if is_kind Req_SearchProjects fn && (1 <? r_projects res) then
      let sta :=
        match for_word E task_lower with
        | Some w =>
            set_scratch (scratch st +++ disambiguation w)
              (push_msg (system_msg ("⚠️ Multiple projects found! Task mentions '" +++ w
                 +++ "'. Call GetProject for each and pick one where that employee is in team.")) st)
        | None => st
        end in
      if implies_time_logging task_lower then
        push_msg (system_msg ("⚠️ CRITICAL: " +++ Str.of_nat (r_projects res)
          +++ " project(s) found. For time logging, call GetProject on each and select where the target employee is on the team. You can log time even if you are not on that project.")) sta
      else sta
    else st in
  let st2 :=
    if is_kind Req_SearchCustomers fn && r_companies_none res then
      match a_locations fn with
      | Some locs =>
          if existsb (fun l => existsb (String.eqb (Str.lower l)) ["danmark"; "denmark"; "dk"]) locs
          then push_msg (system_msg "⚠️ No results for Nordic location. Retry without location, then filter manually by GetCustomer location.") st1
          else st1
      | None => st1
      end
    else st1 in
  if is_mutation (a_kind fn)
  then set_memory (compress_memory (memory st2 +++ " | ✓" +++ Kind_name (a_kind fn))) st2
  else st2.

(** After the [try]: conversation, call history, memory. *)
Definition recorded (step : nat) (ns : NextStep) (fn : Action) (res : Response) (st : State)
  : State :=
  let tool_out := r_json res in
  let key := call_key fn in
  let st1 := set_call_history (call_history st ++ [key]) st in
  let n := count_key key (call_history st1) in
  let st2 :=
    if 3 <=? n then
      push_msg (system_msg ("⚠️ WARNING: You called " +++ fst key
        +++ " three times with same arguments. Change approach or provide final answer NOW."))
        (set_memory (memory st1 +++ " | LOOP: " +++ fst key +++ " x" +++ Str.of_nat n) st1)
    else st1 in
  let st3 := push_msg (mkMsg "assistant" (think ns) None
                         [mkToolCall (step_id step) (Kind_name (a_kind fn)) (model_dump_json E fn)]) st2 in
  let st4 := push_msg (tool_msg (Str.take 2000 tool_out) (step_id step)) st3 in
  let st5 := set_all_ids (all_ids st4 ++ _extract_ids E tool_out) st4 in
  set_memory (compress_memory (memory st5 +++ " | " +++ _short tool_out 200)) st5.

(** The end of the iteration of a successful call, with the [done] exit. *)
Definition record_call (step : nat) (ns : NextStep) (fn : Action) (res : Response) (st : State)
  : StepResult :=
  let st6 := recorded step ns fn res st in
  if done ns
  then Return st6 (mkFinal ok_answer "Done." (_build_links E (Str.last_n 5 (all_ids st6)) false)
                      exit_done step)
  else Continue st6.

(** The mutation the instruction requires and the call history lacks;
    a later check overrides an earlier one. *)
Definition required_call (h : list (string * string)) : option string :=
  let r1 := if implies_time_logging task_lower && negb (called "Req_LogTimeEntry" h)
            then Some "Req_LogTimeEntry" else None in
  let r2 := if implies_salary_raise task_lower && negb (called "Req_UpdateEmployeeInfo" h)
            then Some "Req_UpdateEmployeeInfo" else r1 in
  if implies_status_change task_lower && negb (called "Req_UpdateProjectStatus" h)
  then Some "Req_UpdateProjectStatus" else r2.

(** A status change that never ran turns the answer into a denial. *)
Definition status_rewrite (fn : Action) (st : State) : Action :=
  if implies_status_change task_lower && negb (called "Req_UpdateProjectStatus" (call_history st))
  then set_a_message "Project not found or you are not authorized to modify it."
         (set_a_outcome denied_security fn)
  else fn.

(** The notes of a blocked completion, and the block counter. *)
Definition block_notes (required : string) (st : State) : State :=
  let st1 := push_msg (system_msg ("⛔ BLOCKED: Task requires " +++ required
               +++ " but it was never called. Execute it first.")) st in
  let st2 := set_block_count (block_count st1 + 1) st1 in
  if 3 <=? block_count st2 then
    push_msg (system_msg ("⛔ CRITICAL: Blocked " +++ Str.of_nat (block_count st2)
      +++ "x. STOP SEARCHING. Call " +++ required +++ " NOW with IDs from memory: "
      +++ Str.last_chars 200 (memory st2))) st2
  else st2.

Inductive Guarded : Type :=
| Blocked : State -> Guarded                 (* continue: nothing is dispatched *)
| Proceed : State -> Action -> Guarded.

(** The premature-completion guard, for [outcome == "ok_answer" and not system_broken]. *)
Definition completion_guard (step : nat) (fn : Action) (st : State) : Guarded :=
  match required_call (call_history st) with
  | Some required =>
      let st3 := block_notes required st in
      if (Z.of_nat step <? Z.of_nat (MAX_STEPS E) - 5)%Z
      then Blocked st3
      else Proceed st3 (status_rewrite fn st3)
  | None => Proceed st (status_rewrite fn st)
  end.

(** The reply to a dispatch, for a final response and for any other request. *)
Definition after_dispatch (step : nat) (ns : NextStep) (fn : Action) (sr : State * ApiReply)
  : StepResult :=
  match snd sr with
  | ApiOk res =>
      if is_kind Req_ProvideAgentResponse fn
      then Return (fst sr) (mkFinal (a_outcome fn) (a_message fn) (a_links fn) exit_final_response step)
      else record_call step ns fn res (hints fn res (fst sr))
  | ApiException err => on_api_exception step fn err (fst sr)
  | Fault err => on_fault step err (fst sr)
  end.

Definition is_outcome (o : Outcome) (x : Outcome) : bool :=
  if Outcome_eq_dec x o then true else false.

(** [ok_not_found] is never surfaced: the response goes out as [ok_answer]. *)
Definition surface (fn : Action) : Action :=
  if is_outcome ok_not_found (a_outcome fn) then set_a_outcome ok_answer fn else fn.

(** No links on an internal error. *)
Definition drop_links (outcome : Outcome) (st : State) (fn : Action) : Action :=
  if is_outcome error_internal outcome || system_broken st then set_a_links [] fn else fn.

(** The branch [isinstance(fn, dev.Req_ProvideAgentResponse)]. *)
Definition finalize (step : nat) (ns : NextStep) (fn : Action) (st : State) : StepResult :=
  let outcome := a_outcome fn in
  let fn1 := surface fn in
  let g := if is_outcome ok_answer outcome && negb (system_broken st)
           then completion_guard step fn1 st
           else Proceed st fn1 in
  match g with
  | Blocked st1 => Continue st1
  | Proceed st1 fn2 =>
      let fn3 := drop_links outcome st1 fn2 in
      after_dispatch step ns fn3 (do_dispatch fn3 st1)
  end.

(** The note that rejects a fabricated identifier. *)
Definition hallucination_note (val : string) : Msg :=
  system_msg ("⛔ ID '" +++ val +++ "' looks hallucinated. Use exact ID from API response.").

(** The request as validated and enriched, before the completion guard. *)
Definition proposal (ns : NextStep) : Action := enrich about (clamp_limit (function ns)).

(** The tool phase of an iteration. *)
Definition execute_tool (step : nat) (ns : NextStep) (st : State) : StepResult :=
  let fn := clamp_limit (function ns) in
  match find_hallucinated fn with
  | Some val =>
      Continue (push_msg (hallucination_note val) st)
  | None =>
      let fn1 := proposal ns in
      if is_kind Req_ProvideAgentResponse fn1
      then finalize step ns fn1 st
      else after_dispatch step ns fn1 (do_dispatch fn1 st)
  end.

(** [memory = compress_memory(memory)] at the head of an iteration. *)
Definition compressed (st : State) : State := set_memory (compress_memory (memory st)) st.

(** The reasoning call: the conversation and the context note go out,
    a parsed [NextStep] or nothing comes back. *)
Definition ask (step : nat) (st : State) : option NextStep :=
  reason E (now st) (messages st ++ [system_msg (build_ctx step st)]).

(** One pass through the body of [for step in range(cfg.MAX_STEPS)]. *)
Definition iteration (step : nat) (st : State) : StepResult :=
  if 3 <=? api_fails st then
    Return (set_system_broken true st)
           (mkFinal error_internal "System unavailable." [] exit_system_unavailable step)
  else
    let st1 := compressed st in
    let reply := ask step st1 in
    let st2 := log_event (EvLLM reply) st1 in
    match reply with
    | None => on_llm_failure step st2
    | Some ns => execute_tool step ns (merge ns st2)
    end.

(** After the loop ran out of steps. *)
Definition exhausted (st : State) : Final :=
  if system_broken st then
    mkFinal error_internal "System error." [] exit_exhausted (MAX_STEPS E)
  else if any_in ["status"; "pause"; "archive"; "resume"; "switch"] task_lower then
    mkFinal denied_security "Project not found or not authorized." [] exit_exhausted (MAX_STEPS E)
  else
    mkFinal error_internal "Could not complete."
            (_build_links E (Str.last_n 3 (all_ids st)) false) exit_exhausted (MAX_STEPS E).

(** The iterations [step, step + 1, ...], [n] of them left. *)
Fixpoint loop (n : nat) (step : nat) (st : State) : State * Final :=
  match n with
  | O => (st, exhausted st)
  | S n' =>
      match iteration step st with
      | Continue st' => loop n' (S step) st'
      | Return st' f => (st', f)
      end
  end.

(** The state before any guard: no variable of the loop exists yet. *)
Definition empty_state : State := mkState "" "" [] 0 0 false [] 0 [] [].

(** The state at the head of the first iteration. *)
Definition init_state : State :=
  let evs := match current_user about with
             | Some u => if Str.nonempty u && negb (is_public about) then [EvGetEmployee u] else []
             | None => []
             end in
  let msgs := [system_msg (build_system_prompt E about); user_msg task_text] in
  let msgs1 := match customer_code E task_text with
               | Some code => msgs ++ [system_msg ("[SYSTEM HINT] Customer code '" +++ code
                    +++ "' detected. First action: SearchCustomers(query='" +++ code
                    +++ "') to find the correct customer.")]
               | None => msgs
               end in
  mkState "" "" [] 0 0 false [] 0 msgs1 evs.

(** The branding of the guest date answer; the dash is U+2014. *)
Definition branding : string := " — AI Excellence Group INTERNATIONAL".

(** [run_task]: the pattern guard, then the loop. *)
Definition run_task : State * Final :=
  if is_public about
     && negb (any_in ["date"; "today"; "current date"; "what day"; "what time"] task_lower)
  then (empty_state, mkFinal denied_security "Access denied." [] exit_guest_denied 0)
  else if is_public about && any_in ["date"; "today"; "current date"; "what day"] task_lower
  then (empty_state, mkFinal ok_answer (today about +++ branding) [] exit_guest_date 0)
  else
    match _match_pattern task_text DENY_PATTERNS with
    | Some deny_msg => (empty_state, mkFinal denied_security deny_msg [] exit_deny 0)
    | None =>
        match _match_pattern task_text UNSUPPORTED_PATTERNS with
        | Some unsup_msg => (empty_state, mkFinal none_unsupported unsup_msg [] exit_unsupported 0)
        | None =>
            if existsb (fun p => Re.search p task_lower) VAGUE_PATTERNS
            then (empty_state,
                  mkFinal none_clarification_needed
                          "Could you clarify which project you're referring to?" []
                          exit_clarification 0)
            else loop (MAX_STEPS E) 0 init_state
        end
    end.

End Loop.

(* ================================================================= *)
(** ** Predicates of the statements *)

Module StrPred.
Import Str.

(** Every character of [s] is a blank of [strip]. *)
Fixpoint all_space (s : string) : bool :=
  match s with
  | EmptyString => true
  | String c r => is_space c && all_space r
  end.

Fixpoint has_char (c : ascii) (s : string) : bool :=
  match s with
  | EmptyString => false
  | String d r => Ascii.eqb d c || has_char c r
  end.

(** The first character, if any, is no blank. *)
Definition head_ok (s : string) : Prop :=
  match s with
  | EmptyString => True
  | String c _ => is_space c = false
  end.

(** A fragment as [compress_memory] emits them: not empty, stripped, free
    of the delimiter and of the error marker. *)
Definition clean_fragment (l : string) : Prop :=
  l <> "" /\ head_ok l /\ rstrip l = l /\ has_char "|" l = false /\ contains "ERR" l = false.

End StrPred.

Section LoopPred.

Variable E : Env.
Variable task_text : string.
Variable about : WhoAmI.

(** The states at the head of an iteration: [reachable step st] when the
    loop gets to iteration [step] with its variables as in [st]
    ([step = MAX_STEPS E]: the loop ran out). *)
Inductive reachable : nat -> State -> Prop :=
| reach_init : reachable 0 (init_state E task_text about)
| reach_next step st st' :
    reachable step st -> step < MAX_STEPS E ->
    iteration E task_text about step st = Continue st' ->
    reachable (S step) st'.

(** How a run that got into the loop ended: out of steps, or by a
    [return] in the iteration of a reachable state. *)
Inductive loop_end (st : State) (f : Final) : Prop :=
| end_exhausted :
    reachable (MAX_STEPS E) st -> f = exhausted E task_text st -> loop_end st f
| end_return step st0 :
    reachable step st0 -> step < MAX_STEPS E ->
    iteration E task_text about step st0 = Return st f -> loop_end st f.

(** The guards before the loop let the task through. *)
Definition enters_loop : Prop :=
  run_task E task_text about = loop E task_text about (MAX_STEPS E) 0 (init_state E task_text about).

End LoopPred.

(* ================================================================= *)
(** ** One iteration, case by case *)

Section Cases.

Variable E : Env.
Variable task_text : string.
Variable about : WhoAmI.

(** The state once the reasoning call of iteration [step] is over. *)
Definition after_reply (step : nat) (st : State) : State :=
  log_event (EvLLM (ask E task_text step (compressed st))) (compressed st).

(** The request an iteration sends and the state it sends it from, after a
    reply [ns] merged into [stm]: a plain request, or a final response
    that the completion guard did not concern, let through, or waived. *)
Inductive Sent (step : nat) (ns : NextStep) (stm : State) : State -> Action -> Prop :=
| sent_request :
    is_kind Req_ProvideAgentResponse (proposal about ns) = false ->
    Sent step ns stm stm (proposal about ns)
| sent_unguarded :
    is_kind Req_ProvideAgentResponse (proposal about ns) = true ->
    is_outcome ok_answer (a_outcome (proposal about ns)) && negb (system_broken stm) = false ->
    Sent step ns stm stm
         (drop_links (a_outcome (proposal about ns)) stm (surface (proposal about ns)))
| sent_allowed :
    is_kind Req_ProvideAgentResponse (proposal about ns) = true ->
    a_outcome (proposal about ns) = ok_answer -> system_broken stm = false ->
    required_call task_text (call_history stm) = None ->
    Sent step ns stm stm
         (drop_links ok_answer stm (status_rewrite task_text (surface (proposal about ns)) stm))
| sent_waived required :
    is_kind Req_ProvideAgentResponse (proposal about ns) = true ->
    a_outcome (proposal about ns) = ok_answer -> system_broken stm = false ->
    required_call task_text (call_history stm) = Some required ->
    (Z.of_nat step <? Z.of_nat (MAX_STEPS E) - 5)%Z = false ->
    Sent step ns stm (block_notes required stm)
         (drop_links ok_answer (block_notes required stm)
            (status_rewrite task_text (surface (proposal about ns)) (block_notes required stm))).

(** How the iteration goes on after [api.dispatch(fn)] from state [std]. *)
Inductive Replied (step : nat) (ns : NextStep) (fn : Action) (std : State) : StepResult -> Prop :=
| replied_final res :
    dispatch E (now std) fn = ApiOk res -> is_kind Req_ProvideAgentResponse fn = true ->
    Replied step ns fn std
      (Return (log_event (EvDispatch fn (ApiOk res)) std)
              (mkFinal (a_outcome fn) (a_message fn) (a_links fn) exit_final_response step))
| replied_done res :
    dispatch E (now std) fn = ApiOk res -> is_kind Req_ProvideAgentResponse fn = false ->
    done ns = true ->
    Replied step ns fn std
      (Return (recorded E step ns fn res
                 (hints E task_text fn res (log_event (EvDispatch fn (ApiOk res)) std)))
              (mkFinal ok_answer "Done."
                 (_build_links E
                    (Str.last_n 5
                       (all_ids (recorded E step ns fn res
                          (hints E task_text fn res (log_event (EvDispatch fn (ApiOk res)) std)))))
                    false)
                 exit_done step))
| replied_recorded res :
    dispatch E (now std) fn = ApiOk res -> is_kind Req_ProvideAgentResponse fn = false ->
    done ns = false ->
    Replied step ns fn std
      (Continue (recorded E step ns fn res
                   (hints E task_text fn res (log_event (EvDispatch fn (ApiOk res)) std))))
| replied_permission err :
    dispatch E (now std) fn = ApiException err -> _classify_error err = permission ->
    Replied step ns fn std
      (Return (note_api_error err (log_event (EvDispatch fn (ApiException err)) std))
              (mkFinal denied_security "Permission denied." [] exit_permission step))
| replied_not_found_mutation err :
    dispatch E (now std) fn = ApiException err -> _classify_error err = not_found ->
    is_kind Req_UpdateProjectStatus fn || is_kind Req_UpdateProjectTeam fn = true ->
    Replied step ns fn std
      (Return (note_api_error err (log_event (EvDispatch fn (ApiException err)) std))
              (mkFinal denied_security "You are not authorized to modify this project." []
                 exit_not_found_mutation step))
| replied_system err :
    dispatch E (now std) fn = ApiException err -> _classify_error err = system ->
    Replied step ns fn std
      (Return (set_system_broken true
                 (set_api_fails (api_fails std + 1)
                    (note_api_error err (log_event (EvDispatch fn (ApiException err)) std))))
              (mkFinal error_internal "System error." [] exit_system_error step))
| replied_error err :
    dispatch E (now std) fn = ApiException err ->
    _classify_error err <> permission -> _classify_error err <> system ->
    Replied step ns fn std
      (Continue (push_msg (api_error_msg step err)
                   (note_api_error err (log_event (EvDispatch fn (ApiException err)) std))))
| replied_fault err :
    dispatch E (now std) fn = Fault err ->
    Replied step ns fn std
      (Continue (note_fault step err (log_event (EvDispatch fn (Fault err)) std))).

(** The ways through one iteration. *)
Inductive Iterated (step : nat) (st : State) : StepResult -> Prop :=
| it_unavailable :
    (3 <=? api_fails st) = true ->
    Iterated step st
      (Return (set_system_broken true st)
              (mkFinal error_internal "System unavailable." [] exit_system_unavailable step))
| it_llm_stop :
    (3 <=? api_fails st) = false -> ask E task_text step (compressed st) = None ->
    3 <= llm_fails st + 1 ->
    Iterated step st
      (Return (set_llm_fails (llm_fails st + 1) (after_reply step st))
              (mkFinal error_internal "System error." [] exit_llm_fails step))
| it_llm_retry :
    (3 <=? api_fails st) = false -> ask E task_text step (compressed st) = None ->
    llm_fails st + 1 < 3 ->
    Iterated step st
      (Continue (push_msg corrective_note (set_llm_fails (llm_fails st + 1) (after_reply step st))))
| it_hallucinated ns val :
    (3 <=? api_fails st) = false -> ask E task_text step (compressed st) = Some ns ->
    find_hallucinated (clamp_limit (function ns)) = Some val ->
    Iterated step st
      (Continue (push_msg (hallucination_note val) (merge E ns (after_reply step st))))
| it_blocked ns required :
    (3 <=? api_fails st) = false -> ask E task_text step (compressed st) = Some ns ->
    find_hallucinated (clamp_limit (function ns)) = None ->
    is_kind Req_ProvideAgentResponse (proposal about ns) = true ->
    a_outcome (proposal about ns) = ok_answer ->
    system_broken st = false ->
    required_call task_text (call_history st) = Some required ->
    (Z.of_nat step <? Z.of_nat (MAX_STEPS E) - 5)%Z = true ->
    Iterated step st (Continue (block_notes required (merge E ns (after_reply step st))))
| it_dispatched ns std fn r :
    (3 <=? api_fails st) = false -> ask E task_text step (compressed st) = Some ns ->
    find_hallucinated (clamp_limit (function ns)) = None ->
    Sent step ns (merge E ns (after_reply step st)) std fn ->
    Replied step ns fn std r ->
    Iterated step st r.

End Cases.

(* ================================================================= *)
(** ** The event log and the notions of the claims *)

(** A fabricated identifier, in the words of the specification: one of the
    entity prefixes followed by 1 to 5 digits and nothing else, or [emp_]
    followed by lowercase letters only. *)
Fixpoint all_chars (p : ascii -> bool) (s : string) : bool :=
  match s with
  | EmptyString => true
  | String c r => p c && all_chars p r
  end.

Definition fabricated_id (s : string) : Prop :=
  (exists p ds, In p ["proj"; "emp"; "cust"] /\ s = p +++ "_" +++ ds /\
                1 <= String.length ds <= 5 /\ all_chars Str.is_digit ds = true)
  \/ (exists ls, s = "emp_" +++ ls /\ 1 <= String.length ls /\ all_chars Str.is_lower ls = true).

(** A final response as it goes out: outcome, message and links may have
    been rewritten, nothing else. *)
Definition respond_with (o : Outcome) (m : string) (l : list AgentLink) (fn : Action) : Action :=
  set_a_links l (set_a_message m (set_a_outcome o fn)).

Section LogPred.

Variable about : WhoAmI.

(** The request [a] was sent for the reply [ns]: the proposal passed the
    identifier check and went out validated and enriched. *)
Definition sent_for (ns : NextStep) (a : Action) : Prop :=
  find_hallucinated (clamp_limit (function ns)) = None /\
  exists o m l, a = respond_with o m l (proposal about ns).

(** In a well-formed log every dispatch directly follows the reasoning
    reply it was sent for (the log is newest first). *)
Fixpoint log_ok (evs : list Event) : Prop :=
  match evs with
  | [] => True
  | EvDispatch a _ :: rest =>
      match rest with
      | EvLLM (Some ns) :: _ => sent_for ns a
      | _ => False
      end /\ log_ok rest
  | _ :: rest => log_ok rest
  end.

End LogPred.

(** A reasoning call that failed. *)
Definition is_failure (e : Event) : bool :=
  match e with EvLLM None => true | _ => false end.

(** The failed reasoning calls at the recent end of the log, in a row. *)
Fixpoint fail_streak (evs : list Event) : nat :=
  match evs with
  | EvLLM None :: rest => S (fail_streak rest)
  | _ => 0
  end.

(** All failed reasoning calls of the log. *)
Definition failures (evs : list Event) : nat := List.length (filter is_failure evs).

(** The corrective instruction, recognised in the conversation. *)
Definition is_corrective (m : Msg) : bool :=
  String.eqb (role m) "assistant"
  && String.eqb (content m) "Return valid JSON for NextStep schema."
  && match tool_calls m with [] => true | _ => false end.

Definition correctives (ms : list Msg) : nat := List.length (filter is_corrective ms).

(** A domain error of the API that the classifier calls [system]. *)
Definition is_system_error (e : Event) : bool :=
  match e with
  | EvDispatch _ (ApiException err) =>
      match _classify_error err with system => true | _ => false end
  | _ => false
  end.

(** The fragments of a memory string. *)
Definition fragments (m : string) : nat := List.length (Str.split_on "|" m).

Section Growth.

Variable E : Env.
Variable task_text : string.

(** By how much the hints can lengthen the scratch in one iteration. *)
Definition scratch_growth : nat :=
  match for_word E (task_lower task_text) with
  | Some w => String.length (disambiguation w)
  | None => 0
  end.

End Growth.

(* ================================================================= *)
(** ** Sample tasks, engines and APIs *)

Module Sample.

(** A request of class [k] with no attribute set. *)
Definition blank (k : Kind) : Action :=
  mkAction k None Absent Absent Absent None None None None None None None None None None None
           None None None ok_answer "" [] "".

(** A final response. *)
Definition respond (o : Outcome) (m : string) : Action :=
  set_a_message m (set_a_outcome o (blank Req_ProvideAgentResponse)).

(** A list request with a page size. *)
Definition list_projects (limit : Z) : Action := set_a_limit (Some limit) (blank Req_ListProjects).

(** A lookup by identifier. *)
Definition get_project (i : string) : Action :=
  mkAction Req_GetProject None Absent (Present (Some i)) Absent None None None None None None None
           None None None None None None None ok_answer "" [] "".

Definition empty_response : Response := mkResponse 0 false "{}".

(** An environment with [n] steps, the engine [r] and the API [d]; nothing
    in the sample texts is an identifier, a customer code or a [for] clause. *)
Definition env (n : nat) (r : nat -> list Msg -> option NextStep) (d : nat -> Action -> ApiReply)
  : Env :=
  mkEnv n r d (fun _ => "You are a business assistant for ERC system.") (fun _ => "{}")
        (fun _ => []) (fun l => l) (fun _ => "[]") (fun _ => None) (fun _ => None).

Definition step_with (dn : bool) (fn : Action) : NextStep := mkNextStep "next" "" "" dn fn.

Definition api_ok : nat -> Action -> ApiReply := fun _ _ => ApiOk empty_response.

(** An engine that never returns a parsable step, one that always proposes
    the same request, and an API that always fails the same way. *)
Definition engine_down : nat -> list Msg -> option NextStep := fun _ _ => None.
Definition engine_says (ns : NextStep) : nat -> list Msg -> option NextStep := fun _ _ => Some ns.
Definition api_raises (err : string) : nat -> Action -> ApiReply := fun _ _ => ApiException err.

Definition employee : WhoAmI := mkWhoAmI false (Some "ana_kovac") "2025-01-05".
Definition guest : WhoAmI := mkWhoAmI true None "2025-01-05".

End Sample.

(** The state in which an iteration ends. *)
Definition result_state (r : StepResult) : State :=
  match r with Continue st => st | Return st _ => st end.

(** No more than [n] failed reasoning calls in a row, anywhere in the log. *)
Definition streaks_at_most (n : nat) (evs : list Event) : Prop :=
  forall pre post, evs = pre ++ post -> fail_streak post <= n.

(** No system error of the API in the log. *)
Definition no_system_error (evs : list Event) : Prop :=
  Forall (fun e => is_system_error e = false) evs.

(** The counter of reasoning failures is the streak at the end of the log,
    2 at most while the loop goes on; no streak in the log is longer; and
    the conversation ends with one corrective note per failure of the
    running streak. *)
Definition streak_invariant (st : State) : Prop :=
  llm_fails st = fail_streak (events st)
  /\ streaks_at_most 2 (events st)
  /\ exists ms, messages st = ms ++ repeat corrective_note (fail_streak (events st)).


(* ================================================================= *)
(** ** More of the string methods of Python *)

Module Text.
Import Str.

(** [s.endswith(suffix)] *)
Definition endswith (suffix s : string) : bool :=
  String.eqb (last_chars (String.length suffix) s) suffix.

(** [s.find(c)] for a one-character [c]: the first index, if any. *)
Fixpoint find (c : ascii) (s : string) : option nat :=
  match s with
  | EmptyString => None
  | String d r => if Ascii.eqb d c then Some 0 else option_map S (find c r)
  end.

(** [s[:k]] for any integer [k]: a negative [k] counts from the end. *)
Definition slice_to (k : Z) (s : string) : string :=
  if (0 <=? k)%Z then take (Z.to_nat k) s
  else take (String.length s - Z.to_nat (- k)) s.

(** The number of code points of a UTF-8 text: the bytes that do not
    continue a character.  On ASCII text it is the length. *)
Definition is_continuation (c : ascii) : bool :=
  let n := nat_of_ascii c in (128 <=? n) && (n <? 192).

Fixpoint code_points (s : string) : nat :=
  match s with
  | EmptyString => 0
  | String c r => if is_continuation c then code_points r else S (code_points r)
  end.

(** [[A-Za-z0-9_]] *)
Definition is_word (c : ascii) : bool :=
  is_upper c || is_lower c || is_digit c || Ascii.eqb c "_".

(** The longest prefix of word characters: what a greedy [[A-Za-z0-9_]*]
    takes. *)
Fixpoint word_run (s : string) : string :=
  match s with
  | EmptyString => EmptyString
  | String c r => if is_word c then String c (word_run r) else EmptyString
  end.

End Text.

(* ================================================================= *)
(** ** The payload of a reply: [extract_json] *)

Definition json_prefixes : list string := ["Assistant:"; "assistant:"; "```json"; "```"].

(** One turn of the loop over the prefixes. *)
Definition strip_prefix (text prefix : string) : string :=
  if Str.startswith (Str.lower prefix) (Str.lower text)
  then Str.strip (Str.drop (String.length prefix) text)
  else text.

(** What is left of a fenced reply: prefixes and the closing fence go. *)
Definition unfence (raw : string) : string :=
  let text := fold_left strip_prefix json_prefixes (Str.strip raw) in
  if Text.endswith "```" text
  then Str.strip (Str.take (String.length text - 3) text)
  else text.

(** The loop over [text[start:]]: how many characters are read until the
    depth is back at 0, if it ever is. *)
Fixpoint scan_depth (depth : Z) (s : string) : option nat :=
  match s with
  | EmptyString => None
  | String c r =>
      let depth1 := (depth + (if Ascii.eqb c "{" then 1 else 0)
                           - (if Ascii.eqb c "}" then 1 else 0))%Z in
      if (depth1 =? 0)%Z then Some 1 else option_map S (scan_depth depth1 r)
  end.

(** [extract_json] *)
Definition extract_json (raw : string) : string :=
  let text := unfence raw in
  match Text.find "{" text with
  | None => text
  | Some start =>
      let stop := match scan_depth 0 (Str.drop start text) with
                  | Some n => start + n
                  | None => String.length text
                  end in
      Str.take (stop - start) (Str.drop start text)
  end.

(** Braces that nest: every closing brace closes one that is open, and
    [d] of them are open at the start, none at the end. *)
Fixpoint well_nested (d : nat) (s : string) : bool :=
  match s with
  | EmptyString => d =? 0
  | String c r =>
      if Ascii.eqb c "{" then well_nested (S d) r
      else if Ascii.eqb c "}" then match d with O => false | S d' => well_nested d' r end
      else well_nested d r
  end.

(** [a] is a contiguous part of [s]. *)
Definition part_of (a s : string) : Prop := exists l r, s = l +++ (a +++ r).

(** Text without blanks around it. *)
Definition stripped (s : string) : Prop := Str.strip s = s.

(** [text] holds the object with body [b] after a part free of opening
    braces. *)
Definition wraps (b text : string) : Prop :=
  exists pre post,
    text = pre +++ String "{" (b +++ String "}" post) /\ StrPred.has_char "{" pre = false.

(** The order in which [_classify_error] tries the classes. *)
Definition ErrClass_rank (c : ErrClass) : nat :=
  match c with permission => 0 | system => 1 | not_found => 2 | other => 3 end.

(* ================================================================= *)
(** ** The identifiers of a text: the [re.findall] of [_extract_ids] *)

Definition id_prefixes : list string := ["proj_"; "emp_"; "cust_"].

(** The alternative [p[A-Za-z0-9_]+] at the head of [s]. *)
Definition id_with (p s : string) : option string :=
  if Str.startswith p s then
    match Text.word_run (Str.drop (String.length p) s) with
    | EmptyString => None
    | String c w => Some (p +++ String c w)
    end
  else None.

(** The match of the pattern at the head of [s]: the alternatives in
    their order. *)
Fixpoint id_among (ps : list string) (s : string) : option string :=
  match ps with
  | [] => None
  | p :: ps' => match id_with p s with Some m => Some m | None => id_among ps' s end
  end.

Definition id_at (s : string) : option string := id_among id_prefixes s.

(** The scan from left to right; the characters of a match ([skip] of them
    are still to pass) start no other match. *)
Fixpoint findall_from (skip : nat) (s : string) : list string :=
  match s with
  | EmptyString => []
  | String c r =>
      match skip with
      | S k => findall_from k r
      | O => match id_at s with
             | Some m => m :: findall_from (String.length m - 1) r
             | None => findall_from 0 r
             end
      end
  end.

(** [re.findall(r"(proj_[A-Za-z0-9_]+|emp_[A-Za-z0-9_]+|cust_[A-Za-z0-9_]+)", text)] *)
Definition findall_ids (text : string) : list string := findall_from 0 text.

(** The pattern itself. *)
Definition Word : regex := Class Text.is_word.

Definition ID_PATTERN : regex :=
  Alt (Seq (Lit "proj_") (Plus Word))
      (Alt (Seq (Lit "emp_") (Plus Word)) (Seq (Lit "cust_") (Plus Word))).

(* ================================================================= *)
(** ** Search variations *)

Section Variations.

(** [_normalize_name]: the decomposition of the Unicode database, with the
    combining marks taken out. *)
Variable _normalize_name : string -> string.

(** [_search_variations] *)
Definition _search_variations (query : string) : list string :=
  let variations := [query] in
  let norm := _normalize_name query in
  let variations1 := if negb (String.eqb norm query) then variations ++ [norm] else variations in
  if negb (existsb (String.eqb (Str.lower query)) variations1)
  then variations1 ++ [Str.lower query]
  else variations1.

End Variations.

(* ================================================================= *)
(** ** Model selection ([config.py]) *)

Module Config.

(** The provider body of a model. *)
Record Provider : Type := mkProvider { order : list string; allow_fallbacks : bool }.

Definition MODEL_OPTIONS : list (string * option Provider) :=
  [ ("qwen/qwen3-235b-a22b-2507", Some (mkProvider ["Cerebras"] false));
    ("x-ai/grok-4.1-fast", None);
    ("x-ai/grok-4.1", None);
    ("openai/gpt-4.1", None) ].

Definition MODEL_ALIASES : list (string * string) :=
  [ ("grok-fast", "x-ai/grok-4.1-fast");
    ("grok", "x-ai/grok-4.1");
    ("qwen", "qwen/qwen3-235b-a22b-2507");
    ("gpt", "openai/gpt-4.1");
    ("grok-4.1-fast", "x-ai/grok-4.1-fast");
    ("grok-4.1", "x-ai/grok-4.1");
    ("gpt-4.1", "openai/gpt-4.1") ].

(** [d.get(k)] on a dictionary literal. *)
Fixpoint lookup {A} (k : string) (d : list (string * A)) : option A :=
  match d with
  | [] => None
  | (k', v) :: d' => if String.eqb k' k then Some v else lookup k d'
  end.

(** [get_provider]: the provider of the first entry with this id; nothing
    for an id that is not declared, and for a model without provider. *)
Fixpoint provider_in (options : list (string * option Provider)) (model_id : string)
  : option Provider :=
  match options with
  | [] => None
  | (mid, provider) :: rest => if String.eqb mid model_id then provider else provider_in rest model_id
  end.

Definition get_provider (model_id : string) : option Provider :=
  provider_in MODEL_OPTIONS model_id.

Definition DEFAULT : string * option Provider :=
  ("qwen/qwen3-235b-a22b-2507", Some (mkProvider ["Cerebras"] false)).

Inductive Resolved : Type :=
| Model : string -> option Provider -> Resolved
| ValueError : string -> Resolved.

(** The loop of [resolve_model] over the options. *)
Fixpoint resolve_in (options : list (string * option Provider)) (model_id choice : string)
  : Resolved :=
  match options with
  | [] => ValueError ("Model '" +++ choice +++ "' is not allowed. Allowed: "
            +++ "['qwen/qwen3-235b-a22b-2507', 'x-ai/grok-4.1-fast', 'x-ai/grok-4.1', 'openai/gpt-4.1']")
  | (mid, provider) :: rest =>
      if String.eqb mid model_id then Model mid provider else resolve_in rest model_id choice
  end.

(** [resolve_model] *)
Definition resolve_model (choice : option string) : Resolved :=
  match choice with
  | None => Model (fst DEFAULT) (snd DEFAULT)
  | Some c =>
      if negb (Str.nonempty c) then Model (fst DEFAULT) (snd DEFAULT)
      else
        let model_id := match lookup (Str.lower c) MODEL_ALIASES with
                        | Some target => target
                        | None => c
                        end in
        resolve_in MODEL_OPTIONS model_id c
  end.

End Config.

(* ================================================================= *)
(** ** The tasks picked on the command line ([main.py]) *)

Section Selection.

(** A task of the platform, with the two fields the selection reads;
    [==] on tasks is decidable. *)
Variable Task : Type.
Variable Task_eq_dec : forall a b : Task, {a = b} + {a <> b}.
Variable task_id : Task -> string.
Variable spec_id : Task -> string.

(** [str.isdigit] and [int] of Python, which read the Unicode database:
    [isdigit] holds of texts such as a superscript two that [int] does not
    read, and [int] then raises [ValueError], here [None]. *)
Variable isdigit : string -> bool.
Variable int : string -> option Z.

(** [task in selected] *)
Definition selected_has (task : Task) (selected : list Task) : bool :=
  if in_dec Task_eq_dec task selected then true else false.

(** The inner loop of a selector that is no number. *)
Fixpoint select_named (token : string) (tasks selected : list Task) : list Task :=
  match tasks with
  | [] => selected
  | task :: rest =>
      if (String.eqb (task_id task) token || String.eqb (spec_id task) token)
         && negb (selected_has task selected)
      then select_named token rest (selected ++ [task])
      else select_named token rest selected
  end.

(** One selector; [None] when [int] raises. *)
Definition select_one (all_tasks : list Task) (selected : list Task) (sel : string)
  : option (list Task) :=
  let token := Str.strip sel in
  if isdigit token then
    match int token with
    | None => None
    | Some idx =>
        if ((1 <=? idx) && (idx <=? Z.of_nat (List.length all_tasks)))%Z then
          match nth_error all_tasks (Z.to_nat (idx - 1)) with
          | Some task =>
              Some (if negb (selected_has task selected) then selected ++ [task] else selected)
          | None => Some selected
          end
        else Some selected
    end
  else Some (select_named token all_tasks selected).

(** The loop over the selectors, which an exception leaves. *)
Fixpoint select_each (all_tasks : list Task) (sels : list string) (selected : list Task)
  : option (list Task) :=
  match sels with
  | [] => Some selected
  | sel :: rest =>
      match select_one all_tasks selected sel with
      | None => None
      | Some selected' => select_each all_tasks rest selected'
      end
  end.

(** [select_task_subset]; no [--task] option gives the selectors [None],
    and the result [None] is the [ValueError] of [int]. *)
Definition select_task_subset (all_tasks : list Task) (selectors : option (list string))
  : option (list Task) :=
  match selectors with
  | None | Some [] => Some all_tasks
  | Some sels =>
      match select_each all_tasks sels [] with
      | None => None
      | Some [] => Some all_tasks
      | Some selected => Some selected
      end
  end.

(** What a selector asks for: the task at a position counted from 1, or
    the tasks of a task id or spec id. *)
Definition picks (all_tasks : list Task) (sel : string) (task : Task) : Prop :=
  let token := Str.strip sel in
  if isdigit token
  then exists idx, int token = Some idx /\ (1 <= idx)%Z
                   /\ nth_error all_tasks (Z.to_nat (idx - 1)) = Some task
  else In task all_tasks /\ (task_id task = token \/ spec_id task = token).

(** A selector on which [int] raises. *)
Definition unreadable (sel : string) : Prop :=
  isdigit (Str.strip sel) = true /\ int (Str.strip sel) = None.

End Selection.

(* ================================================================= *)
(** ** Values of the trace ([trace.py]) *)

(** What is neither text, list nor dictionary. *)
Inductive Scalar : Type :=
| SNone : Scalar
| SBool : bool -> Scalar
| SInt : Z -> Scalar.

#[warnings="-register-all"]
Inductive Value : Type :=
| VStr : string -> Value
| VList : list Value -> Value
| VDict : list (string * Value) -> Value
| VScalar : Scalar -> Value.

(** The note that stands for the items beyond the fiftieth. *)
Definition trimmed_note (n : nat) : string :=
  "... trimmed " +++ Str.of_nat (n - 50) +++ " items ...".

(** The text branch. *)
Definition truncate_text (value : string) (max_len : Z) : string :=
  if (Z.of_nat (String.length value) <=? max_len)%Z then value
  else Text.slice_to (max_len - 1) value +++ "…".

Section Trim.

Variable each : Value -> Value.
Variable note : string.

(** The loop over the items of a list, [idx] being the index of the first:
    fifty items go through, a note stands for the others. *)
Fixpoint trim (idx : nat) (items : list Value) : list Value :=
  match items with
  | [] => []
  | item :: rest =>
      if 50 <=? idx then [VStr note]
      else each item :: trim (S idx) rest
  end.

End Trim.

(** [_truncate_value] *)
Fixpoint _truncate_value (value : Value) (max_len : Z) : Value :=
  match value with
  | VStr s => VStr (truncate_text s max_len)
  | VList l =>
      VList (trim (fun item => _truncate_value item max_len) (trimmed_note (List.length l)) 0 l)
  | VDict d => VDict (map (fun kv => (fst kv, _truncate_value (snd kv) max_len)) d)
  | VScalar x => VScalar x
  end.

Section Upto.

Variable p : Value -> bool.

(** [p] holds of the first [k] items. *)
Fixpoint all_upto (k : nat) (items : list Value) : bool :=
  match k, items with
  | S k', item :: rest => p item && all_upto k' rest
  | _, _ => true
  end.

End Upto.

(** A text that reads as the note of a trimmed list. *)
Definition is_note (v : Value) : bool :=
  match v with
  | VStr s => Str.startswith "... trimmed " s && Text.endswith " items ..." s
  | _ => false
  end.

(** Every list of [v] has 51 items at most, the 51st being a note; every
    other text has [n] code points at most. *)
Fixpoint bounded (n : nat) (v : Value) : bool :=
  match v with
  | VStr s => Text.code_points s <=? n
  | VList l =>
      (List.length l <=? 51) && all_upto (bounded n) 50 l
      && match nth_error l 50 with Some item => is_note item | None => true end
  | VDict d => forallb (fun kv => bounded n (snd kv)) d
  | VScalar _ => true
  end.

(** Every text of [v] has length [n] at most and every list 50 items at
    most: nothing for [_truncate_value] to do. *)
Fixpoint fits (n : Z) (v : Value) : bool :=
  match v with
  | VStr s => (Z.of_nat (String.length s) <=? n)%Z
  | VList l => (List.length l <=? 50) && forallb (fits n) l
  | VDict d => forallb (fun kv => fits n (snd kv)) d
  | VScalar _ => true
  end.

(** Samples of the statements below. *)
Module Sample2.

Record TaskInfo : Type := mkTask { t_task_id : string; t_spec_id : string }.

Definition TaskInfo_eq_dec (a b : TaskInfo) : {a = b} + {a <> b}.
Proof. decide equality; apply string_dec. Defined.

Definition tasks : list TaskInfo :=
  [mkTask "t_101" "wipe_data"; mkTask "t_102" "log_time"; mkTask "t_103" "log_time"].

(** [str.isdigit] and [int] on the texts of the samples, which are ASCII:
    a text of decimal digits, read in base ten. *)
Fixpoint all_digits (s : string) : bool :=
  match s with
  | EmptyString => true
  | String c r => Str.is_digit c && all_digits r
  end.

Definition ascii_isdigit (s : string) : bool := Str.nonempty s && all_digits s.

Fixpoint decimal_from (acc : Z) (s : string) : Z :=
  match s with
  | EmptyString => acc
  | String c r => decimal_from (10 * acc + Z.of_nat (nat_of_ascii c - 48)) r
  end.

Definition ascii_int (s : string) : option Z :=
  if ascii_isdigit s then Some (decimal_from 0 s) else None.

Definition select :=
  select_task_subset TaskInfo TaskInfo_eq_dec t_task_id t_spec_id ascii_isdigit ascii_int.

Definition picked := picks TaskInfo t_task_id t_spec_id ascii_isdigit ascii_int.

Definition record : Value :=
  VDict [("raw", VStr "0123456789"); ("ids", VList [VStr "proj_acme"; VScalar (SInt 7)])].

End Sample2.

(* ================================================================= *)
(** ** More notions of the event log *)

Definition is_reasoning (e : Event) : bool :=
  match e with EvLLM _ => true | _ => false end.

Definition is_dispatch (e : Event) : bool :=
  match e with EvDispatch _ _ => true | _ => false end.

Definition is_lookup (e : Event) : bool :=
  match e with EvGetEmployee _ => true | _ => false end.

(** How often the reasoning engine was called, how many requests were
    dispatched for it, and how often the profile of the user was looked
    up for the prompt. *)
Definition reasoning_calls (evs : list Event) : nat := List.length (filter is_reasoning evs).
Definition dispatches (evs : list Event) : nat := List.length (filter is_dispatch evs).
Definition lookups (evs : list Event) : nat := List.length (filter is_lookup evs).

(** The call keys of the requests that the API answered, final responses
    apart, oldest first (the log is newest first). *)
Fixpoint answered_keys (evs : list Event) : list (string * string) :=
  match evs with
  | [] => []
  | EvDispatch a (ApiOk _) :: rest =>
      if is_kind Req_ProvideAgentResponse a then answered_keys rest
      else answered_keys rest ++ [call_key a]
  | _ :: rest => answered_keys rest
  end.

(** An error of the API that ends the task with a denial: a permission
    error, or a project that is not found when it is to be modified. *)
Definition is_denial (e : Event) : bool :=
  match e with
  | EvDispatch a (ApiException err) =>
      match _classify_error err with
      | permission => true
      | not_found => is_kind Req_UpdateProjectStatus a || is_kind Req_UpdateProjectTeam a
      | _ => false
      end
  | _ => false
  end.

(** The words of a guest question about the date. *)
Definition date_words : list string := ["date"; "today"; "what day"].

(** More samples. *)
Module Sample3.

Definition log_time : Action :=
  mkAction Req_LogTimeEntry None Absent Absent (Present (Some "emp_ana_kovac"))
           (Some "proj_acme_01") None None None None None None None None None None None None
           None ok_answer "" [] "".

Definition update_status : Action :=
  mkAction Req_UpdateProjectStatus None Absent (Present (Some "proj_acme_01")) Absent
           None None None None (Some "paused") None None None None None None None None
           None ok_answer "" [] "".

(** An update with a raise, a blank department and no skill: the update
    that goes out has the raise and who made it, nothing else. *)
Definition update_info : Action :=
  mkAction Req_UpdateEmployeeInfo (Some 9%Z) Absent Absent (Present (Some "emp_ana_kovac"))
           None None None None None None (Some []) None None (Some 5200%Z) (Some "  ") None None
           None ok_answer "" [] "".

(** A search for whoever knows Python from level 3, with a bound of 0. *)
Definition search_python : Action :=
  mkAction Req_SearchEmployees (Some 5%Z) (Present None) Absent Absent
           None None None None None None (Some [mkSkill "python" 3 (Some 0%Z)]) None None None
           None None None None ok_answer "" [] "".

End Sample3.

(* ================================================================= *)
(** * Properties *)

(** ** Strings *)

Module StrFacts.
Import Str StrPred.

Lemma app_nil_r (s : string) : s +++ "" = s.
Proof. induction s; simpl; congruence. Qed.

Lemma app_assoc (a b c : string) : (a +++ b) +++ c = a +++ (b +++ c).
Proof. induction a; simpl; congruence. Qed.

Lemma length_app (a b : string) : String.length (a +++ b) = String.length a + String.length b.
Proof. induction a; simpl; congruence. Qed.

Lemma has_char_app c a b : has_char c (a +++ b) = has_char c a || has_char c b.
Proof. induction a; simpl; [reflexivity | rewrite IHa, orb_assoc; reflexivity]. Qed.

Lemma lstrip_head_ok s : head_ok (lstrip s).
Proof.
  induction s as [|c r IH]; simpl; [exact I|].
  destruct (is_space c) eqn:Hc; [exact IH | exact Hc].
Qed.

Lemma head_ok_lstrip s : head_ok s -> lstrip s = s.
Proof. destruct s as [|c r]; simpl; [reflexivity | intros ->; reflexivity]. Qed.

Lemma rstrip_head_ok s : head_ok s -> head_ok (rstrip s).
Proof.
  destruct s as [|c r]; simpl; [trivial|].
  intros Hc. destruct (rstrip r); simpl; [rewrite Hc; exact Hc | exact Hc].
Qed.

Lemma rstrip_idem s : rstrip (rstrip s) = rstrip s.
Proof.
  induction s as [|c r IH]; simpl; [reflexivity|].
  destruct (rstrip r) as [|d r'] eqn:Hr.
  - destruct (is_space c) eqn:Hc; simpl; [reflexivity | rewrite Hc; reflexivity].
  - change (rstrip (String c (String d r'))) with
      (match rstrip (String d r') with
       | EmptyString => if is_space c then EmptyString else String c EmptyString
       | r'' => String c r''
       end).
    rewrite IH. reflexivity.
Qed.

Lemma lstrip_suffix s : exists a, s = a +++ lstrip s.
Proof.
  induction s as [|c r [a Ha]]; simpl; [exists ""; reflexivity|].
  destruct (is_space c).
  - exists (String c a). simpl. congruence.
  - exists "". reflexivity.
Qed.

Lemma rstrip_prefix s : exists b, s = rstrip s +++ b.
Proof.
  induction s as [|c r [b Hb]]; simpl; [exists ""; reflexivity|].
  destruct (rstrip r) as [|d r'] eqn:Hr.
  - destruct (is_space c).
    + exists (String c r). reflexivity.
    + exists r. simpl in Hb. simpl. congruence.
  - exists b. simpl. simpl in Hb. congruence.
Qed.

(** What [strip] returns is a piece of what it is given. *)
Lemma strip_infix s : exists a b, s = a +++ (strip s +++ b).
Proof.
  destruct (lstrip_suffix s) as [a Ha]. destruct (rstrip_prefix (lstrip s)) as [b Hb].
  exists a, b. unfold strip. rewrite <- Hb. exact Ha.
Qed.

Lemma strip_head_ok s : head_ok (strip s).
Proof. apply rstrip_head_ok, lstrip_head_ok. Qed.

Lemma strip_rstrip s : rstrip (strip s) = strip s.
Proof. apply rstrip_idem. Qed.

Lemma lstrip_all_space pre x : all_space pre = true -> lstrip (pre +++ x) = lstrip x.
Proof.
  induction pre as [|c r IH]; simpl; [reflexivity|].
  intros H. apply andb_prop in H as [Hc Hr]. rewrite Hc. auto.
Qed.

Lemma rstrip_all_space post : all_space post = true -> rstrip post = "".
Proof.
  induction post as [|c r IH]; simpl; [reflexivity|].
  intros H. apply andb_prop in H as [Hc Hr]. rewrite (IH Hr), Hc. reflexivity.
Qed.

Lemma rstrip_app_space l post : all_space post = true -> rstrip (l +++ post) = rstrip l.
Proof.
  intros Hp. induction l as [|c r IH]; simpl; [apply rstrip_all_space, Hp|].
  rewrite IH. reflexivity.
Qed.

(** Blanks around a stripped, non-empty fragment are all that [strip] removes. *)
Lemma strip_pad pre l post :
  all_space pre = true -> all_space post = true ->
  l <> "" -> head_ok l -> rstrip l = l ->
  strip (pre +++ (l +++ post)) = l.
Proof.
  intros Hpre Hpost Hne Hh Hr. unfold strip.
  rewrite lstrip_all_space by exact Hpre.
  rewrite head_ok_lstrip.
  - rewrite rstrip_app_space by exact Hpost. exact Hr.
  - destruct l; [congruence | exact Hh].
Qed.

Lemma startswith_app p a b : startswith p a = true -> startswith p (a +++ b) = true.
Proof.
  revert a; induction p as [|x p IH]; intros a; simpl; [reflexivity|].
  destruct a as [|y a]; simpl; [discriminate|].
  intros H. apply andb_prop in H as [H1 H2]. rewrite H1, (IH _ H2). reflexivity.
Qed.

Lemma contains_cons p c r : contains p (String c r) = startswith p (String c r) || contains p r.
Proof. reflexivity. Qed.

Lemma contains_app_r p a b : contains p a = true -> contains p (a +++ b) = true.
Proof.
  induction a as [|c a IH].
  - simpl. rewrite orb_false_r. intros H. destruct p; [destruct b; reflexivity | discriminate].
  - rewrite contains_cons. intros H.
    change (String c a +++ b) with (String c (a +++ b)). rewrite contains_cons.
    apply orb_prop in H as [H|H].
    + change (String c (a +++ b)) with (String c a +++ b).
      rewrite (startswith_app p (String c a) b H). reflexivity.
    + rewrite (IH H). apply orb_true_r.
Qed.

Lemma contains_app_l p a b : contains p b = true -> contains p (a +++ b) = true.
Proof.
  induction a as [|c a IH]; [trivial|].
  intros H. change (String c a +++ b) with (String c (a +++ b)).
  rewrite contains_cons, (IH H). apply orb_true_r.
Qed.

(** A pattern found in a piece is found in the whole. *)
Lemma contains_infix p a x b : contains p x = true -> contains p (a +++ (x +++ b)) = true.
Proof. intros H. apply contains_app_l, contains_app_r, H. Qed.

Lemma contains_strip p s : contains p (strip s) = true -> contains p s = true.
Proof.
  intros H. destruct (strip_infix s) as (a & b & Hs). rewrite Hs. apply contains_infix, H.
Qed.

Lemma has_char_strip c s : has_char c s = false -> has_char c (strip s) = false.
Proof.
  intros H. destruct (strip_infix s) as (a & b & Hs). rewrite Hs in H.
  rewrite !has_char_app in H. apply orb_false_elim in H as [_ H].
  apply orb_false_elim in H as [H _]. exact H.
Qed.

End StrFacts.

(** ** The context compressor *)

Module Compress.
Import Str StrPred StrFacts.

Lemma split_on_nosep sep a : has_char sep a = false -> split_on sep a = [a].
Proof.
  induction a as [|c a IH]; simpl; [reflexivity|].
  intros H. apply orb_false_elim in H as [Hc Ha]. rewrite Hc, (IH Ha). reflexivity.
Qed.

Lemma split_on_app sep a b :
  has_char sep a = false -> split_on sep (a +++ String sep b) = a :: split_on sep b.
Proof.
  induction a as [|c a IH]; simpl.
  - intros _. rewrite Ascii.eqb_refl. reflexivity.
  - intros H. apply orb_false_elim in H as [Hc Ha]. rewrite Hc, (IH Ha). reflexivity.
Qed.

Lemma split_on_pieces sep s : Forall (fun p => has_char sep p = false) (split_on sep s).
Proof.
  induction s as [|c s IH]; simpl; [repeat constructor|].
  destruct (Ascii.eqb c sep) eqn:Hc; [constructor; [reflexivity | exact IH]|].
  destruct (split_on sep s) as [|p ps]; [repeat constructor; simpl; rewrite Hc; reflexivity|].
  inversion IH; subst. constructor; [simpl; rewrite Hc; assumption | assumption].
Qed.

Lemma all_space_no_bar pre : all_space pre = true -> has_char "|" pre = false.
Proof.
  induction pre as [|c r IH]; simpl; [reflexivity|].
  intros H. apply andb_prop in H as [Hc Hr]. rewrite (IH Hr), orb_false_r.
  destruct (Ascii.eqb c "|") eqn:E; [|reflexivity].
  apply Ascii.eqb_eq in E. subst c. discriminate Hc.
Qed.

Section NoBlankPattern.

Variable p : string.
Hypothesis p_no_blank : forall c, is_space c = true -> has_char c p = false.

Lemma startswith_pad_r : forall q l post,
  (forall c, is_space c = true -> has_char c q = false) ->
  all_space post = true -> startswith q (l +++ post) = startswith q l.
Proof.
  induction q as [|a q IH]; intros l post Hq Hpost; [reflexivity|].
  assert (Hq' : forall c, is_space c = true -> has_char c q = false).
  { intros c Hc. specialize (Hq c Hc). simpl in Hq. apply orb_false_elim in Hq. tauto. }
  destruct l as [|y l]; simpl.
  - destruct post as [|c r]; [reflexivity|]. simpl in Hpost.
    apply andb_prop in Hpost as [Hc _]. specialize (Hq c Hc). simpl in Hq.
    apply orb_false_elim in Hq as [Hq _]. rewrite Hq. reflexivity.
  - rewrite (IH l post Hq' Hpost). reflexivity.
Qed.

Lemma contains_space_only post : all_space post = true -> contains p post = contains p "".
Proof.
  induction post as [|c r IH]; [reflexivity|]. intros H.
  rewrite contains_cons. pose proof H as H'. simpl in H'. apply andb_prop in H' as [_ Hr].
  rewrite (IH Hr).
  change (String c r) with ("" +++ String c r).
  rewrite (startswith_pad_r p "" (String c r) p_no_blank H).
  simpl. destruct (startswith p ""); reflexivity.
Qed.

Lemma contains_pad_r l post : all_space post = true -> contains p (l +++ post) = contains p l.
Proof.
  intros Hpost. induction l as [|y l IH]; [apply contains_space_only, Hpost|].
  change (String y l +++ post) with (String y (l +++ post)).
  rewrite !contains_cons, IH.
  change (String y (l +++ post)) with (String y l +++ post).
  rewrite (startswith_pad_r p _ post p_no_blank Hpost). reflexivity.
Qed.

Lemma contains_pad_l pre x : all_space pre = true -> contains p (pre +++ x) = contains p x.
Proof.
  induction pre as [|c r IH]; [reflexivity|]. intros H.
  simpl in H. apply andb_prop in H as [Hc Hr].
  change (String c r +++ x) with (String c (r +++ x)). rewrite contains_cons, (IH Hr).
  destruct p as [|a q] eqn:Hp.
  - destruct x; reflexivity.
  - specialize (p_no_blank c Hc). simpl in p_no_blank.
    apply orb_false_elim in p_no_blank as [Ha _]. simpl. rewrite Ha. reflexivity.
Qed.

End NoBlankPattern.

Lemma ERR_no_blank : forall c, is_space c = true -> has_char c "ERR" = false.
Proof.
  intros c Hc.
  assert (E1 : Ascii.eqb "E" c = false).
  { destruct (Ascii.eqb "E" c) eqn:E; [apply Ascii.eqb_eq in E; subst c; discriminate Hc | reflexivity]. }
  assert (E2 : Ascii.eqb "R" c = false).
  { destruct (Ascii.eqb "R" c) eqn:E; [apply Ascii.eqb_eq in E; subst c; discriminate Hc | reflexivity]. }
  cbn [has_char]. rewrite E1, E2. reflexivity.
Qed.

(** A clean fragment between blanks is kept, and stripping returns it. *)
Lemma keep_padded pre l post :
  all_space pre = true -> all_space post = true -> clean_fragment l ->
  keep_fragment (pre +++ (l +++ post)) = true /\ strip (pre +++ (l +++ post)) = l.
Proof.
  intros Hpre Hpost (Hne & Hh & Hr & _ & Herr).
  assert (Hs : strip (pre +++ (l +++ post)) = l) by (apply strip_pad; assumption).
  split; [|exact Hs]. unfold keep_fragment. rewrite Hs.
  rewrite (contains_pad_l "ERR" ERR_no_blank), (contains_pad_r "ERR" ERR_no_blank), Herr by assumption.
  destruct l; [congruence | reflexivity].
Qed.

Lemma join_cons2 sep x y r : join sep (x :: y :: r) = x +++ sep +++ join sep (y :: r).
Proof. reflexivity. Qed.

(** Splitting the joined fragments and cleaning the pieces gives the fragments back. *)
Lemma lines_of_join : forall L pre,
  Forall clean_fragment L -> L <> [] -> all_space pre = true ->
  map strip (filter keep_fragment (split_on "|" (pre +++ join " | " L))) = L.
Proof.
  induction L as [|l L IH]; intros pre HL Hne Hpre; [congruence|].
  inversion HL as [|? ? Hl HL']; subst.
  destruct L as [|l2 L].
  - simpl join. destruct (keep_padded pre l "" Hpre eq_refl Hl) as [Hk Hs].
    rewrite app_nil_r in Hk, Hs.
    rewrite split_on_nosep.
    + cbn [filter]. rewrite Hk. cbn [map]. rewrite Hs. reflexivity.
    + rewrite has_char_app, (all_space_no_bar pre Hpre). destruct Hl as (_ & _ & _ & Hb & _).
      rewrite Hb. reflexivity.
  - rewrite join_cons2.
    replace (pre +++ l +++ " | " +++ join " | " (l2 :: L))
      with ((pre +++ (l +++ " ")) +++ String "|" (" " +++ join " | " (l2 :: L)))
      by (rewrite !app_assoc; reflexivity).
    destruct (keep_padded pre l " " Hpre eq_refl Hl) as [Hk Hs].
    rewrite split_on_app.
    + cbn [filter]. rewrite Hk. cbn [map]. rewrite Hs. f_equal.
      apply (IH " "); [assumption | discriminate | reflexivity].
    + rewrite !has_char_app, (all_space_no_bar pre Hpre). destruct Hl as (_ & _ & _ & Hb & _).
      rewrite Hb. reflexivity.
Qed.

Lemma last_n_short {A} n (l : list A) : List.length l <= n -> last_n n l = l.
Proof. intros H. unfold last_n. replace (List.length l - n) with 0 by lia. reflexivity. Qed.

Lemma last_n_length {A} n (l : list A) : List.length (last_n n l) <= n.
Proof. unfold last_n. rewrite length_skipn. lia. Qed.

Lemma last_n_Forall {A} (P : A -> Prop) n l : Forall P l -> Forall P (last_n n l).
Proof.
  unfold last_n. generalize (List.length l - n). intros k; revert l.
  induction k as [|k IH]; intros l H; [exact H|].
  destruct l as [|x l]; [constructor|]. inversion H; subst. simpl. apply IH. assumption.
Qed.

Lemma filter_Forall {A} (P : A -> Prop) f (l : list A) : Forall P l -> Forall P (filter f l).
Proof.
  induction 1 as [|x l Hx Hl IH]; simpl; [constructor|].
  destruct (f x); [constructor|]; assumption.
Qed.

Lemma filter_true {A} f (l : list A) : Forall (fun x => f x = true) l -> filter f l = l.
Proof. induction 1 as [|x l Hx Hl IH]; simpl; [reflexivity|]. rewrite Hx, IH. reflexivity. Qed.

Lemma filter_holds {A} f (l : list A) : Forall (fun x => f x = true) (filter f l).
Proof.
  induction l as [|x l IH]; simpl; [constructor|].
  destruct (f x) eqn:E; [constructor|]; assumption.
Qed.

(** The lines [compress_memory] works on are clean fragments. *)
Lemma lines_clean mem :
  Forall clean_fragment (map strip (filter keep_fragment (split_on "|" mem))).
Proof.
  pose proof (split_on_pieces "|" mem) as Hp.
  induction Hp as [|p ps Hbar Hps IH]; simpl; [constructor|].
  destruct (keep_fragment p) eqn:Hk; [|exact IH].
  simpl. constructor; [|exact IH].
  unfold keep_fragment in Hk. apply andb_prop in Hk as [Hn He].
  repeat split.
  - intros E. rewrite E in Hn. discriminate.
  - apply strip_head_ok.
  - apply strip_rstrip.
  - apply has_char_strip, Hbar.
  - destruct (contains "ERR" (strip p)) eqn:Hc; [|reflexivity].
    apply contains_strip in Hc. rewrite Hc in He. discriminate.
Qed.

(** What [compress_memory] returns: at most 12 clean signal fragments, joined. *)
Lemma compress_memory_shape mem :
  exists L, compress_memory mem = join " | " L /\ List.length L <= 12 /\
            Forall clean_fragment L /\ Forall (fun l => is_signal l = true) L.
Proof.
  eexists. split; [reflexivity|]. split; [apply last_n_length|]. split.
  - apply last_n_Forall, filter_Forall, last_n_Forall, lines_clean.
  - apply last_n_Forall, filter_holds.
Qed.

(** Joined clean signal fragments, 12 at most, are a fixed point. *)
Lemma compress_memory_join L :
  List.length L <= 12 -> Forall clean_fragment L -> Forall (fun l => is_signal l = true) L ->
  compress_memory (join " | " L) = join " | " L.
Proof.
  intros Hlen Hc Hs. destruct L as [|l L]; [reflexivity|].
  unfold compress_memory.
  change (join " | " (l :: L)) with ("" +++ join " | " (l :: L)) at 1.
  rewrite lines_of_join by (try assumption; try discriminate; reflexivity).
  rewrite (last_n_short 20) by lia.
  rewrite filter_true by assumption.
  rewrite (last_n_short 12) by lia. reflexivity.
Qed.

End Compress.

(** C8. The memory compression is idempotent: compressing a compressed
    memory changes nothing, for every memory string. *)
Theorem compress_memory_idempotent (m : string) :
  compress_memory (compress_memory m) = compress_memory m.
Proof.
  destruct (Compress.compress_memory_shape m) as (L & -> & Hlen & Hc & Hs).
  apply Compress.compress_memory_join; assumption.
Qed.

(** ** The loop: reachable states and how runs end *)

Section LoopFacts.

Variable E : Env.
Variable task_text : string.
Variable about : WhoAmI.

Local Abbreviation iter := (iteration E task_text about).
Local Abbreviation run_loop := (loop E task_text about).
Local Abbreviation reach := (reachable E task_text about).
Local Abbreviation ends := (loop_end E task_text about).
Local Abbreviation merged := (merge E).
Local Abbreviation hinted := (hints E task_text).

Lemma loop_from_reachable : forall n step st,
  step + n = MAX_STEPS E -> reach step st ->
  ends (fst (run_loop n step st)) (snd (run_loop n step st)).
Proof.
  induction n as [|n IH]; intros step st Hn Hr; simpl.
  - apply end_exhausted; [|reflexivity]. replace (MAX_STEPS E) with step by lia. exact Hr.
  - destruct (iter step st) as [st'|st' f] eqn:Hi.
    + apply IH; [lia|]. eapply reach_next; eauto. lia.
    + simpl. eapply end_return; eauto. lia.
Qed.

(** A run through the loop ends as [ends] says. *)
Lemma loop_ends :
  ends (fst (run_loop (MAX_STEPS E) 0 (init_state E task_text about)))
           (snd (run_loop (MAX_STEPS E) 0 (init_state E task_text about))).
Proof. apply loop_from_reachable; [reflexivity | constructor]. Qed.


End LoopFacts.

(** *** What the parts of an iteration leave alone *)

Section Frames.

Variable E : Env.
Variable task_text : string.

Ltac split_ifs :=
  repeat match goal with
         | |- context [if ?c then _ else _] => destruct c
         | |- context [match ?c with Some _ => _ | None => _ end] => destruct c
         end.

Ltac frame_of f := intros; unfold f; cbv zeta; split_ifs; reflexivity.

Lemma merge_api_fails ns st : api_fails (merge E ns st) = api_fails st.
Proof. frame_of merge. Qed.
Lemma merge_system_broken ns st : system_broken (merge E ns st) = system_broken st.
Proof. frame_of merge. Qed.
Lemma merge_call_history ns st : call_history (merge E ns st) = call_history st.
Proof. frame_of merge. Qed.
Lemma merge_block_count ns st : block_count (merge E ns st) = block_count st.
Proof. frame_of merge. Qed.
Lemma merge_messages ns st : messages (merge E ns st) = messages st.
Proof. frame_of merge. Qed.
Lemma merge_events ns st : events (merge E ns st) = events st.
Proof. frame_of merge. Qed.
Lemma block_notes_memory req st : memory (block_notes req st) = memory st.
Proof. frame_of block_notes. Qed.
Lemma block_notes_scratch req st : scratch (block_notes req st) = scratch st.
Proof. frame_of block_notes. Qed.
Lemma block_notes_all_ids req st : all_ids (block_notes req st) = all_ids st.
Proof. frame_of block_notes. Qed.
Lemma block_notes_api_fails req st : api_fails (block_notes req st) = api_fails st.
Proof. frame_of block_notes. Qed.
Lemma block_notes_llm_fails req st : llm_fails (block_notes req st) = llm_fails st.
Proof. frame_of block_notes. Qed.
Lemma block_notes_system_broken req st : system_broken (block_notes req st) = system_broken st.
Proof. frame_of block_notes. Qed.
Lemma block_notes_call_history req st : call_history (block_notes req st) = call_history st.
Proof. frame_of block_notes. Qed.
Lemma block_notes_events req st : events (block_notes req st) = events st.
Proof. frame_of block_notes. Qed.
Lemma hints_all_ids fn res st : all_ids (hints E task_text fn res st) = all_ids st.
Proof. frame_of hints. Qed.
Lemma hints_api_fails fn res st : api_fails (hints E task_text fn res st) = api_fails st.
Proof. frame_of hints. Qed.
Lemma hints_llm_fails fn res st : llm_fails (hints E task_text fn res st) = llm_fails st.
Proof. frame_of hints. Qed.
Lemma hints_system_broken fn res st : system_broken (hints E task_text fn res st) = system_broken st.
Proof. frame_of hints. Qed.
Lemma hints_call_history fn res st : call_history (hints E task_text fn res st) = call_history st.
Proof. frame_of hints. Qed.
Lemma hints_block_count fn res st : block_count (hints E task_text fn res st) = block_count st.
Proof. frame_of hints. Qed.
Lemma hints_events fn res st : events (hints E task_text fn res st) = events st.
Proof. frame_of hints. Qed.
Lemma recorded_scratch step ns fn res st : scratch (recorded E step ns fn res st) = scratch st.
Proof. frame_of recorded. Qed.
Lemma recorded_api_fails step ns fn res st : api_fails (recorded E step ns fn res st) = api_fails st.
Proof. frame_of recorded. Qed.
Lemma recorded_llm_fails step ns fn res st : llm_fails (recorded E step ns fn res st) = llm_fails st.
Proof. frame_of recorded. Qed.
Lemma recorded_system_broken step ns fn res st : system_broken (recorded E step ns fn res st) = system_broken st.
Proof. frame_of recorded. Qed.
Lemma recorded_block_count step ns fn res st : block_count (recorded E step ns fn res st) = block_count st.
Proof. frame_of recorded. Qed.
Lemma recorded_events step ns fn res st : events (recorded E step ns fn res st) = events st.
Proof. frame_of recorded. Qed.
Lemma after_reply_scratch step st : scratch (after_reply E task_text step st) = scratch st.
Proof. frame_of after_reply. Qed.
Lemma after_reply_all_ids step st : all_ids (after_reply E task_text step st) = all_ids st.
Proof. frame_of after_reply. Qed.
Lemma after_reply_api_fails step st : api_fails (after_reply E task_text step st) = api_fails st.
Proof. frame_of after_reply. Qed.
Lemma after_reply_llm_fails step st : llm_fails (after_reply E task_text step st) = llm_fails st.
Proof. frame_of after_reply. Qed.
Lemma after_reply_system_broken step st : system_broken (after_reply E task_text step st) = system_broken st.
Proof. frame_of after_reply. Qed.
Lemma after_reply_call_history step st : call_history (after_reply E task_text step st) = call_history st.
Proof. frame_of after_reply. Qed.
Lemma after_reply_block_count step st : block_count (after_reply E task_text step st) = block_count st.
Proof. frame_of after_reply. Qed.
Lemma after_reply_messages step st : messages (after_reply E task_text step st) = messages st.
Proof. frame_of after_reply. Qed.
Lemma note_api_error_scratch err st : scratch (note_api_error err st) = scratch st.
Proof. frame_of note_api_error. Qed.
Lemma note_api_error_all_ids err st : all_ids (note_api_error err st) = all_ids st.
Proof. frame_of note_api_error. Qed.
Lemma note_api_error_api_fails err st : api_fails (note_api_error err st) = api_fails st.
Proof. frame_of note_api_error. Qed.
Lemma note_api_error_llm_fails err st : llm_fails (note_api_error err st) = llm_fails st.
Proof. frame_of note_api_error. Qed.
Lemma note_api_error_system_broken err st : system_broken (note_api_error err st) = system_broken st.
Proof. frame_of note_api_error. Qed.
Lemma note_api_error_call_history err st : call_history (note_api_error err st) = call_history st.
Proof. frame_of note_api_error. Qed.
Lemma note_api_error_block_count err st : block_count (note_api_error err st) = block_count st.
Proof. frame_of note_api_error. Qed.
Lemma note_api_error_messages err st : messages (note_api_error err st) = messages st.
Proof. frame_of note_api_error. Qed.
Lemma note_api_error_events err st : events (note_api_error err st) = events st.
Proof. frame_of note_api_error. Qed.
Lemma note_fault_scratch step err st : scratch (note_fault step err st) = scratch st.
Proof. frame_of note_fault. Qed.
Lemma note_fault_all_ids step err st : all_ids (note_fault step err st) = all_ids st.
Proof. frame_of note_fault. Qed.
Lemma note_fault_api_fails step err st : api_fails (note_fault step err st) = api_fails st.
Proof. frame_of note_fault. Qed.
Lemma note_fault_llm_fails step err st : llm_fails (note_fault step err st) = llm_fails st.
Proof. frame_of note_fault. Qed.
Lemma note_fault_system_broken step err st : system_broken (note_fault step err st) = system_broken st.
Proof. frame_of note_fault. Qed.
Lemma note_fault_call_history step err st : call_history (note_fault step err st) = call_history st.
Proof. frame_of note_fault. Qed.
Lemma note_fault_block_count step err st : block_count (note_fault step err st) = block_count st.
Proof. frame_of note_fault. Qed.
Lemma note_fault_events step err st : events (note_fault step err st) = events st.
Proof. frame_of note_fault. Qed.
Lemma push_msg_memory m st : memory (push_msg m st) = memory st.
Proof. frame_of push_msg. Qed.
Lemma push_msg_scratch m st : scratch (push_msg m st) = scratch st.
Proof. frame_of push_msg. Qed.
Lemma push_msg_all_ids m st : all_ids (push_msg m st) = all_ids st.
Proof. frame_of push_msg. Qed.
Lemma push_msg_api_fails m st : api_fails (push_msg m st) = api_fails st.
Proof. frame_of push_msg. Qed.
Lemma push_msg_llm_fails m st : llm_fails (push_msg m st) = llm_fails st.
Proof. frame_of push_msg. Qed.
Lemma push_msg_system_broken m st : system_broken (push_msg m st) = system_broken st.
Proof. frame_of push_msg. Qed.
Lemma push_msg_call_history m st : call_history (push_msg m st) = call_history st.
Proof. frame_of push_msg. Qed.
Lemma push_msg_block_count m st : block_count (push_msg m st) = block_count st.
Proof. frame_of push_msg. Qed.
Lemma push_msg_events m st : events (push_msg m st) = events st.
Proof. frame_of push_msg. Qed.

Lemma merge_llm_fails ns st : llm_fails (merge E ns st) = 0.
Proof. frame_of merge. Qed.

Lemma after_reply_events step st :
  events (after_reply E task_text step st) = EvLLM (ask E task_text step (compressed st)) :: events st.
Proof. reflexivity. Qed.

Lemma after_reply_memory step st :
  memory (after_reply E task_text step st) = compress_memory (memory st).
Proof. reflexivity. Qed.

Lemma block_notes_block_count req st : block_count (block_notes req st) = block_count st + 1.
Proof. frame_of block_notes. Qed.

Lemma recorded_call_history step ns fn res st :
  call_history (recorded E step ns fn res st) = call_history st ++ [call_key fn].
Proof. frame_of recorded. Qed.

End Frames.

Create Rewrite HintDb frame.

#[global] Hint Rewrite
  merge_api_fails merge_system_broken merge_call_history merge_block_count merge_messages merge_events block_notes_memory block_notes_scratch block_notes_all_ids block_notes_api_fails block_notes_llm_fails block_notes_system_broken block_notes_call_history block_notes_events hints_all_ids hints_api_fails hints_llm_fails hints_system_broken hints_call_history hints_block_count hints_events recorded_scratch recorded_api_fails recorded_llm_fails recorded_system_broken recorded_block_count recorded_events after_reply_scratch after_reply_all_ids after_reply_api_fails after_reply_llm_fails after_reply_system_broken after_reply_call_history after_reply_block_count after_reply_messages note_api_error_scratch note_api_error_all_ids note_api_error_api_fails note_api_error_llm_fails note_api_error_system_broken note_api_error_call_history note_api_error_block_count note_api_error_messages note_api_error_events note_fault_scratch note_fault_all_ids note_fault_api_fails note_fault_llm_fails note_fault_system_broken note_fault_call_history note_fault_block_count note_fault_events push_msg_memory push_msg_scratch push_msg_all_ids push_msg_api_fails push_msg_llm_fails push_msg_system_broken push_msg_call_history push_msg_block_count push_msg_events merge_llm_fails after_reply_events after_reply_memory block_notes_block_count recorded_call_history
  : frame.

(** *** One iteration, case by case *)

Section CaseAnalysis.

Variable E : Env.
Variable task_text : string.
Variable about : WhoAmI.

Lemma is_outcome_true o x : is_outcome o x = true <-> x = o.
Proof. unfold is_outcome. destruct (Outcome_eq_dec x o); split; congruence. Qed.

Lemma after_dispatch_cases step ns fn std :
  Replied E task_text step ns fn std
    (after_dispatch E task_text step ns fn (do_dispatch E fn std)).
Proof.
  unfold after_dispatch, do_dispatch. cbn [fst snd].
  destruct (dispatch E (now std) fn) as [res|err|err] eqn:Hd.
  - destruct (is_kind Req_ProvideAgentResponse fn) eqn:Hk.
    + eapply replied_final; eauto.
    + unfold record_call. destruct (done ns) eqn:Hdone.
      * eapply replied_done; eauto.
      * eapply replied_recorded; eauto.
  - unfold on_api_exception. destruct (_classify_error err) eqn:Hc.
    + eapply replied_permission; eauto.
    + exact (replied_system E task_text step ns fn std err Hd Hc).
    + destruct (is_kind Req_UpdateProjectStatus fn || is_kind Req_UpdateProjectTeam fn) eqn:Hm.
      * eapply replied_not_found_mutation; eauto.
      * eapply replied_error; eauto; congruence.
    + eapply replied_error; eauto; congruence.
  - unfold on_fault. eapply replied_fault; eauto.
Qed.

(** Every iteration goes one of the ways of [Iterated]. *)
Lemma iteration_cases step st :
  Iterated E task_text about step st (iteration E task_text about step st).
Proof.
  unfold iteration. destruct (3 <=? api_fails st) eqn:Hg; [apply it_unavailable, Hg|].
  cbv zeta. destruct (ask E task_text step (compressed st)) as [ns|] eqn:Hr.
  - unfold execute_tool. cbv zeta.
    destruct (find_hallucinated (clamp_limit (function ns))) as [val|] eqn:Hh.
    + replace (log_event (EvLLM (Some ns)) (compressed st)) with (after_reply E task_text step st)
        by (unfold after_reply; rewrite Hr; reflexivity).
      eapply it_hallucinated; eauto.
    + replace (log_event (EvLLM (Some ns)) (compressed st)) with (after_reply E task_text step st)
        by (unfold after_reply; rewrite Hr; reflexivity).
      set (stm := merge E ns (after_reply E task_text step st)).
      assert (Hsb : system_broken stm = system_broken st).
      { unfold stm. rewrite merge_system_broken. reflexivity. }
      assert (Hch : call_history stm = call_history st).
      { unfold stm. rewrite merge_call_history. reflexivity. }
      destruct (is_kind Req_ProvideAgentResponse (proposal about ns)) eqn:Hk.
      * unfold finalize. cbv zeta.
        destruct (is_outcome ok_answer (a_outcome (proposal about ns)) && negb (system_broken stm))
          eqn:Hga.
        -- apply andb_prop in Hga as [Ho Hb]. apply is_outcome_true in Ho.
           apply negb_true_iff in Hb.
           unfold completion_guard.
           destruct (required_call task_text (call_history stm)) as [req|] eqn:Hreq.
           ++ cbv zeta.
              destruct (Z.of_nat step <? Z.of_nat (MAX_STEPS E) - 5)%Z eqn:Hs.
              ** eapply it_blocked; eauto; congruence.
              ** eapply it_dispatched; eauto; [|apply after_dispatch_cases].
                 rewrite Ho. eapply sent_waived; eauto.
           ++ eapply it_dispatched; eauto; [|apply after_dispatch_cases].
              rewrite Ho. eapply sent_allowed; eauto.
        -- eapply it_dispatched; eauto; [|apply after_dispatch_cases].
           eapply sent_unguarded; eauto.
      * eapply it_dispatched; eauto; [|apply after_dispatch_cases].
        eapply sent_request; eauto.
  - unfold on_llm_failure. cbv zeta.
    replace (log_event (EvLLM None) (compressed st)) with (after_reply E task_text step st)
      by (unfold after_reply; rewrite Hr; reflexivity).
    change (llm_fails (set_llm_fails (llm_fails (after_reply E task_text step st) + 1)
                         (after_reply E task_text step st)))
      with (llm_fails st + 1).
    change (llm_fails (after_reply E task_text step st)) with (llm_fails st).
    destruct (3 <=? llm_fails st + 1) eqn:Hl.
    + apply Nat.leb_le in Hl. eapply it_llm_stop; eauto.
    + apply Nat.leb_gt in Hl. eapply it_llm_retry; eauto.
Qed.

End CaseAnalysis.

(** ** Invariants of the loop *)

Ltac frames1 :=
  autorewrite with frame;
  cbn [memory scratch all_ids api_fails llm_fails system_broken call_history block_count
       messages events set_memory set_scratch set_all_ids set_api_fails set_llm_fails
       set_system_broken set_call_history set_block_count set_messages set_events
       log_event push_msg note_api_error note_fault
       f_outcome f_message f_links f_exit f_step fst snd].

(** Computes the fields of the states that the cases of an iteration build. *)
Ltac frames := frames1; frames1; frames1.

Section Invariants.

Variable E : Env.
Variable task_text : string.
Variable about : WhoAmI.

Local Abbreviation iter := (iteration E task_text about).
Local Abbreviation reach := (reachable E task_text about).

(** The state a request is sent from differs from the merged state only
    by the notes and the counter of the completion guard. *)
Lemma Sent_frame step ns stm std fn :
  Sent E task_text about step ns stm std fn ->
  memory std = memory stm /\ scratch std = scratch stm /\ all_ids std = all_ids stm /\
  api_fails std = api_fails stm /\ llm_fails std = llm_fails stm /\
  system_broken std = system_broken stm /\ call_history std = call_history stm /\
  events std = events stm.
Proof. intros []; frames; repeat split; reflexivity. Qed.

End Invariants.

(** The frame of a sent request, as hypotheses. *)
Ltac sent_frame :=
  match goal with
  | Hs : Sent _ _ _ _ _ _ _ _ |- _ =>
      let Hm := fresh "Hmem" in let Hsc := fresh "Hscr" in let Hid := fresh "Hids" in
      let Haf := fresh "Hapf" in let Hlf := fresh "Hllf" in let Hsb := fresh "Hbrk" in
      let Hch := fresh "Hhist" in let Hev := fresh "Hevs" in
      destruct (Sent_frame _ _ _ _ _ _ _ _ Hs) as (Hm & Hsc & Hid & Haf & Hlf & Hsb & Hch & Hev)
  end.

(** Case analysis on how the API replied. *)
Ltac replied_cases :=
  match goal with
  | Hrep : Replied _ _ _ _ _ _ _ |- _ => inversion Hrep; subst
  end.

Section Invariants2.

Variable E : Env.
Variable task_text : string.
Variable about : WhoAmI.

Local Abbreviation iter := (iteration E task_text about).
Local Abbreviation reach := (reachable E task_text about).

(** Case analysis of an iteration that is known to continue, or to return. *)
Lemma iter_continue step st st' :
  iter step st = Continue st' -> Iterated E task_text about step st (Continue st').
Proof. intros <-. apply iteration_cases. Qed.

Lemma iter_return step st st' f :
  iter step st = Return st' f -> Iterated E task_text about step st (Return st' f).
Proof. intros <-. apply iteration_cases. Qed.

(** An iteration that continues leaves the failure counter of the API and
    the broken flag as they were. *)
Lemma continue_api_fails step st st' :
  iter step st = Continue st' ->
  api_fails st' = api_fails st /\ system_broken st' = system_broken st.
Proof.
  intros H. apply iter_continue in H.
  inversion H as [| | | ns val | ns req | ns std fn r ? ? ? Hs Hr]; subst; frames; auto.
  sent_frame. replied_cases; frames; rewrite ?Hapf, ?Hbrk; frames; auto.
Qed.

Lemma reachable_api_fails step st :
  reach step st -> api_fails st = 0 /\ system_broken st = false.
Proof.
  induction 1 as [|step st st' _ [IHa IHb] _ Hi]; [split; reflexivity|].
  apply continue_api_fails in Hi. destruct Hi as [-> ->]. auto.
Qed.

End Invariants2.

Section Runs.

Variable E : Env.
Variable task_text : string.
Variable about : WhoAmI.

Local Abbreviation iter := (iteration E task_text about).
Local Abbreviation reach := (reachable E task_text about).
Local Abbreviation run := (run_task E task_text about).

(** A run ends before the loop, on one of the five pattern-guard exits and
    with no variable of the loop touched, or it ends as the loop does. *)
Lemma run_task_ends :
  (fst run = empty_state /\
   (f_exit (snd run) = exit_guest_date \/ f_outcome (snd run) <> ok_answer) /\
   In (f_exit (snd run))
      [exit_guest_denied; exit_guest_date; exit_deny; exit_unsupported; exit_clarification])
  \/ loop_end E task_text about (fst run) (snd run).
Proof.
  unfold run_task.
  destruct (is_public about
            && negb (any_in ["date"; "today"; "current date"; "what day"; "what time"]
                       (task_lower task_text))).
  { left. cbn. repeat split; auto. right. discriminate. }
  destruct (is_public about
            && any_in ["date"; "today"; "current date"; "what day"] (task_lower task_text)).
  { left. cbn. repeat split; auto. }
  destruct (_match_pattern task_text DENY_PATTERNS).
  { left. cbn. repeat split; auto. right. discriminate. }
  destruct (_match_pattern task_text UNSUPPORTED_PATTERNS).
  { left. cbn. repeat split; auto 6. right. discriminate. }
  destruct (existsb _ VAGUE_PATTERNS).
  { left. cbn. repeat split; auto 6. right. discriminate. }
  right. apply loop_ends.
Qed.

End Runs.

(** C10. In every state the loop reaches, the counter of system failures
    of the API is at most 1 (it is 0 at the head of every iteration), so the
    guard at the head of the iteration, which ends the task when the
    counter is 3 or more, is never taken; the state in which an iteration
    returns has the counter at 1 at most, and no run ends by that guard. *)
Theorem api_fails_at_most_one (E : Env) (task_text : string) (about : WhoAmI) :
  (forall step st, reachable E task_text about step st ->
     api_fails st <= 1 /\ (3 <=? api_fails st) = false /\
     forall st' f, iteration E task_text about step st = Return st' f ->
                   api_fails st' <= 1 /\ f_exit f <> exit_system_unavailable)
  /\ api_fails (fst (run_task E task_text about)) <= 1
  /\ f_exit (snd (run_task E task_text about)) <> exit_system_unavailable.
Proof.
  assert (Hreach : forall step st, reachable E task_text about step st ->
     api_fails st <= 1 /\ (3 <=? api_fails st) = false /\
     forall st' f, iteration E task_text about step st = Return st' f ->
                   api_fails st' <= 1 /\ f_exit f <> exit_system_unavailable).
  { intros step st Hr. destruct (reachable_api_fails _ _ _ _ _ Hr) as [Ha Hb].
    rewrite Ha. split; [lia|]. split; [reflexivity|].
    intros st1 f1 Hi. apply iter_return in Hi. split.
    - inversion Hi; subst; frames; rewrite ?Ha; try lia; try (rewrite Ha in *; discriminate).
      sent_frame. replied_cases; frames; rewrite ?Hapf; frames; rewrite ?Ha; lia.
    - inversion Hi; subst; try discriminate; try (rewrite Ha in *; discriminate).
      replied_cases; discriminate. }
  split; [exact Hreach|].
  destruct (run_task_ends E task_text about) as [(Hst & _ & Hex)|He].
  - rewrite Hst. split; [cbn; lia|].
    intros Hx. rewrite Hx in Hex. cbn in Hex. intuition discriminate.
  - destruct He as [Hr Hf|step st0 Hr Hlt Hi].
    + destruct (Hreach _ _ Hr) as (H1 & _). split; [exact H1|]. rewrite Hf.
      unfold exhausted. repeat match goal with |- context [if ?c then _ else _] => destruct c end;
        discriminate.
    + destruct (Hreach _ _ Hr) as (_ & _ & H3). exact (H3 _ _ Hi).
Qed.

(** ** What is sent to the API *)

Section Requests.

Variable about : WhoAmI.

Lemma respond_with_same fn : respond_with (a_outcome fn) (a_message fn) (a_links fn) fn = fn.
Proof. destruct fn; reflexivity. Qed.

Lemma respond_with_twice o m l o' m' l' fn :
  respond_with o' m' l' (respond_with o m l fn) = respond_with o' m' l' fn.
Proof. reflexivity. Qed.

Lemma set_a_outcome_respond o fn : set_a_outcome o fn = respond_with o (a_message fn) (a_links fn) fn.
Proof. destruct fn; reflexivity. Qed.

Lemma set_a_message_respond m fn : set_a_message m fn = respond_with (a_outcome fn) m (a_links fn) fn.
Proof. destruct fn; reflexivity. Qed.

Lemma set_a_links_respond l fn : set_a_links l fn = respond_with (a_outcome fn) (a_message fn) l fn.
Proof. destruct fn; reflexivity. Qed.

(** The rewritings of a final response only touch outcome, message and links. *)
Lemma surface_respond fn : exists o m l, surface fn = respond_with o m l fn.
Proof.
  unfold surface. destruct (is_outcome ok_not_found (a_outcome fn)).
  - rewrite set_a_outcome_respond. eauto.
  - exists (a_outcome fn), (a_message fn), (a_links fn). symmetry. apply respond_with_same.
Qed.

Lemma status_rewrite_respond task_text fn st :
  exists o m l, status_rewrite task_text fn st = respond_with o m l fn.
Proof.
  unfold status_rewrite. destruct (_ && _).
  - rewrite set_a_message_respond, set_a_outcome_respond, respond_with_twice. eauto.
  - exists (a_outcome fn), (a_message fn), (a_links fn). symmetry. apply respond_with_same.
Qed.

Lemma drop_links_respond o st fn : exists o' m l, drop_links o st fn = respond_with o' m l fn.
Proof.
  unfold drop_links. destruct (_ || _).
  - rewrite set_a_links_respond. eauto.
  - exists (a_outcome fn), (a_message fn), (a_links fn). symmetry. apply respond_with_same.
Qed.

Lemma Sent_sent_for E task_text step ns stm std fn :
  find_hallucinated (clamp_limit (function ns)) = None ->
  Sent E task_text about step ns stm std fn -> sent_for about ns fn.
Proof.
  intros Hh Hs. split; [exact Hh|].
  destruct Hs.
  - exists (a_outcome (proposal about ns)), (a_message (proposal about ns)),
      (a_links (proposal about ns)). symmetry. apply respond_with_same.
  - destruct (surface_respond (proposal about ns)) as (o & m & l & ->).
    destruct (drop_links_respond (a_outcome (proposal about ns)) stm
                (respond_with o m l (proposal about ns))) as (o1 & m1 & l1 & ->).
    rewrite respond_with_twice. eauto.
  - destruct (surface_respond (proposal about ns)) as (o & m & l & ->).
    destruct (status_rewrite_respond task_text (respond_with o m l (proposal about ns)) stm)
      as (o1 & m1 & l1 & ->).
    destruct (drop_links_respond ok_answer stm
                (respond_with o1 m1 l1 (respond_with o m l (proposal about ns))))
      as (o2 & m2 & l2 & ->).
    rewrite !respond_with_twice. eauto.
  - destruct (surface_respond (proposal about ns)) as (o & m & l & ->).
    destruct (status_rewrite_respond task_text (respond_with o m l (proposal about ns))
                (block_notes required stm)) as (o1 & m1 & l1 & ->).
    destruct (drop_links_respond ok_answer (block_notes required stm)
                (respond_with o1 m1 l1 (respond_with o m l (proposal about ns))))
      as (o2 & m2 & l2 & ->).
    rewrite !respond_with_twice. eauto.
Qed.

(** Validation and enrichment, attribute by attribute. *)
Lemma clamp_limit_spec fn :
  a_limit (clamp_limit fn) =
  match a_limit fn with
  | Some l => Some (if (5 <? l)%Z then 5%Z else l)
  | None => None
  end.
Proof.
  unfold clamp_limit. destruct (a_limit fn) as [l|] eqn:Hl; [|exact Hl].
  destruct (5 <? l)%Z eqn:H5.
  - assert ((l =? 0)%Z = false) as -> by lia. reflexivity.
  - rewrite andb_false_r. exact Hl.
Qed.

Lemma clamp_limit_kind fn : a_kind (clamp_limit fn) = a_kind fn.
Proof. unfold clamp_limit. destruct (a_limit fn) as [l|]; [destruct (_ && _)|]; reflexivity. Qed.

Lemma clamp_limit_id_params fn : id_params (clamp_limit fn) = id_params fn.
Proof. unfold clamp_limit. destruct (a_limit fn) as [l|]; [destruct (_ && _)|]; reflexivity. Qed.

Lemma clamp_limit_outcome fn : a_outcome (clamp_limit fn) = a_outcome fn.
Proof. unfold clamp_limit. destruct (a_limit fn) as [l|]; [destruct (_ && _)|]; reflexivity. Qed.

Lemma is_kind_true k fn : is_kind k fn = true <-> a_kind fn = k.
Proof. unfold is_kind. destruct (Kind_eq_dec (a_kind fn) k); split; congruence. Qed.

Lemma is_kind_false k fn : is_kind k fn = false <-> a_kind fn <> k.
Proof. unfold is_kind. destruct (Kind_eq_dec (a_kind fn) k); split; congruence. Qed.

Ltac stage_cases :=
  unfold enrich_time_entry, enrich_skill_filter, enrich_update, is_kind;
  repeat match goal with
         | |- context [Kind_eq_dec ?a ?b] => destruct (Kind_eq_dec a b)
         | |- context [match a_skills ?fn with _ => _ end] => destruct (a_skills fn) as [[|? ?]|]
         end.

Lemma enrich_time_entry_same fn :
  a_kind (enrich_time_entry about fn) = a_kind fn
  /\ a_limit (enrich_time_entry about fn) = a_limit fn
  /\ id_params (enrich_time_entry about fn) = id_params fn
  /\ a_outcome (enrich_time_entry about fn) = a_outcome fn.
Proof. stage_cases; repeat split; reflexivity. Qed.

Lemma enrich_skill_filter_same fn :
  a_kind (enrich_skill_filter fn) = a_kind fn
  /\ a_limit (enrich_skill_filter fn) = a_limit fn
  /\ id_params (enrich_skill_filter fn) = id_params fn
  /\ a_outcome (enrich_skill_filter fn) = a_outcome fn.
Proof. stage_cases; repeat split; reflexivity. Qed.

Lemma enrich_update_kind fn : a_kind (enrich_update about fn) = a_kind fn.
Proof.
  unfold enrich_update. destruct (is_kind Req_UpdateEmployeeInfo fn) eqn:Hk; [|reflexivity].
  apply is_kind_true in Hk. symmetry. exact Hk.
Qed.

Lemma enrich_kind fn : a_kind (enrich about fn) = a_kind fn.
Proof.
  unfold enrich. rewrite enrich_update_kind.
  rewrite (proj1 (enrich_skill_filter_same _)). apply enrich_time_entry_same.
Qed.

Lemma enrich_limit fn :
  a_limit (enrich about fn) = if is_kind Req_UpdateEmployeeInfo fn then None else a_limit fn.
Proof.
  unfold enrich.
  destruct (enrich_time_entry_same fn) as (H1 & L1 & _).
  destruct (enrich_skill_filter_same (enrich_time_entry about fn)) as (H2 & L2 & _).
  unfold enrich_update. unfold is_kind. rewrite H2, H1.
  destruct (Kind_eq_dec (a_kind fn) Req_UpdateEmployeeInfo); [reflexivity|].
  rewrite L2, L1. reflexivity.
Qed.

Lemma enrich_outcome fn :
  a_kind fn = Req_ProvideAgentResponse -> a_outcome (enrich about fn) = a_outcome fn.
Proof.
  intros Hk. unfold enrich.
  destruct (enrich_time_entry_same fn) as (H1 & _ & _ & O1).
  destruct (enrich_skill_filter_same (enrich_time_entry about fn)) as (H2 & _ & _ & O2).
  unfold enrich_update. unfold is_kind. rewrite H2, H1, Hk.
  destruct (Kind_eq_dec Req_ProvideAgentResponse Req_UpdateEmployeeInfo); [discriminate|].
  rewrite O2, O1. reflexivity.
Qed.

(** Enrichment invents no identifier. *)
Lemma enrich_id_params fn v :
  In v (id_params (enrich about fn)) -> v = None \/ In v (id_params fn).
Proof.
  unfold enrich.
  destruct (enrich_time_entry_same fn) as (_ & _ & I1 & _).
  destruct (enrich_skill_filter_same (enrich_time_entry about fn)) as (_ & _ & I2 & _).
  unfold enrich_update.
  destruct (is_kind Req_UpdateEmployeeInfo _).
  - intros Hin. cbn in Hin. rewrite <- I1, <- I2. cbn. intuition auto.
  - rewrite I2, I1. auto.
Qed.

Lemma find_hallucinated_none fn v :
  find_hallucinated fn = None -> In v (id_params fn) -> is_hallucinated v = false.
Proof.
  unfold find_hallucinated. intros Hf Hin.
  destruct (find is_hallucinated (id_params fn)) as [[s|]|] eqn:Hfind; [discriminate| |].
  - apply find_some in Hfind. destruct Hfind as [_ Hbad]. discriminate Hbad.
  - destruct (is_hallucinated v) eqn:Hv; [|reflexivity].
    exfalso. exact (eq_true_false_abs _ Hv (find_none _ _ Hfind _ Hin)).
Qed.

Lemma find_hallucinated_some fn :
  (exists v, In v (id_params fn) /\ is_hallucinated v = true) ->
  exists val, find_hallucinated fn = Some val /\ In (Some val) (id_params fn) /\
              _looks_hallucinated val = true.
Proof.
  intros (v & Hin & Hv). unfold find_hallucinated.
  destruct (find is_hallucinated (id_params fn)) as [[s|]|] eqn:Hfind.
  - apply find_some in Hfind. destruct Hfind as [Hin' Hs]. exists s. repeat split; auto.
    cbn in Hs. apply andb_prop in Hs. tauto.
  - apply find_some in Hfind. destruct Hfind as [_ Hbad]. discriminate Hbad.
  - exfalso. exact (eq_true_false_abs _ Hv (find_none _ _ Hfind _ Hin)).
Qed.

(** What a well-formed log says of a dispatched request. *)
Lemma log_ok_dispatch evs a r :
  log_ok about evs -> In (EvDispatch a r) evs ->
  exists ns, In (EvLLM (Some ns)) evs /\ sent_for about ns a.
Proof.
  induction evs as [|e evs IH]; [intros _ []|].
  intros Hok [He|Hin].
  - subst e. cbn in Hok. destruct Hok as [Hs _].
    destruct evs as [|[u|[ns|]|a' r'] evs']; try contradiction.
    exists ns. split; [right; left; reflexivity | exact Hs].
  - assert (Hok' : log_ok about evs) by (destruct e; cbn in Hok; tauto).
    destruct (IH Hok' Hin) as (ns & Hns & Hs). exists ns. split; [right; exact Hns | exact Hs].
Qed.

(** A request that was sent for [ns]: its class, page size and identifiers. *)
Lemma sent_for_facts ns a :
  sent_for about ns a ->
  a_kind a = a_kind (function ns)
  /\ (a_kind a <> Req_UpdateEmployeeInfo ->
      a_limit a = match a_limit (function ns) with
                  | Some l => Some (if (5 <? l)%Z then 5%Z else l)
                  | None => None
                  end)
  /\ (forall l, a_limit a = Some l -> (l <= 5)%Z)
  /\ (forall v, In v (id_params a) -> is_hallucinated v = false).
Proof.
  intros (Hh & o & m & l & ->). unfold proposal.
  assert (Hk : a_kind (respond_with o m l (enrich about (clamp_limit (function ns))))
               = a_kind (function ns)).
  { change (a_kind (respond_with o m l ?x)) with (a_kind x).
    rewrite enrich_kind, clamp_limit_kind. reflexivity. }
  assert (Hl : a_limit (respond_with o m l (enrich about (clamp_limit (function ns))))
               = if is_kind Req_UpdateEmployeeInfo (function ns) then None
                 else match a_limit (function ns) with
                      | Some l => Some (if (5 <? l)%Z then 5%Z else l)
                      | None => None
                      end).
  { change (a_limit (respond_with o m l ?x)) with (a_limit x).
    rewrite enrich_limit, clamp_limit_spec.
    unfold is_kind. rewrite clamp_limit_kind. reflexivity. }
  split; [exact Hk|]. split; [|split].
  - intros Hne. rewrite Hl. rewrite Hk in Hne.
    apply is_kind_false in Hne. rewrite Hne. reflexivity.
  - intros l0. rewrite Hl. destruct (is_kind _ _); [discriminate|].
    destruct (a_limit (function ns)) as [l1|]; [|discriminate].
    intros [= <-]. destruct (5 <? l1)%Z eqn:H5; lia.
  - intros v Hin. change (id_params (respond_with o m l ?x)) with (id_params x) in Hin.
    apply enrich_id_params in Hin. destruct Hin as [->|Hin]; [reflexivity|].
    rewrite clamp_limit_id_params in Hin.
    apply (find_hallucinated_none (clamp_limit (function ns))); [exact Hh|].
    rewrite clamp_limit_id_params. exact Hin.
Qed.

End Requests.

(** ** Regular expressions: the matcher finds every word of the pattern *)

Module ReFacts.
Import Re StrFacts.

Lemma append_empty a b : a +++ b = "" -> a = "" /\ b = "".
Proof. destruct a; [auto | discriminate]. Qed.

Lemma append_cons a b c s :
  a +++ b = String c s -> (a = "" /\ b = String c s) \/ (exists a', a = String c a' /\ s = a' +++ b).
Proof.
  destruct a as [|x a]; [left; auto|].
  cbn. intros [= -> <-]. right. eauto.
Qed.

Lemma lang_nullable r s : lang r s -> s = "" -> nullable r = true.
Proof.
  induction 1 as [|p c Hp|r1 r2 s1 s2 H1 IH1 H2 IH2|r1 r2 s H IH|r1 r2 s H IH|r|r s1 s2 H1 IH1 H2 IH2];
    intros Hs; cbn; auto; try discriminate.
  - apply append_empty in Hs as [E1 E2]. rewrite IH1, IH2; auto.
  - rewrite IH; auto.
  - rewrite IH; auto. apply orb_true_r.
Qed.

Lemma lang_Void s : ~ lang Void s.
Proof. intros H. inversion H. Qed.

Lemma lang_seq r1 r2 s1 s2 : lang r1 s1 -> lang r2 s2 -> lang (seq r1 r2) (s1 +++ s2).
Proof.
  intros H1 H2. unfold seq.
  destruct r1; try (exfalso; exact (lang_Void _ H1));
    destruct r2; try (exfalso; exact (lang_Void _ H2));
    try (constructor; assumption);
    inversion H1; subst; exact H2.
Qed.

Lemma lang_alt_l r1 r2 s : lang r1 s -> lang (alt r1 r2) s.
Proof.
  intros H. unfold alt.
  destruct r1; try (exfalso; exact (lang_Void _ H)); destruct r2;
    try exact H; apply L_AltL; exact H.
Qed.

Lemma lang_alt_r r1 r2 s : lang r2 s -> lang (alt r1 r2) s.
Proof.
  intros H. unfold alt.
  destruct r1; destruct r2; try (exfalso; exact (lang_Void _ H));
    try exact H; apply L_AltR; exact H.
Qed.

Lemma lang_deriv r s0 : lang r s0 -> forall c s, s0 = String c s -> lang (deriv c r) s.
Proof.
  induction 1 as [|p c' Hp|r1 r2 s1 s2 H1 IH1 H2 IH2|r1 r2 s' H IH|r1 r2 s' H IH|r|r s1 s2 H1 IH1 H2 IH2];
    intros c s Hs; cbn [deriv].
  - discriminate.
  - injection Hs as -> <-. rewrite Hp. constructor.
  - apply append_cons in Hs as [[-> ->]|(a' & -> & ->)].
    + rewrite (lang_nullable _ _ H1 eq_refl). apply lang_alt_r. apply IH2. reflexivity.
    + assert (Hl : lang (seq (deriv c r1) r2) (a' +++ s2))
        by (apply lang_seq; [apply IH1; reflexivity | exact H2]).
      destruct (nullable r1); [apply lang_alt_l|]; exact Hl.
  - apply lang_alt_l. apply IH. exact Hs.
  - apply lang_alt_r. apply IH. exact Hs.
  - discriminate.
  - apply append_cons in Hs as [[-> ->]|(a' & -> & ->)].
    + apply IH2. reflexivity.
    + apply lang_seq; [apply IH1; reflexivity | exact H2].
Qed.

(** Completeness of the matcher. *)
Lemma fullmatch_complete : forall s r, lang r s -> fullmatch r s = true.
Proof.
  induction s as [|c s IH]; intros r H; cbn.
  - exact (lang_nullable _ _ H eq_refl).
  - apply IH. exact (lang_deriv _ _ H _ _ eq_refl).
Qed.

Lemma lang_Lit s : lang (Lit s) s.
Proof.
  induction s as [|c s IH]; cbn; [constructor|].
  change (String c s) with (String c "" +++ s). constructor; [|exact IH].
  constructor. apply Ascii.eqb_refl.
Qed.

Lemma lang_Star_class p s : all_chars p s = true -> lang (Star (Class p)) s.
Proof.
  induction s as [|c s IH]; cbn; [constructor|].
  intros H. apply andb_prop in H as [Hc Hs].
  change (String c s) with (String c "" +++ s). constructor; [constructor; exact Hc | auto].
Qed.

Lemma lang_Plus_class p s :
  all_chars p s = true -> 1 <= String.length s -> lang (Plus (Class p)) s.
Proof.
  destruct s as [|c s]; cbn; [lia|].
  intros H _. apply andb_prop in H as [Hc Hs].
  change (String c s) with (String c "" +++ s). constructor;
    [constructor; exact Hc | apply lang_Star_class; exact Hs].
Qed.

Lemma lang_UpTo_class p : forall n s,
  all_chars p s = true -> String.length s <= n -> lang (UpTo n (Class p)) s.
Proof.
  induction n as [|n IH]; intros s Hs Hn.
  - destruct s; [constructor | cbn in Hn; lia].
  - destruct s as [|c s]; cbn [UpTo]; unfold Opt; [apply L_AltR; constructor|].
    apply L_AltL. cbn in Hs. apply andb_prop in Hs as [Hc Hs'].
    change (String c s) with (String c "" +++ s).
    constructor; [constructor; exact Hc | apply IH; [exact Hs' | cbn in Hn; lia]].
Qed.

(** [p{1,n}] for [n >= 1]. *)
Lemma lang_Between_1 p n s :
  all_chars p s = true -> 1 <= String.length s <= n -> lang (Between 1 n (Class p)) s.
Proof.
  destruct s as [|c s]; cbn; [lia|].
  intros H Hn. apply andb_prop in H as [Hc Hs]. unfold Between. cbn [Rep].
  change (String c s) with ((String c "" +++ "") +++ s).
  constructor.
  - constructor; [constructor; exact Hc | constructor].
  - apply lang_UpTo_class; [exact Hs | lia].
Qed.

Lemma match_anchored_complete r s : lang r s -> match_anchored r s = true.
Proof.
  intros H. unfold match_anchored. apply fullmatch_complete.
  rewrite <- (app_nil_r s). constructor; [exact H|]. apply L_AltR. constructor.
Qed.

End ReFacts.

(** The heuristic of the code catches every identifier that the
    specification calls fabricated. *)
Lemma fabricated_looks_hallucinated s : fabricated_id s -> _looks_hallucinated s = true.
Proof.
  intros [(p & ds & Hp & -> & Hlen & Hd)|(ls & -> & Hlen & Hl)]; unfold _looks_hallucinated.
  - assert (Hne : Str.nonempty (p +++ "_" +++ ds) = true).
    { cbn in Hp. destruct Hp as [<-|[<-|[<-|[]]]]; reflexivity. }
    rewrite Hne. cbn [negb].
    rewrite ReFacts.match_anchored_complete; [reflexivity|].
    cbn [Re.Cat]. constructor.
    + cbn in Hp. destruct Hp as [<-|[<-|[<-|[]]]].
      * apply Re.L_AltL. apply ReFacts.lang_Lit.
      * apply Re.L_AltR, Re.L_AltL. apply ReFacts.lang_Lit.
      * apply Re.L_AltR, Re.L_AltR. apply ReFacts.lang_Lit.
    + change ("_" +++ ds) with (String "_" "" +++ ds). constructor.
      * constructor. reflexivity.
      * apply ReFacts.lang_Between_1; assumption.
  - cbn [String.append Str.nonempty negb].
    destruct (Re.match_anchored _ _); [reflexivity|].
    change (Str.startswith "emp_" (String "e" (String "m" (String "p" (String "_" ls)))))
      with true.
    cbn [andb].
    rewrite ReFacts.match_anchored_complete; [reflexivity|].
    change (String "e" (String "m" (String "p" (String "_" ls)))) with ("emp_" +++ ls).
    constructor; [apply ReFacts.lang_Lit | apply ReFacts.lang_Plus_class; assumption].
Qed.

(** ** The event log of a run *)

Section Logs.

Variable E : Env.
Variable task_text : string.
Variable about : WhoAmI.

Local Abbreviation iter := (iteration E task_text about).
Local Abbreviation reach := (reachable E task_text about).
Local Abbreviation run := (run_task E task_text about).

(** A property of states that holds before the loop and that every
    iteration from a reachable state keeps holds at the end of the run. *)
Lemma run_state_invariant (P : State -> Prop) :
  P empty_state -> P (init_state E task_text about) ->
  (forall step st, reach step st -> P st -> P (result_state (iter step st))) ->
  P (fst run).
Proof.
  intros H0 Hinit Hstep.
  assert (Hreach : forall step st, reach step st -> P st).
  { induction 1 as [|step st st' Hr IH Hlt Hi]; [exact Hinit|].
    specialize (Hstep _ _ Hr IH). rewrite Hi in Hstep. exact Hstep. }
  destruct (run_task_ends E task_text about) as [(-> & _)|[Hr _|step st0 Hr _ Hi]].
  - exact H0.
  - apply (Hreach _ _ Hr).
  - specialize (Hstep _ _ Hr (Hreach _ _ Hr)). rewrite Hi in Hstep. exact Hstep.
Qed.

(** An iteration keeps the log well formed. *)
Lemma step_log_ok step st :
  log_ok about (events st) -> log_ok about (events (result_state (iter step st))).
Proof.
  intros Hok. pose proof (iteration_cases E task_text about step st) as Hi.
  inversion Hi; subst; cbn [result_state]; frames; cbn [log_ok]; auto.
  sent_frame.
  match goal with Hs : Sent _ _ _ _ _ _ _ _, Hh : find_hallucinated _ = None |- _ =>
    pose proof (Sent_sent_for about _ _ _ _ _ _ _ Hh Hs) as Hfor end.
  match goal with Ha : ask _ _ _ _ = Some _ |- _ => rename Ha into Hask end.
  replied_cases; cbn [result_state]; frames; rewrite Hevs; frames; rewrite Hask;
    cbn [log_ok]; auto.
Qed.

Lemma run_log_ok : log_ok about (events (fst run)).
Proof.
  apply (run_state_invariant (fun st => log_ok about (events st))).
  - exact I.
  - unfold init_state. cbn [events]. destruct (current_user about) as [u|]; [|exact I].
    destruct (_ && _); exact I.
  - intros step st _. apply step_log_ok.
Qed.

End Logs.

(** C7. Every request that goes out to the API has its page size at 5 at
    most: it is the request of a reasoning step, with a requested limit
    above 5 replaced by 5 and a limit of 5 or below unchanged. *)
Theorem dispatched_limit_at_most_5 (E : Env) (task_text : string) (about : WhoAmI)
    (a : Action) (r : ApiReply) :
  In (EvDispatch a r) (events (fst (run_task E task_text about))) ->
  (forall l, a_limit a = Some l -> (l <= 5)%Z)
  /\ exists ns,
       In (EvLLM (Some ns)) (events (fst (run_task E task_text about)))
       /\ a_kind a = a_kind (function ns)
       /\ (a_kind a <> Req_UpdateEmployeeInfo ->
           a_limit a = match a_limit (function ns) with
                       | Some l => Some (if (5 <? l)%Z then 5%Z else l)
                       | None => None
                       end).
Proof.
  intros Hin.
  destruct (log_ok_dispatch about _ _ _ (run_log_ok E task_text about) Hin) as (ns & Hns & Hfor).
  destruct (sent_for_facts about ns a Hfor) as (Hk & Hl & H5 & _).
  split; [exact H5|]. exists ns. auto.
Qed.

(** A run in which the engine asks for 50 projects: 5 are requested. *)
Lemma dispatched_limit_at_most_5_witness :
  let E := Sample.env 30 (Sample.engine_says (Sample.step_with true (Sample.list_projects 50)))
                      Sample.api_ok in
  In (EvDispatch (Sample.list_projects 5) (ApiOk Sample.empty_response))
     (events (fst (run_task E "list the projects" Sample.employee)))
  /\ forall l, a_limit (Sample.list_projects 5) = Some l -> (l <= 5)%Z.
Proof.
  intros E.
  assert (Hin : In (EvDispatch (Sample.list_projects 5) (ApiOk Sample.empty_response))
                   (events (fst (run_task E "list the projects" Sample.employee))))
    by (vm_compute; left; reflexivity).
  split; [exact Hin|].
  exact (proj1 (dispatched_limit_at_most_5 E "list the projects" Sample.employee _ _ Hin)).
Defined.

(** *** Identifiers *)



(** ** Failures: of the API and of the reasoning engine *)

Section Failures.

Variable E : Env.
Variable task_text : string.
Variable about : WhoAmI.

Local Abbreviation iter := (iteration E task_text about).
Local Abbreviation reach := (reachable E task_text about).

Lemma not_system_error fn err :
  _classify_error err <> system -> is_system_error (EvDispatch fn (ApiException err)) = false.
Proof. cbn. destruct (_classify_error err); congruence. Qed.

(** While the loop goes on, the API has raised no system error. *)
Lemma reachable_no_system_error step st : reach step st -> no_system_error (events st).
Proof.
  unfold no_system_error.
  induction 1 as [|step st st' Hr IH Hlt Hi].
  - unfold init_state. cbn [events]. destruct (current_user about) as [u|]; [|constructor].
    destruct (_ && _); repeat constructor.
  - apply iter_continue in Hi.
    inversion Hi; subst; frames; repeat (constructor; [reflexivity|]); auto.
    sent_frame. replied_cases; frames; rewrite Hevs; frames.
    + repeat (constructor; [reflexivity|]); auto.
    + constructor; [apply not_system_error; assumption|]. constructor; [reflexivity|]. auto.
    + repeat (constructor; [reflexivity|]); auto.
Qed.

Lemma streaks_cons n e evs :
  fail_streak (e :: evs) <= n -> streaks_at_most n evs -> streaks_at_most n (e :: evs).
Proof.
  intros He Hs pre post Heq. destruct pre as [|x pre]; cbn in Heq.
  - subst post. exact He.
  - injection Heq as _ Heq. exact (Hs _ _ Heq).
Qed.

Lemma streaks_nil n : streaks_at_most n [].
Proof. intros [|x pre] post Heq; cbn in Heq; [subst; cbn; lia | discriminate]. Qed.

Lemma streaks_whole n evs : streaks_at_most n evs -> fail_streak evs <= n.
Proof. intros H. exact (H [] evs eq_refl). Qed.

Lemma streak_fresh st ms e evs :
  fail_streak (e :: evs) = 0 -> streaks_at_most 2 evs ->
  llm_fails st = 0 -> events st = e :: evs -> messages st = ms -> streak_invariant st.
Proof.
  intros H0 Hs Hl He Hm. unfold streak_invariant. rewrite He, H0, Hl.
  split; [reflexivity|]. split.
  - apply streaks_cons; [lia | exact Hs].
  - exists ms. cbn. rewrite app_nil_r. exact Hm.
Qed.

Lemma reachable_streak step st : reach step st -> streak_invariant st.
Proof.
  induction 1 as [|step st st' Hr (IHl & IHs & ms & IHm) Hlt Hi].
  - unfold streak_invariant, init_state. cbn [events llm_fails messages].
    destruct (current_user about) as [u|]; [destruct (_ && _)|];
      (split; [reflexivity|]);
      (split; [repeat (apply streaks_cons; [cbn; lia|]); apply streaks_nil
              | eexists; cbn [repeat fail_streak]; rewrite app_nil_r; reflexivity]).
  - apply iter_continue in Hi. inversion Hi; subst.
    + (* a failed call, retried *)
      unfold streak_invariant. frames.
      match goal with Ha : ask _ _ _ _ = None |- _ => rewrite Ha end.
      cbn [fail_streak]. rewrite <- IHl. split; [lia|]. split.
      * apply streaks_cons; [cbn [fail_streak]; lia | exact IHs].
      * exists ms. rewrite IHm. rewrite <- app_assoc. f_equal.
        rewrite IHl. change [corrective_note] with (repeat corrective_note 1).
        rewrite <- repeat_app. f_equal. lia.
    + (* a fabricated identifier *)
      eapply streak_fresh; frames; eauto.
      match goal with Ha : ask _ _ _ _ = Some _ |- _ => rewrite Ha end. reflexivity.
    + (* a blocked completion *)
      eapply streak_fresh; frames; eauto.
      match goal with Ha : ask _ _ _ _ = Some _ |- _ => rewrite Ha end. reflexivity.
    + (* a dispatch *)
      sent_frame.
      match goal with Ha : ask _ _ _ _ = Some _ |- _ => rename Ha into Hask end.
      assert (Hs2 : forall e, streaks_at_most 2 (e :: events st) -> True) by auto.
      replied_cases;
        (eapply streak_fresh;
         [ | | frames; rewrite ?Hllf; frames; reflexivity
           | frames; rewrite Hevs; frames; rewrite Hask; reflexivity | reflexivity ];
         [ reflexivity | apply streaks_cons; [cbn; lia | exact IHs] ]).
Qed.

End Failures.

(** C6. A domain error of the API that is classified [system] ends the
    task at once: the outcome is [error_internal] with no link, and the
    failed call is the last thing the run did (no retry, no further
    reasoning call); no earlier call had failed that way. *)
Theorem system_error_is_terminal (E : Env) (task_text : string) (about : WhoAmI)
    (a : Action) (err : string) :
  In (EvDispatch a (ApiException err)) (events (fst (run_task E task_text about))) ->
  _classify_error err = system ->
  f_outcome (snd (run_task E task_text about)) = error_internal
  /\ f_links (snd (run_task E task_text about)) = []
  /\ f_message (snd (run_task E task_text about)) = "System error."
  /\ f_exit (snd (run_task E task_text about)) = exit_system_error
  /\ exists rest,
       events (fst (run_task E task_text about)) = EvDispatch a (ApiException err) :: rest
       /\ no_system_error rest.
Proof.
  intros Hin Hsys.
  assert (Hbad : is_system_error (EvDispatch a (ApiException err)) = true)
    by (cbn; rewrite Hsys; reflexivity).
  assert (Hold : forall evs, no_system_error evs -> ~ In (EvDispatch a (ApiException err)) evs).
  { intros evs Hno Hi. unfold no_system_error in Hno. rewrite Forall_forall in Hno.
    specialize (Hno _ Hi). congruence. }
  destruct (run_task E task_text about) as [stf f] eqn:Hrun.
  pose proof (run_task_ends E task_text about) as Hends. rewrite Hrun in Hends.
  cbn [fst snd] in *.
  destruct Hends as [(-> & _)|[Hr _|step st0 Hr _ Hi]].
  - destruct Hin.
  - exfalso. exact (Hold _ (reachable_no_system_error _ _ _ _ _ Hr) Hin).
  - pose proof (reachable_no_system_error _ _ _ _ _ Hr) as Hno.
    apply iter_return in Hi. inversion Hi; subst; frames1.
    + exfalso. revert Hin. frames. exact (Hold _ Hno).
    + exfalso. revert Hin. frames. intros [Hin|Hin]; [discriminate | exact (Hold _ Hno Hin)].
    + sent_frame.
      replied_cases; revert Hin; frames; rewrite Hevs; frames;
        (intros [Hin|[Hin|Hin]];
         [ | discriminate Hin | exfalso; exact (Hold _ Hno Hin) ]);
        try discriminate Hin; try (injection Hin as -> ->; congruence).
      injection Hin as -> ->.
      repeat split. eexists. split; [reflexivity|].
      constructor; [reflexivity | exact Hno].
Qed.

(** The first call to the API times out. *)
Lemma system_error_is_terminal_witness :
  let E := Sample.env 30 (Sample.engine_says (Sample.step_with false (Sample.list_projects 5)))
                      (Sample.api_raises "Gateway timeout") in
  In (EvDispatch (Sample.list_projects 5) (ApiException "Gateway timeout"))
     (events (fst (run_task E "list the projects" Sample.employee)))
  /\ _classify_error "Gateway timeout" = system
  /\ f_outcome (snd (run_task E "list the projects" Sample.employee)) = error_internal.
Proof.
  intros E.
  assert (Hin : In (EvDispatch (Sample.list_projects 5) (ApiException "Gateway timeout"))
                   (events (fst (run_task E "list the projects" Sample.employee))))
    by (vm_compute; left; reflexivity).
  assert (Hsys : _classify_error "Gateway timeout" = system) by reflexivity.
  split; [exact Hin|]. split; [exact Hsys|].
  exact (proj1 (system_error_is_terminal E "list the projects" Sample.employee _ _ Hin Hsys)).
Defined.

(** C5 (amended). A reasoning call that fails below the threshold adds the
    corrective instruction to the conversation and goes to the next
    iteration without any dispatch; the third failure in a row ends the
    task with [error_internal].  A run whose log has three failed reasoning
    calls in a row ended right there, on [error_internal]: the streak is
    exactly 3 calls long, nothing follows it, and its first two failures
    were each answered by one corrective instruction, which are the last
    two messages of the conversation. *)
Theorem three_failures_end_task (E : Env) (task_text : string) (about : WhoAmI) :
  (forall step st,
     reachable E task_text about step st ->
     ask E task_text step (compressed st) = None ->
     llm_fails st <= 2
     /\ (llm_fails st < 2 ->
         exists st',
           iteration E task_text about step st = Continue st'
           /\ events st' = EvLLM None :: events st
           /\ messages st' = messages st ++ [corrective_note]
           /\ llm_fails st' = llm_fails st + 1)
     /\ (llm_fails st = 2 ->
         exists st',
           iteration E task_text about step st
           = Return st' (mkFinal error_internal "System error." [] exit_llm_fails step)
           /\ events st' = EvLLM None :: events st
           /\ messages st' = messages st))
  /\ (forall pre post,
        events (fst (run_task E task_text about))
        = post ++ EvLLM None :: EvLLM None :: EvLLM None :: pre ->
        post = []
        /\ fail_streak (events (fst (run_task E task_text about))) = 3
        /\ f_outcome (snd (run_task E task_text about)) = error_internal
        /\ f_message (snd (run_task E task_text about)) = "System error."
        /\ f_exit (snd (run_task E task_text about)) = exit_llm_fails
        /\ exists ms, messages (fst (run_task E task_text about))
                      = ms ++ [corrective_note; corrective_note]).
Proof.
  split.
  - intros step st Hr Hask.
    destruct (reachable_streak _ _ _ _ _ Hr) as (Hl & Hs & _).
    destruct (reachable_api_fails _ _ _ _ _ Hr) as [Ha _].
    assert (Hle : llm_fails st <= 2) by (rewrite Hl; apply streaks_whole, Hs).
    assert (Hit : iteration E task_text about step st
                  = on_llm_failure step (after_reply E task_text step st)).
    { unfold iteration. rewrite Ha. cbn [Nat.leb]. cbv zeta.
      unfold after_reply. rewrite Hask. reflexivity. }
    split; [exact Hle|]. split.
    + intros Hlt. eexists. split; [|split; [|split]].
      * rewrite Hit. unfold on_llm_failure. cbv zeta. frames.
        destruct (Nat.leb_spec 3 (llm_fails st + 1)); [lia | reflexivity].
      * frames. rewrite Hask. reflexivity.
      * frames. reflexivity.
      * frames. reflexivity.
    + intros Htwo. eexists. split; [|split].
      * rewrite Hit. unfold on_llm_failure. cbv zeta. frames.
        destruct (Nat.leb_spec 3 (llm_fails st + 1)); [reflexivity | lia].
      * frames. rewrite Hask. reflexivity.
      * frames. reflexivity.
  - intros pre post Hev.
    assert (Hlong : forall evs, streaks_at_most 2 evs ->
              forall q, evs <> q ++ EvLLM None :: EvLLM None :: EvLLM None :: pre).
    { intros evs Hs q Heq. specialize (Hs _ _ Heq). cbn in Hs. lia. }
    destruct (run_task E task_text about) as [stf f] eqn:Hrun.
    pose proof (run_task_ends E task_text about) as Hends. rewrite Hrun in Hends.
    cbn [fst snd] in *.
    destruct Hends as [(-> & _)|[Hr _|step st0 Hr _ Hi]].
    + destruct post; discriminate.
    + exfalso. destruct (reachable_streak _ _ _ _ _ Hr) as (_ & Hs & _).
      exact (Hlong _ Hs _ Hev).
    + destruct (reachable_streak _ _ _ _ _ Hr) as (Hl & Hs & ms & Hm).
      pose proof (streaks_whole _ _ Hs) as Hle.
      apply iter_return in Hi. inversion Hi; subst.
      * exfalso. revert Hev. frames. apply Hlong, Hs.
      * revert Hev. frames.
        match goal with Ha : ask _ _ _ _ = None |- _ => rewrite Ha end.
        intros Hev. destruct post as [|e post]; cbn in Hev.
        -- injection Hev as Hev.
           assert (Htwo : fail_streak (events st0) = 2) by lia.
           split; [reflexivity|]. split; [cbn [fail_streak]; lia|].
           repeat (split; [reflexivity|]).
           exists ms. rewrite Hm, Htwo. reflexivity.
        -- injection Hev as _ Hev. exfalso. exact (Hlong _ Hs _ Hev).
      * sent_frame.
        match goal with Ha : ask _ _ _ _ = Some _ |- _ => rename Ha into Hask end.
        exfalso.
        replied_cases; revert Hev; frames; rewrite Hevs; frames; rewrite Hask;
          (destruct post as [|e1 [|e2 post]]; cbn; intros Hev; try discriminate Hev;
           injection Hev as _ _ Hev; exact (Hlong _ Hs _ Hev)).
Qed.

(** An engine that is down: the first failure is retried. *)
Lemma three_failures_end_task_witness :
  let E := Sample.env 30 Sample.engine_down Sample.api_ok in
  let st := init_state E "list the projects" Sample.employee in
  reachable E "list the projects" Sample.employee 0 st
  /\ ask E "list the projects" 0 (compressed st) = None
  /\ llm_fails st <= 2.
Proof.
  intros E st.
  assert (Hr : reachable E "list the projects" Sample.employee 0 st) by constructor.
  assert (Hask : ask E "list the projects" 0 (compressed st) = None) by reflexivity.
  split; [exact Hr|]. split; [exact Hask|].
  exact (proj1 (proj1 (three_failures_end_task E "list the projects" Sample.employee) 0 st Hr Hask)).
Defined.

(** C5 as stated fails: with the engine down the task ends after three
    reasoning calls, and the corrective instruction was given twice, not
    three times. *)
Lemma three_failures_two_correctives :
  let E := Sample.env 30 Sample.engine_down Sample.api_ok in
  let run := run_task E "list the projects" Sample.employee in
  fail_streak (events (fst run)) = 3
  /\ failures (events (fst run)) = 3
  /\ f_outcome (snd run) = error_internal
  /\ correctives (messages (fst run)) = 2
  /\ correctives (messages (fst run)) <> 3.
Proof. vm_compute. repeat split; discriminate. Qed.

(** ** Memory and scratch stay bounded *)

Module Bounds.
Import Str StrPred StrFacts Compress.

Lemma length_drop : forall n s, String.length (drop n s) = String.length s - n.
Proof.
  induction n as [|n IH]; intros s; cbn; [lia|].
  destruct s as [|c s]; cbn; [reflexivity | apply IH].
Qed.

Lemma length_take : forall n s, String.length (take n s) <= n.
Proof.
  induction n as [|n IH]; intros s; cbn; [lia|].
  destruct s as [|c s]; cbn; [lia | specialize (IH s); lia].
Qed.

Lemma length_last_chars n s : String.length (last_chars n s) <= n.
Proof. unfold last_chars. rewrite length_drop. lia. Qed.

(** Joined clean fragments split back into as many pieces. *)
Lemma split_join_length : forall L pre,
  Forall clean_fragment L -> L <> [] -> has_char "|" pre = false ->
  List.length (split_on "|" (pre +++ join " | " L)) = List.length L.
Proof.
  induction L as [|l L IH]; intros pre HL Hne Hpre; [congruence|].
  inversion HL as [|? ? Hl HL']; subst.
  destruct Hl as (_ & _ & _ & Hbar & _).
  destruct L as [|l2 L].
  - cbn [join]. rewrite split_on_nosep; [reflexivity|].
    rewrite has_char_app, Hpre, Hbar. reflexivity.
  - rewrite join_cons2.
    replace (pre +++ l +++ " | " +++ join " | " (l2 :: L))
      with ((pre +++ (l +++ " ")) +++ String "|" (" " +++ join " | " (l2 :: L)))
      by (rewrite !app_assoc; reflexivity).
    rewrite split_on_app.
    + cbn [List.length]. f_equal. apply IH; [assumption | discriminate | reflexivity].
    + rewrite !has_char_app, Hpre, Hbar. reflexivity.
Qed.

(** A compressed memory has 12 fragments at most. *)
Lemma fragments_compress_memory m : fragments (compress_memory m) <= 12.
Proof.
  destruct (compress_memory_shape m) as (L & -> & Hlen & Hc & _).
  unfold fragments. destruct L as [|l L]; [cbn; lia|].
  change (join " | " (l :: L)) with ("" +++ join " | " (l :: L)).
  rewrite split_join_length; [exact Hlen | exact Hc | discriminate | reflexivity].
Qed.

Lemma ErrClass_name_length c : String.length (ErrClass_name c) <= 10.
Proof. destruct c; cbn; lia. Qed.

End Bounds.

Section MemoryScratch.

Variable E : Env.
Variable task_text : string.
Variable about : WhoAmI.

Local Abbreviation reach := (reachable E task_text about).
Local Abbreviation growth := (scratch_growth E task_text).

Lemma merge_memory ns st :
  memory (merge E ns st)
  = if Str.nonempty (ns_memory ns)
    then compress_memory (memory st +++ " | " +++ Str.strip (ns_memory ns))
    else memory st.
Proof.
  unfold merge. destruct (Str.nonempty (ns_memory ns)), (Str.nonempty (ns_scratch ns)); reflexivity.
Qed.

Lemma merge_scratch ns st :
  scratch (merge E ns st)
  = if Str.nonempty (ns_scratch ns) then Str.last_chars 500 (ns_scratch ns) else scratch st.
Proof.
  unfold merge. destruct (Str.nonempty (ns_memory ns)), (Str.nonempty (ns_scratch ns)); reflexivity.
Qed.

(** The memory after the merge of a reply is a compressed memory. *)
Lemma merged_memory_compressed step ns st :
  exists x, memory (merge E ns (after_reply E task_text step st)) = compress_memory x.
Proof.
  rewrite merge_memory. destruct (Str.nonempty (ns_memory ns)); eexists; reflexivity.
Qed.

Lemma merged_scratch_length step ns st n :
  String.length (scratch st) <= 500 + n ->
  String.length (scratch (merge E ns (after_reply E task_text step st))) <= 500 + n.
Proof.
  intros H. rewrite merge_scratch. destruct (Str.nonempty (ns_scratch ns)).
  - pose proof (Bounds.length_last_chars 500 (ns_scratch ns)). lia.
  - rewrite after_reply_scratch. exact H.
Qed.

Lemma hints_memory fn res st :
  (exists x, memory st = compress_memory x) ->
  exists x, memory (hints E task_text fn res st) = compress_memory x.
Proof.
  intros [x Hx]. unfold hints.
  repeat match goal with
         | |- context [if ?c then _ else _] => destruct c
         | |- context [match ?c with Some _ => _ | None => _ end] => destruct c
         end; cbn [memory set_memory push_msg set_messages set_scratch]; eauto.
Qed.

Lemma hints_scratch fn res st :
  String.length (scratch (hints E task_text fn res st)) <= String.length (scratch st) + growth.
Proof.
  unfold hints, scratch_growth.
  destruct (for_word E (task_lower task_text)) as [w|];
  repeat match goal with
         | |- context [if ?c then _ else _] => destruct c
         | |- context [match ?c with Some _ => _ | None => _ end] => destruct c
         end; cbn [scratch set_memory push_msg set_messages set_scratch];
    rewrite ?StrFacts.length_app; lia.
Qed.

(** The error note that an exception of the API leaves in memory. *)
Lemma api_error_note_length err :
  String.length (" | ERR[" +++ ErrClass_name (_classify_error err) +++ "]: " +++ Str.take 60 err)
  <= 80.
Proof.
  rewrite !StrFacts.length_app.
  pose proof (Bounds.ErrClass_name_length (_classify_error err)).
  pose proof (Bounds.length_take 60 err). cbn [String.length]. lia.
Qed.

Lemma fault_note_length err : String.length (" | ERR: " +++ Str.take 60 err) <= 80.
Proof.
  rewrite StrFacts.length_app. pose proof (Bounds.length_take 60 err). cbn [String.length]. lia.
Qed.

Lemma reachable_bounds step st :
  reach step st ->
  (exists x note, memory st = compress_memory x +++ note /\ String.length note <= 80)
  /\ String.length (scratch st) <= 500 + step * growth.
Proof.
  induction 1 as [|step st st' Hr [_ IHs] Hlt Hi].
  - split; [exists "", ""; split; [reflexivity | cbn; lia] | cbn; lia].
  - assert (Hpure : forall s x, s = compress_memory x ->
              exists x' note, s = compress_memory x' +++ note /\ String.length note <= 80).
    { intros s x ->. exists x, "". rewrite StrFacts.app_nil_r. split; [reflexivity | cbn; lia]. }
    apply iter_continue in Hi. inversion Hi; subst.
    + frames. split; [eapply Hpure; reflexivity | lia].
    + frames.
      destruct (merged_memory_compressed step ns st) as [x Hx].
      pose proof (merged_scratch_length step ns st _ IHs).
      split; [eapply Hpure; exact Hx | lia].
    + frames.
      destruct (merged_memory_compressed step ns st) as [x Hx].
      pose proof (merged_scratch_length step ns st _ IHs).
      split; [eapply Hpure; exact Hx | lia].
    + sent_frame.
      destruct (merged_memory_compressed step ns st) as [x Hx].
      pose proof (merged_scratch_length step ns st _ IHs) as Hsc.
      rewrite <- Hmem in Hx. rewrite <- Hscr in Hsc.
      replied_cases.
      * split.
        -- unfold recorded. cbv zeta. cbn [memory set_memory]. eapply Hpure. reflexivity.
        -- rewrite recorded_scratch.
           pose proof (hints_scratch fn res (log_event (EvDispatch fn (ApiOk res)) std)) as Hh.
           cbn [scratch log_event set_events] in Hh. lia.
      * frames. split; [|lia].
        exists x. eexists. split; [rewrite Hx; reflexivity | apply api_error_note_length].
      * unfold note_fault. cbn [memory scratch push_msg set_messages set_memory log_event set_events].
        split; [|lia].
        exists x. eexists. split; [rewrite Hx; reflexivity | apply fault_note_length].
Qed.

End MemoryScratch.

(** C9. In every state the loop reaches, memory is a compressed memory
    followed by one error note of 80 characters at most, and the scratch is
    no longer than 500 characters plus, per iteration so far, the length of
    the disambiguation note of the hints.  The memory that goes to the
    reasoning call, and the memory after the merge of the reply, have 12
    fragments at most; a reply that supplies scratch leaves at most its last
    500 characters. *)
Theorem memory_and_scratch_bounded (E : Env) (task_text : string) (about : WhoAmI)
    (step : nat) (st : State) :
  reachable E task_text about step st ->
  (exists x note, memory st = compress_memory x +++ note /\ String.length note <= 80)
  /\ String.length (scratch st) <= 500 + step * scratch_growth E task_text
  /\ fragments (memory (compressed st)) <= 12
  /\ forall ns,
       fragments (memory (merge E ns (after_reply E task_text step st))) <= 12
       /\ (Str.nonempty (ns_scratch ns) = true ->
           String.length (scratch (merge E ns (after_reply E task_text step st))) <= 500)
       /\ String.length (scratch (merge E ns (after_reply E task_text step st)))
          <= 500 + step * scratch_growth E task_text.
Proof.
  intros Hr. destruct (reachable_bounds _ _ _ _ _ Hr) as [Hm Hs].
  split; [exact Hm|]. split; [exact Hs|]. split; [apply Bounds.fragments_compress_memory|].
  intros ns. split; [|split].
  - destruct (merged_memory_compressed E task_text step ns st) as [x ->].
    apply Bounds.fragments_compress_memory.
  - intros Hn. rewrite merge_scratch, Hn. apply Bounds.length_last_chars.
  - apply merged_scratch_length. exact Hs.
Qed.

(** At the head of the first iteration. *)
Lemma memory_and_scratch_bounded_witness :
  let E := Sample.env 30 Sample.engine_down Sample.api_ok in
  let st := init_state E "list the projects" Sample.employee in
  reachable E "list the projects" Sample.employee 0 st
  /\ fragments (memory (compressed st)) <= 12.
Proof.
  intros E st.
  assert (Hr : reachable E "list the projects" Sample.employee 0 st) by constructor.
  split; [exact Hr|].
  exact (proj1 (proj2 (proj2 (memory_and_scratch_bounded E _ _ 0 st Hr)))).
Defined.

(** ** The pattern guard *)

Lemma find_first {A} (f : A -> bool) (l : list A) :
  (exists x, In x l /\ f x = true) ->
  exists pre y post,
    l = pre ++ y :: post /\ find f l = Some y /\ f y = true
    /\ forall x, In x pre -> f x = false.
Proof.
  induction l as [|a l IH]; intros (x & Hin & Hx); [destruct Hin|].
  destruct (f a) eqn:Ha.
  - exists [], a, l. cbn [find app]. rewrite Ha. repeat split; auto. intros ? [].
  - destruct IH as (pre & y & post & -> & Hf & Hy & Hpre).
    { destruct Hin as [<- | Hin]; [congruence | eauto]. }
    exists (a :: pre), y, post. cbn [find app]. rewrite Ha. repeat split; auto.
    intros z [<- | Hz]; auto.
Qed.




Lemma any_in_cons w ws t : any_in (w :: ws) t = Str.contains w t || any_in ws t.
Proof. reflexivity. Qed.

(** C4 (amended). For a guest whose instruction contains "date", "today"
    or "what day" (whatever the case of the letters), the run ends before
    the loop with [ok_answer], the as-of date followed by the branding and
    no link; nothing was asked of the API or of the reasoning engine. *)
Theorem guest_date_shortcut (E : Env) (task_text : string) (about : WhoAmI) :
  is_public about = true ->
  any_in ["date"; "today"; "what day"] (Str.lower task_text) = true ->
  run_task E task_text about
  = (empty_state, mkFinal ok_answer (today about +++ branding) [] exit_guest_date 0)
  /\ events (fst (run_task E task_text about)) = [].
Proof.
  intros Hpub Hdate.
  assert (Hrun : run_task E task_text about
                 = (empty_state, mkFinal ok_answer (today about +++ branding) [] exit_guest_date 0)).
  { unfold run_task, task_lower. rewrite Hpub. cbn [andb].
    rewrite !any_in_cons in *.
    destruct (Str.contains "date" (Str.lower task_text)); [reflexivity|].
    destruct (Str.contains "today" (Str.lower task_text)); [reflexivity|].
    destruct (Str.contains "what day" (Str.lower task_text)); [|discriminate Hdate].
    cbn [orb negb]. rewrite !orb_true_r. reflexivity. }
  rewrite Hrun. auto.
Qed.

(** A guest asks for the date. *)
Lemma guest_date_shortcut_witness :
  let E := Sample.env 30 Sample.engine_down Sample.api_ok in
  is_public Sample.guest = true
  /\ any_in ["date"; "today"; "what day"] (Str.lower "What's today's date?") = true
  /\ f_message (snd (run_task E "What's today's date?" Sample.guest))
     = "2025-01-05 — AI Excellence Group INTERNATIONAL".
Proof.
  intros E. split; [reflexivity|]. split; [reflexivity|].
  rewrite (proj1 (guest_date_shortcut E "What's today's date?" Sample.guest eq_refl eq_refl)).
  reflexivity.
Defined.

(** C4 as stated fails for a time query: "what time" spares the guest the
    denial but is not in the list of the shortcut, so the task goes to the
    loop; here the engine lists projects and the API is called. *)
Lemma guest_time_query_enters_loop :
  let E := Sample.env 30 (Sample.engine_says (Sample.step_with true (Sample.list_projects 5)))
                      Sample.api_ok in
  let run := run_task E "what time is it?" Sample.guest in
  any_in ["date"; "today"; "current date"; "what day"; "what time"] (Str.lower "what time is it?")
  = true
  /\ f_exit (snd run) = exit_done
  /\ f_message (snd run) = "Done."
  /\ f_message (snd run) <> today Sample.guest +++ branding
  /\ events (fst run)
     = [EvDispatch (Sample.list_projects 5) (ApiOk Sample.empty_response);
        EvLLM (Some (Sample.step_with true (Sample.list_projects 5)))].
Proof. vm_compute. repeat split; discriminate. Qed.

(** The first iteration of a run (C10 at a state). *)
Lemma api_fails_at_most_one_witness :
  let E := Sample.env 30 Sample.engine_down Sample.api_ok in
  let st := init_state E "list the projects" Sample.employee in
  reachable E "list the projects" Sample.employee 0 st /\ api_fails st <= 1.
Proof.
  intros E st.
  assert (Hr : reachable E "list the projects" Sample.employee 0 st) by constructor.
  split; [exact Hr|].
  exact (proj1 (proj1 (api_fails_at_most_one E "list the projects" Sample.employee) 0 st Hr)).
Defined.

(** ** The premature-completion guard *)

Section Completion.

Variable E : Env.
Variable task_text : string.
Variable about : WhoAmI.

Lemma drop_links_outcome o st fn : a_outcome (drop_links o st fn) = a_outcome fn.
Proof. unfold drop_links. destruct (_ || _); reflexivity. Qed.

Lemma surface_outcome fn :
  a_outcome (surface fn) = if is_outcome ok_not_found (a_outcome fn) then ok_answer else a_outcome fn.
Proof. unfold surface. destruct (is_outcome ok_not_found (a_outcome fn)); reflexivity. Qed.

(** For a final response the proposal has the outcome that the engine gave. *)
Lemma proposal_outcome ns :
  is_kind Req_ProvideAgentResponse (proposal about ns) = true ->
  a_outcome (proposal about ns) = a_outcome (function ns).
Proof.
  intros Hk. apply is_kind_true in Hk. unfold proposal in *.
  rewrite enrich_kind, clamp_limit_kind in Hk.
  rewrite enrich_outcome by (rewrite clamp_limit_kind; exact Hk).
  apply clamp_limit_outcome.
Qed.

Lemma proposal_kind ns : a_kind (proposal about ns) = a_kind (function ns).
Proof. unfold proposal. rewrite enrich_kind. apply clamp_limit_kind. Qed.

(** No call is required of a time-logging task only once time was logged. *)
Lemma required_call_none h :
  implies_time_logging (task_lower task_text) = true ->
  required_call task_text h = None -> called "Req_LogTimeEntry" h = true.
Proof.
  intros Ht. unfold required_call. rewrite Ht. cbn [andb].
  destruct (called "Req_LogTimeEntry" h); [reflexivity|]. cbn [negb].
  repeat match goal with |- context [if ?c then _ else _] => destruct c end; discriminate.
Qed.

Lemma required_call_some h :
  implies_time_logging (task_lower task_text) = true ->
  called "Req_LogTimeEntry" h = false -> exists required, required_call task_text h = Some required.
Proof.
  intros Ht Hc. unfold required_call. rewrite Ht, Hc. cbn [andb negb].
  repeat match goal with |- context [if ?c then _ else _] => destruct c end; eauto.
Qed.

End Completion.

(** The notes of a blocked completion: the one that names the missing
    call and, from the third block on, the one that counts the blocks. *)
Lemma block_notes_messages required st :
  messages (block_notes required st)
  = messages st
    ++ system_msg ("⛔ BLOCKED: Task requires " +++ required
                   +++ " but it was never called. Execute it first.")
    :: (if 3 <=? block_count (block_notes required st) then
          [system_msg ("⛔ CRITICAL: Blocked " +++ Str.of_nat (block_count (block_notes required st))
             +++ "x. STOP SEARCHING. Call " +++ required +++ " NOW with IDs from memory: "
             +++ Str.last_chars 200 (memory (block_notes required st)))]
        else []).
Proof.
  unfold block_notes. cbv zeta.
  cbn [push_msg set_messages set_block_count block_count messages memory].
  destruct (3 <=? block_count st + 1) eqn:Hc;
    cbn [push_msg set_messages set_block_count block_count messages memory]; rewrite ?Hc.
  - rewrite <- List.app_assoc. reflexivity.
  - reflexivity.
Qed.




(** The same outcome by the [done] flag of a step that lists projects, and
    by a final response proposed as [ok_not_found]. *)
Example done_flag_without_time_entry :
  let ns := Sample.step_with true (Sample.list_projects 5) in
  let E := Sample.env 30 (Sample.engine_says ns) Sample.api_ok in
  let run := run_task E "log 3 hours on project X" Sample.employee in
  f_outcome (snd run) = ok_answer /\ f_exit (snd run) = exit_done /\ f_step (snd run) = 0
  /\ called "Req_LogTimeEntry" (call_history (fst run)) = false.
Proof. vm_compute. repeat split. Qed.

Example not_found_without_time_entry :
  let ns := Sample.step_with false (Sample.respond ok_not_found "No such project.") in
  let E := Sample.env 30 (Sample.engine_says ns) Sample.api_ok in
  let run := run_task E "log 3 hours on project X" Sample.employee in
  f_outcome (snd run) = ok_answer /\ f_exit (snd run) = exit_final_response
  /\ f_step (snd run) = 0
  /\ called "Req_LogTimeEntry" (call_history (fst run)) = false.
Proof. vm_compute. repeat split. Qed.

(** A guest who asks to record today's hours gets the date. *)
Example guest_date_without_time_entry :
  let E := Sample.env 30 Sample.engine_down Sample.api_ok in
  let run := run_task E "record today's hours" Sample.guest in
  implies_time_logging (task_lower "record today's hours") = true
  /\ f_outcome (snd run) = ok_answer /\ f_exit (snd run) = exit_guest_date.
Proof. vm_compute. repeat split. Qed.

(* ================================================================= *)
(** * The payload of a reply *)

Module Payload.
Import Str StrPred StrFacts Text.

Lemma part_of_refl s : part_of s s.
Proof. exists "", "". simpl. symmetry. apply app_nil_r. Qed.

Lemma part_of_trans a b c : part_of a b -> part_of b c -> part_of a c.
Proof.
  intros (l1 & r1 & H1) (l2 & r2 & H2). exists (l2 +++ l1), (r1 +++ r2).
  rewrite H2, H1. rewrite !app_assoc. reflexivity.
Qed.

Lemma part_of_strip s : part_of (strip s) s.
Proof. destruct (strip_infix s) as (a & b & H). exists a, b. exact H. Qed.

Lemma take_drop n s : s = take n s +++ drop n s.
Proof.
  revert s; induction n as [|n IH]; intros [|c r]; simpl; try reflexivity.
  f_equal. apply IH.
Qed.

Lemma part_of_drop n s : part_of (drop n s) s.
Proof. exists (take n s), "". rewrite app_nil_r. apply take_drop. Qed.

Lemma part_of_take n s : part_of (take n s) s.
Proof. exists "", (drop n s). simpl. apply take_drop. Qed.

Lemma strip_stripped s : stripped (strip s).
Proof.
  unfold stripped. unfold strip at 1.
  rewrite (head_ok_lstrip _ (strip_head_ok s)). apply strip_rstrip.
Qed.

Lemma rstrip_cons c r : is_space c = false -> rstrip (String c r) = String c (rstrip r).
Proof. intros Hc. simpl. destruct (rstrip r); [rewrite Hc|]; reflexivity. Qed.

Lemma rstrip_keeps a b : rstrip b <> "" -> rstrip (a +++ b) = a +++ rstrip b.
Proof.
  intros Hb. induction a as [|c a IH]; simpl; [reflexivity|].
  rewrite IH. destruct (a +++ rstrip b) eqn:Hab; [|reflexivity].
  apply ReFacts.append_empty in Hab. tauto.
Qed.

Lemma app_cancel a x y : a +++ x = a +++ y -> x = y.
Proof. induction a as [|c a IH]; simpl; intros H; [exact H|]. injection H. exact IH. Qed.

(** A suffix of stripped text that starts with no blank is stripped. *)
Lemma stripped_suffix a c r :
  stripped (a +++ String c r) -> is_space c = false -> stripped (String c r).
Proof.
  unfold stripped, strip. intros Hs Hc.
  assert (Hne : rstrip (String c r) <> "") by (rewrite (rstrip_cons _ _ Hc); discriminate).
  assert (Hr : rstrip (a +++ String c r) = a +++ String c r).
  { pose proof (strip_rstrip (a +++ String c r)) as H. unfold strip in H.
    rewrite Hs in H. exact H. }
  rewrite (rstrip_keeps a _ Hne) in Hr. apply app_cancel in Hr.
  simpl lstrip. rewrite Hc. exact Hr.
Qed.

Lemma strip_prefix_stripped text prefix : stripped text -> stripped (strip_prefix text prefix).
Proof.
  intros H. unfold strip_prefix. destruct (startswith _ _); [apply strip_stripped | exact H].
Qed.

Lemma strip_prefix_part text prefix : part_of (strip_prefix text prefix) text.
Proof.
  unfold strip_prefix. destruct (startswith _ _); [|apply part_of_refl].
  eapply part_of_trans; [apply part_of_strip | apply part_of_drop].
Qed.

Lemma prefixes_stripped ps : forall text,
  stripped text -> stripped (fold_left strip_prefix ps text).
Proof.
  induction ps as [|p ps IH]; intros text H; simpl; [exact H|].
  apply IH, strip_prefix_stripped, H.
Qed.

Lemma prefixes_part ps : forall text, part_of (fold_left strip_prefix ps text) text.
Proof.
  induction ps as [|p ps IH]; intros text; simpl; [apply part_of_refl|].
  eapply part_of_trans; [apply IH | apply strip_prefix_part].
Qed.

Lemma unfence_stripped raw : stripped (unfence raw).
Proof.
  unfold unfence. destruct (endswith _ _); [apply strip_stripped|].
  apply prefixes_stripped, strip_stripped.
Qed.

Lemma unfence_part raw : part_of (unfence raw) raw.
Proof.
  unfold unfence.
  assert (H : part_of (fold_left strip_prefix json_prefixes (strip raw)) raw)
    by (eapply part_of_trans; [apply prefixes_part | apply part_of_strip]).
  destruct (endswith _ _); [|exact H].
  eapply part_of_trans; [|exact H].
  eapply part_of_trans; [apply part_of_strip | apply part_of_take].
Qed.

(** [find]: where the first brace is. *)
Lemma find_none c s : find c s = None -> has_char c s = false.
Proof.
  induction s as [|d r IH]; simpl; [reflexivity|].
  destruct (Ascii.eqb d c); [discriminate|].
  destruct (find c r); [discriminate|]. intros _. apply IH. reflexivity.
Qed.

Lemma find_some c s n :
  find c s = Some n ->
  exists r, drop n s = String c r /\ has_char c (take n s) = false /\ n < String.length s.
Proof.
  revert n; induction s as [|d r IH]; simpl; intros n H; [discriminate|].
  destruct (Ascii.eqb d c) eqn:Hd.
  - injection H as <-. apply Ascii.eqb_eq in Hd. subst d. exists r. simpl. repeat split. lia.
  - destruct (find c r) as [m|]; [|discriminate]. injection H as <-.
    destruct (IH m eq_refl) as (r' & H1 & H2 & H3). exists r'. simpl. rewrite Hd.
    repeat split; [exact H1 | exact H2 | lia].
Qed.

Lemma find_app c pre r : has_char c pre = false -> find c (pre +++ String c r) = Some (String.length pre).
Proof.
  induction pre as [|d pre IH]; simpl; intros H.
  - rewrite Ascii.eqb_refl. reflexivity.
  - apply orb_false_elim in H as [Hd Hp]. rewrite Hd, (IH Hp). reflexivity.
Qed.

Lemma drop_app pre x : drop (String.length pre) (pre +++ x) = x.
Proof. induction pre as [|d pre IH]; simpl; [destruct x; reflexivity | exact IH]. Qed.

Lemma take_app pre x : take (String.length pre) (pre +++ x) = pre.
Proof.
  induction pre as [|d pre IH]; simpl; [destruct x; reflexivity | f_equal; exact IH].
Qed.

Lemma take_all s : take (String.length s) s = s.
Proof. induction s as [|c r IH]; simpl; [reflexivity | f_equal; exact IH]. Qed.

(** The scan stops on a closing brace. *)
Lemma scan_depth_cons d c r :
  scan_depth d (String c r)
  = let d1 := (d + (if Ascii.eqb c "{" then 1 else 0) - (if Ascii.eqb c "}" then 1 else 0))%Z in
    if (d1 =? 0)%Z then Some 1 else option_map S (scan_depth d1 r).
Proof. reflexivity. Qed.

Lemma scan_depth_stop s : forall d n,
  (1 <= d)%Z -> scan_depth d s = Some n ->
  exists x, take n s = x +++ "}" /\ n <= String.length s.
Proof.
  induction s as [|c r IH]; intros d n Hd H; [discriminate|].
  rewrite scan_depth_cons in H. cbv zeta in H.
  destruct (Z.eqb_spec (d + (if Ascii.eqb c "{" then 1 else 0)
                          - (if Ascii.eqb c "}" then 1 else 0)) 0) as [Hz | Hz].
  - injection H as <-. destruct (Ascii.eqb c "{") eqn:Ho; [destruct (Ascii.eqb c "}"); lia|].
    destruct (Ascii.eqb c "}") eqn:Hc; [|lia].
    apply Ascii.eqb_eq in Hc. subst c. exists "". simpl. split; [reflexivity | lia].
  - destruct (scan_depth _ r) as [m|] eqn:Hs; [|discriminate]. injection H as <-.
    apply IH in Hs.
    + destruct Hs as (x & Hx & Hn). exists (String c x). simpl. rewrite Hx.
      split; [reflexivity | lia].
    + destruct (Ascii.eqb c "{"), (Ascii.eqb c "}"); lia.
Qed.

Lemma scan_depth_object r n :
  scan_depth 0 (String "{" r) = Some n ->
  exists x, take n (String "{" r) = String "{" x +++ "}" /\ n <= String.length (String "{" r).
Proof.
  rewrite scan_depth_cons. cbn. destruct (scan_depth 1 r) as [m|] eqn:Hs; [|discriminate].
  intros H. injection H as <-. apply scan_depth_stop in Hs; [|lia].
  destruct Hs as (x & Hx & Hn). exists x. cbn [take String.length]. rewrite Hx.
  split; [reflexivity | lia].
Qed.

Lemma stripped_closed x : stripped (String "{" x +++ "}").
Proof.
  unfold stripped, strip.
  change (rstrip (String "{" x +++ "}") = String "{" x +++ "}").
  rewrite rstrip_keeps; [reflexivity | discriminate].
Qed.

End Payload.

(** X1.  What [extract_json] returns is a contiguous part of the reply,
    has no blank at either end, and starts with an opening brace whenever
    it has one. *)
Theorem extract_json_shape (raw : string) :
  part_of (extract_json raw) raw
  /\ Str.strip (extract_json raw) = extract_json raw
  /\ (StrPred.has_char "{" (extract_json raw) = false
      \/ exists r, extract_json raw = String "{" r).
Proof.
  pose proof (Payload.unfence_part raw) as Hp. pose proof (Payload.unfence_stripped raw) as Hs.
  unfold extract_json. destruct (Text.find "{" (unfence raw)) as [start|] eqn:Hf.
  - destruct (Payload.find_some _ _ _ Hf) as (r & Hd & _ & Hlt). rewrite Hd.
    assert (Hsuf : stripped (String "{" r)).
    { rewrite (Payload.take_drop start (unfence raw)), Hd in Hs.
      exact (Payload.stripped_suffix _ _ _ Hs eq_refl). }
    assert (Hpart : part_of (String "{" r) raw).
    { eapply Payload.part_of_trans; [|exact Hp]. rewrite <- Hd. apply Payload.part_of_drop. }
    destruct (scan_depth 0 (String "{" r)) as [n|] eqn:Hscan.
    + replace (start + n - start) with n by lia.
      destruct (Payload.scan_depth_object _ _ Hscan) as (x & Hx & _). rewrite Hx.
      split; [|split].
      * eapply Payload.part_of_trans; [|exact Hpart]. rewrite <- Hx. apply Payload.part_of_take.
      * apply Payload.stripped_closed.
      * right. eexists. reflexivity.
    + assert (Hall : Str.take (String.length (unfence raw) - start) (String "{" r) = String "{" r).
      { rewrite <- Hd at 2. rewrite <- (Payload.take_all (Str.drop start (unfence raw))), Hd.
        f_equal. rewrite <- Hd. clear - Hlt. revert Hlt. generalize (unfence raw) as s.
        induction start as [|k IH]; intros [|c s]; simpl; intros H; try lia.
        apply IH. lia. }
      rewrite Hall. split; [exact Hpart | split; [exact Hsuf | right; eexists; reflexivity]].
  - split; [exact Hp | split; [exact Hs | left; apply Payload.find_none, Hf]].
Qed.

Module Fence.
Import Str StrPred StrFacts Text Payload.

Lemma lstrip_keeps pre c x :
  is_space c = false -> lstrip (pre +++ String c x) = lstrip pre +++ String c x.
Proof.
  intros Hc. induction pre as [|d pre IH]; simpl; [rewrite Hc; reflexivity|].
  destruct (is_space d); [exact IH | reflexivity].
Qed.

Lemma has_char_lstrip c s : has_char c s = false -> has_char c (lstrip s) = false.
Proof.
  intros H. destruct (lstrip_suffix s) as [a Ha]. rewrite Ha, has_char_app in H.
  apply orb_false_elim in H. tauto.
Qed.

Lemma wraps_strip b text : wraps b text -> wraps b (strip text).
Proof.
  intros (pre & post & -> & Hpre). exists (lstrip pre), (rstrip post). split.
  - unfold strip. rewrite lstrip_keeps by reflexivity.
    change (String "{" (b +++ String "}" post)) with (String "{" b +++ String "}" post).
    rewrite <- app_assoc. rewrite rstrip_keeps.
    + rewrite rstrip_cons by reflexivity. rewrite app_assoc. reflexivity.
    + rewrite rstrip_cons by reflexivity. discriminate.
  - apply has_char_lstrip, Hpre.
Qed.

Lemma lower_length s : String.length (lower s) = String.length s.
Proof. induction s as [|c r IH]; simpl; [reflexivity | f_equal; exact IH]. Qed.

Lemma lower_app a b : lower (a +++ b) = lower a +++ lower b.
Proof. induction a as [|c a IH]; simpl; [reflexivity | f_equal; exact IH]. Qed.

(** A prefix without brace that matches lies before the object. *)
Lemma wraps_drop p : forall b text,
  wraps b text -> startswith p (lower text) = true -> has_char "{" p = false ->
  wraps b (drop (String.length p) text).
Proof.
  induction p as [|c p IH]; intros b text Hw Hs Hp.
  - destruct text; exact Hw.
  - destruct Hw as (pre & post & -> & Hpre). simpl in Hp. apply orb_false_elim in Hp as [Hc Hp].
    destruct pre as [|d pre].
    + simpl in Hs. apply andb_true_iff in Hs as [Hs _].
      rewrite Ascii.eqb_sym in Hs. change (lower_char "{") with "{"%char in Hs.
      rewrite Ascii.eqb_sym in Hs. congruence.
    + simpl in Hs, Hpre. apply andb_true_iff in Hs as [_ Hs].
      apply orb_false_elim in Hpre as [_ Hpre]. simpl.
      apply IH; [exists pre, post; auto | exact Hs | exact Hp].
Qed.

Lemma wraps_strip_prefix b text prefix :
  In prefix json_prefixes -> wraps b text -> wraps b (strip_prefix text prefix).
Proof.
  intros Hin Hw. unfold strip_prefix.
  destruct (startswith (lower prefix) (lower text)) eqn:Hs; [|exact Hw].
  apply wraps_strip. rewrite <- (lower_length prefix). apply wraps_drop; [exact Hw | exact Hs|].
  simpl in Hin. destruct Hin as [<- | [<- | [<- | [<- | []]]]]; reflexivity.
Qed.

Lemma wraps_prefixes b ps : forall text,
  incl ps json_prefixes -> wraps b text -> wraps b (fold_left strip_prefix ps text).
Proof.
  induction ps as [|p ps IH]; intros text Hi Hw; simpl; [exact Hw|].
  apply IH; [intros x Hx; apply Hi; right; exact Hx|].
  apply wraps_strip_prefix; [apply Hi; left; reflexivity | exact Hw].
Qed.

(** Two ways to cut the same text. *)
Lemma app_eq_app_str x : forall y u v,
  x +++ y = u +++ v ->
  (exists w, x = u +++ w /\ v = w +++ y) \/ (exists w, u = x +++ w /\ y = w +++ v).
Proof.
  induction x as [|c x IH]; intros y u v H.
  - right. exists u. split; [reflexivity | exact H].
  - destruct u as [|d u].
    + left. exists (String c x). split; [reflexivity | symmetry; exact H].
    + simpl in H. injection H as -> H. destruct (IH _ _ _ H) as [(w & -> & ->) | (w & -> & ->)].
      * left. exists w. split; reflexivity.
      * right. exists w. split; reflexivity.
Qed.

Lemma endswith_split suffix s :
  endswith suffix s = true -> s = take (String.length s - String.length suffix) s +++ suffix.
Proof.
  unfold endswith, last_chars. intros H. apply String.eqb_eq in H.
  pose proof (take_drop (String.length s - String.length suffix) s) as T.
  rewrite H in T. exact T.
Qed.

Lemma wraps_fence b text :
  wraps b text -> endswith "```" text = true -> wraps b (take (String.length text - 3) text).
Proof.
  intros (pre & post & Ht & Hpre) He. apply endswith_split in He.
  change (String.length "```") with 3 in He.
  set (a := take (String.length text - 3) text) in *.
  rewrite He in Ht.
  change (String "{" (b +++ String "}" post)) with (String "{" b +++ String "}" post) in Ht.
  rewrite <- app_assoc in Ht.
  destruct (app_eq_app_str _ _ _ _ Ht) as [(w & Ha & Hv) | (w & _ & Hv)].
  - destruct w as [|c w]; [discriminate|]. simpl in Hv. injection Hv as <- Hpost.
    exists pre, w. split; [|exact Hpre]. rewrite Ha, app_assoc. reflexivity.
  - apply (f_equal (has_char "}")) in Hv. rewrite has_char_app in Hv. simpl in Hv.
    rewrite orb_true_r in Hv. discriminate.
Qed.

Lemma wraps_unfence b raw : wraps b raw -> wraps b (unfence raw).
Proof.
  intros Hw. unfold unfence.
  assert (H : wraps b (fold_left strip_prefix json_prefixes (strip raw)))
    by (apply wraps_prefixes; [apply incl_refl | apply wraps_strip, Hw]).
  destruct (endswith _ _) eqn:He; [|exact H].
  apply wraps_strip, wraps_fence; assumption.
Qed.

(** The scan goes through nested braces and stops where the object ends. *)
Lemma scan_nested s : forall d k rest,
  well_nested d s = true -> (1 <= k)%Z ->
  scan_depth (k + Z.of_nat d) (s +++ rest)
  = option_map (Nat.add (String.length s)) (scan_depth k rest).
Proof.
  induction s as [|c r IH]; intros d k rest Hw Hk.
  - simpl in Hw. apply Nat.eqb_eq in Hw. subst d. simpl. rewrite Z.add_0_r.
    destruct (scan_depth k rest); reflexivity.
  - cbn [append]. rewrite scan_depth_cons. cbv zeta. simpl in Hw.
    destruct (Ascii.eqb c "{") eqn:Ho.
    + assert (Hc : Ascii.eqb c "}" = false)
        by (apply Ascii.eqb_eq in Ho; subst c; reflexivity).
      rewrite Hc. replace (k + Z.of_nat d + 1 - 0)%Z with (k + Z.of_nat (S d))%Z by lia.
      destruct (Z.eqb_spec (k + Z.of_nat (S d)) 0); [lia|].
      rewrite (IH _ _ _ Hw Hk). destruct (scan_depth k rest); reflexivity.
    + destruct (Ascii.eqb c "}") eqn:Hc.
      * destruct d as [|d']; [discriminate|].
        replace (k + Z.of_nat (S d') + 0 - 1)%Z with (k + Z.of_nat d')%Z by lia.
        destruct (Z.eqb_spec (k + Z.of_nat d') 0); [lia|].
        rewrite (IH _ _ _ Hw Hk). destruct (scan_depth k rest); reflexivity.
      * replace (k + Z.of_nat d + 0 - 0)%Z with (k + Z.of_nat d)%Z by lia.
        destruct (Z.eqb_spec (k + Z.of_nat d) 0); [lia|].
        rewrite (IH _ _ _ Hw Hk). destruct (scan_depth k rest); reflexivity.
Qed.

Lemma scan_object b post :
  well_nested 0 b = true ->
  scan_depth 0 (String "{" (b +++ String "}" post)) = Some (S (String.length b + 1)).
Proof.
  intros Hw. rewrite scan_depth_cons. cbn.
  change 1%Z with (1 + Z.of_nat 0)%Z. rewrite (scan_nested b 0 1 _ Hw) by lia.
  reflexivity.
Qed.

Lemma take_through b c post :
  take (String.length b + 1) (b +++ String c post) = b +++ String c "".
Proof. induction b as [|d b IH]; simpl; [reflexivity | f_equal; exact IH]. Qed.

Lemma extract_json_wraps b text :
  well_nested 0 b = true -> wraps b text -> extract_json text = String "{" (b +++ "}").
Proof.
  intros Hn Hw. apply wraps_unfence in Hw. destruct Hw as (pre & post & Ht & Hpre).
  unfold extract_json. rewrite Ht, (find_app _ _ _ Hpre), drop_app, (scan_object _ _ Hn).
  replace (String.length pre + S (String.length b + 1) - String.length pre)
    with (S (String.length b + 1)) by lia.
  cbn [take]. rewrite take_through. reflexivity.
Qed.

End Fence.

(** X2.  A brace-balanced object is recovered from a reply whatever comes
    before it, as long as that has no opening brace (a role prefix, a code
    fence, prose), and whatever comes after it. *)
Theorem extract_json_object (pre b post : string) :
  StrPred.has_char "{" pre = false -> well_nested 0 b = true ->
  extract_json (pre +++ "{" +++ b +++ "}" +++ post) = "{" +++ b +++ "}".
Proof.
  intros Hpre Hb. apply (Fence.extract_json_wraps b); [exact Hb|].
  exists pre, post. split; [reflexivity | exact Hpre].
Qed.

(** A fenced reply with a nested object. *)
Lemma extract_json_object_witness :
  extract_json ("Assistant: ```json" +++ nl +++ "{" +++ "a: {b: 1}, c: {}" +++ "}" +++ nl +++ "```")
  = "{a: {b: 1}, c: {}}".
Proof.
  exact (extract_json_object ("Assistant: ```json" +++ nl) "a: {b: 1}, c: {}" (nl +++ "```")
           eq_refl eq_refl).
Defined.

(** Braces inside a string literal count like any other: the payload ends
    at the first brace that balances, here inside the value. *)
Example extract_json_counts_quoted_braces :
  extract_json "{'note': 'a } b'}" = "{'note': 'a }".
Proof. reflexivity. Qed.

(* ================================================================= *)
(** * The identifiers of a text *)

Module Ids.
Import Str StrPred StrFacts Text Payload.

Lemma word_run_spec s :
  all_chars is_word (word_run s) = true /\ exists rest, s = word_run s +++ rest.
Proof.
  induction s as [|c r (IH1 & rest & IH2)]; simpl.
  - split; [reflexivity | exists ""; reflexivity].
  - destruct (is_word c) eqn:Hc; simpl.
    + rewrite Hc, IH1. split; [reflexivity|]. exists rest. rewrite <- IH2. reflexivity.
    + split; [reflexivity|]. exists (String c r). reflexivity.
Qed.

Lemma startswith_split p : forall s, startswith p s = true -> s = p +++ drop (String.length p) s.
Proof.
  induction p as [|a p IH]; intros [|b s]; simpl; intros H; try reflexivity; try discriminate.
  apply andb_true_iff in H as [Hab Hs]. apply Ascii.eqb_eq in Hab. subst b.
  f_equal. apply IH, Hs.
Qed.

(** A match at the head: a prefix of the text made of one of the three
    markers and a run of word characters. *)
Lemma id_with_some p s m :
  id_with p s = Some m ->
  exists w rest, m = p +++ w /\ s = m +++ rest
                 /\ 1 <= String.length w /\ all_chars is_word w = true.
Proof.
  unfold id_with. destruct (startswith p s) eqn:Hs; [|discriminate].
  destruct (word_run_spec (drop (String.length p) s)) as (Hw & rest & Hr).
  destruct (word_run (drop (String.length p) s)) as [|c w] eqn:Hrun; [discriminate|].
  intros H. injection H as <-. exists (String c w), rest. repeat split.
  - rewrite app_assoc, <- Hr. apply startswith_split, Hs.
  - simpl. lia.
  - exact Hw.
Qed.

Lemma id_among_some ps s m :
  id_among ps s = Some m ->
  exists p w rest, In p ps /\ m = p +++ w /\ s = m +++ rest
                   /\ 1 <= String.length w /\ all_chars is_word w = true.
Proof.
  induction ps as [|p ps IH]; simpl; [discriminate|].
  destruct (id_with p s) as [m'|] eqn:Hp.
  - intros H. injection H as ->. destruct (id_with_some _ _ _ Hp) as (w & rest & H).
    exists p, w, rest. split; [left; reflexivity | exact H].
  - intros H. destruct (IH H) as (q & w & rest & Hin & H'). exists q, w, rest.
    split; [right; exact Hin | exact H'].
Qed.

(** Every match of the scan is a match at the head of a suffix. *)
Lemma findall_from_in m s : forall skip,
  In m (findall_from skip s) -> exists l r, s = l +++ r /\ id_at r = Some m.
Proof.
  induction s as [|c s IH]; intros skip H; [destruct H|].
  assert (Hrec : forall k, In m (findall_from k s) ->
                 exists l r, String c s = l +++ r /\ id_at r = Some m).
  { intros k Hk. destruct (IH _ Hk) as (l & r & -> & Hr).
    exists (String c l), r. split; [reflexivity | exact Hr]. }
  cbn [findall_from] in H. destruct skip as [|k]; [|exact (Hrec _ H)].
  destruct (id_at (String c s)) as [m'|] eqn:Hm; [|exact (Hrec _ H)].
  destruct H as [<- | H]; [|exact (Hrec _ H)].
  exists "", (String c s). split; [reflexivity | exact Hm].
Qed.

Lemma found_id m text :
  In m (findall_ids text) ->
  part_of m text
  /\ exists p w, In p id_prefixes /\ m = p +++ w
                 /\ 1 <= String.length w /\ all_chars is_word w = true.
Proof.
  intros H. destruct (findall_from_in _ _ _ H) as (l & r & -> & Hr).
  destruct (id_among_some _ _ _ Hr) as (p & w & rest & Hin & Hm & Hs & Hw).
  split; [exists l, rest; rewrite Hs; reflexivity|].
  exists p, w. auto.
Qed.

End Ids.

(** X3.  Every identifier that [re.findall] takes out of a text for
    [_extract_ids] is a contiguous part of the text and matches the
    pattern as a whole: one of the markers [proj_], [emp_], [cust_]
    followed by one or more word characters. *)
Theorem findall_ids_sound (text m : string) :
  In m (findall_ids text) -> part_of m text /\ Re.fullmatch ID_PATTERN m = true.
Proof.
  intros H. destruct (Ids.found_id _ _ H) as (Hp & p & w & Hin & -> & Hlen & Hw).
  split; [exact Hp|]. apply ReFacts.fullmatch_complete. unfold ID_PATTERN.
  assert (Hl : forall q, lang (Seq (Lit q) (Plus Word)) (q +++ w)).
  { intros q. constructor; [apply ReFacts.lang_Lit | apply ReFacts.lang_Plus_class; assumption]. }
  simpl in Hin. destruct Hin as [<- | [<- | [<- | []]]].
  - apply L_AltL, Hl.
  - apply L_AltR, L_AltL, Hl.
  - apply L_AltR, L_AltR, Hl.
Qed.

(** Two identifiers in a sentence. *)
Lemma findall_ids_sound_witness :
  In "emp_ana_kovac" (findall_ids "lead emp_ana_kovac of proj_acme-2.")
  /\ part_of "emp_ana_kovac" "lead emp_ana_kovac of proj_acme-2."
  /\ Re.fullmatch ID_PATTERN "emp_ana_kovac" = true.
Proof.
  assert (H : In "emp_ana_kovac" (findall_ids "lead emp_ana_kovac of proj_acme-2."))
    by (vm_compute; auto).
  split; [exact H|]. exact (findall_ids_sound _ _ H).
Defined.



(** The kind of a link goes by the markers the identifier contains, the
    project marker first: an employee identifier that has it is linked as
    a project. *)
Example link_of_employee_with_project_marker :
  findall_ids "ask emp_proj_lead" = ["emp_proj_lead"]
  /\ link_of "emp_proj_lead" = [mkLink "emp_proj_lead" "project"].
Proof. split; reflexivity. Qed.

(* ================================================================= *)
(** * Model selection *)

Module ConfigFacts.
Import Config.

(** The loop returns the first entry with the id, as [get_provider] does. *)
Lemma resolve_in_model options model_id choice mid p :
  resolve_in options model_id choice = Model mid p ->
  mid = model_id /\ In (mid, p) options /\ provider_in options mid = p.
Proof.
  induction options as [|[m q] rest IH]; simpl; [discriminate|].
  destruct (String.eqb m model_id) eqn:Hm.
  - intros H. injection H as <- <-. apply String.eqb_eq in Hm. subst model_id.
    rewrite String.eqb_refl. auto.
  - intros H. destruct (IH H) as (-> & Hin & Hp). rewrite Hm. auto.
Qed.

Lemma resolve_in_declared options choice mid p :
  In (mid, p) options -> provider_in options mid = p ->
  resolve_in options mid choice = Model mid p.
Proof.
  induction options as [|[m q] rest IH]; simpl; [tauto|].
  destruct (String.eqb m mid) eqn:Hm.
  - intros _ <-. apply String.eqb_eq in Hm. subst m. reflexivity.
  - intros [H | H] Hp; [injection H as -> ->; rewrite String.eqb_refl in Hm; discriminate|].
    apply IH; assumption.
Qed.

Lemma default_declared : In DEFAULT MODEL_OPTIONS /\ get_provider (fst DEFAULT) = snd DEFAULT.
Proof. split; [left; reflexivity | reflexivity]. Qed.

(** No declared id is an alias, nor empty. *)
Lemma declared_resolves mid p :
  In (mid, p) MODEL_OPTIONS -> get_provider mid = p -> resolve_model (Some mid) = Model mid p.
Proof.
  intros Hin Hp. simpl in Hin.
  destruct Hin as [H | [H | [H | [H | []]]]]; injection H as <- <-; reflexivity.
Qed.

End ConfigFacts.

(** X5.  Whatever is chosen, a model that [resolve_model] returns is one
    of the declared [MODEL_OPTIONS], with the provider that [get_provider]
    gives for it, and resolving its id again gives the same answer. *)
Theorem resolve_model_declared (choice : option string) (mid : string)
        (p : option Config.Provider) :
  Config.resolve_model choice = Config.Model mid p ->
  In (mid, p) Config.MODEL_OPTIONS
  /\ Config.get_provider mid = p
  /\ Config.resolve_model (Some mid) = Config.Model mid p.
Proof.
  intros H.
  assert (Hd : In (mid, p) Config.MODEL_OPTIONS /\ Config.get_provider mid = p).
  { unfold Config.resolve_model in H. destruct choice as [c|].
    - destruct (negb (Str.nonempty c)).
      + injection H as <- <-. exact ConfigFacts.default_declared.
      + apply ConfigFacts.resolve_in_model in H. tauto.
    - injection H as <- <-. exact ConfigFacts.default_declared. }
  destruct Hd as [Hin Hp]. repeat split; try assumption.
  apply ConfigFacts.declared_resolves; assumption.
Qed.

(** The alias of the Grok model, in capitals. *)
Lemma resolve_model_declared_witness :
  Config.resolve_model (Some "GROK") = Config.Model "x-ai/grok-4.1" None
  /\ In ("x-ai/grok-4.1", None) Config.MODEL_OPTIONS
  /\ Config.get_provider "x-ai/grok-4.1" = None
  /\ Config.resolve_model (Some "x-ai/grok-4.1") = Config.Model "x-ai/grok-4.1" None.
Proof.
  split; [reflexivity|].
  exact (resolve_model_declared (Some "GROK") "x-ai/grok-4.1" None eq_refl).
Defined.

(** X6.  Every alias of [MODEL_ALIASES] resolves, in any letter case, to
    the model it stands for, with the provider of that model. *)
Theorem resolve_model_alias (c alias target : string) :
  Config.lookup alias Config.MODEL_ALIASES = Some target ->
  Str.lower c = alias ->
  Config.resolve_model (Some c) = Config.Model target (Config.get_provider target).
Proof.
  intros Hl Hc. unfold Config.resolve_model.
  destruct c as [|x c].
  - simpl in Hc. subst alias. discriminate.
  - cbn [Str.nonempty negb]. rewrite Hc, Hl. clear Hc.
    unfold Config.MODEL_ALIASES in Hl. cbn [Config.lookup] in Hl.
    repeat match type of Hl with
           | (if ?b then _ else _) = _ =>
               destruct b; [injection Hl as <-; reflexivity|]
           end.
    discriminate.
Qed.

Lemma resolve_model_alias_witness :
  Config.lookup "gpt-4.1" Config.MODEL_ALIASES = Some "openai/gpt-4.1"
  /\ Str.lower "GPT-4.1" = "gpt-4.1"
  /\ Config.resolve_model (Some "GPT-4.1") = Config.Model "openai/gpt-4.1" None.
Proof.
  split; [reflexivity | split; [reflexivity|]].
  exact (resolve_model_alias "GPT-4.1" "gpt-4.1" "openai/gpt-4.1" eq_refl eq_refl).
Defined.

(** The ids themselves are matched as they are written: in another case
    a declared id is refused. *)
Example resolve_model_id_case :
  Config.resolve_model (Some "openai/gpt-4.1") = Config.Model "openai/gpt-4.1" None
  /\ exists msg, Config.resolve_model (Some "OpenAI/GPT-4.1") = Config.ValueError msg.
Proof. split; [reflexivity | eexists; reflexivity]. Qed.

(* ================================================================= *)
(** * Search variations *)


(* ================================================================= *)
(** * The tasks picked on the command line *)

Section SelectionFacts.

Variable Task : Type.
Variable Task_eq_dec : forall a b : Task, {a = b} + {a <> b}.
Variable task_id : Task -> string.
Variable spec_id : Task -> string.
Variable isdigit : string -> bool.
Variable int : string -> option Z.

Local Abbreviation has := (selected_has Task Task_eq_dec).
Local Abbreviation named := (select_named Task Task_eq_dec task_id spec_id).
Local Abbreviation one := (select_one Task Task_eq_dec task_id spec_id isdigit int).
Local Abbreviation each := (select_each Task Task_eq_dec task_id spec_id isdigit int).
Local Abbreviation picked := (picks Task task_id spec_id isdigit int).
Local Abbreviation unreadable := (unreadable isdigit int).

Lemma selected_has_true task selected : has task selected = true <-> In task selected.
Proof. unfold selected_has. destruct (in_dec _ _ _); split; auto; discriminate. Qed.

(** Appending a task that is not there. *)
Lemma add_new task selected :
  NoDup selected ->
  NoDup (if negb (has task selected) then selected ++ [task] else selected)
  /\ forall t, In t (if negb (has task selected) then selected ++ [task] else selected)
               <-> In t selected \/ t = task.
Proof.
  intros Hnd. destruct (has task selected) eqn:Hh; cbn [negb].
  - apply selected_has_true in Hh. split; [exact Hnd|].
    intros t. split; [auto | intros [H | ->]; assumption].
  - assert (Hn : ~ In task selected)
      by (intros Hin; apply selected_has_true in Hin; congruence).
    split.
    + apply NoDup_app; [exact Hnd | repeat constructor; intros [] |].
      intros x Hx [<- | []]. exact (Hn Hx).
    + intros t. rewrite in_app_iff. simpl. intuition congruence.
Qed.

Lemma select_named_spec token tasks : forall selected,
  NoDup selected ->
  NoDup (named token tasks selected)
  /\ forall t, In t (named token tasks selected)
               <-> In t selected \/ (In t tasks /\ (task_id t = token \/ spec_id t = token)).
Proof.
  induction tasks as [|task rest IH]; intros selected Hnd; cbn [select_named].
  - split; [exact Hnd | intros t; simpl; tauto].
  - destruct (String.eqb_spec (task_id task) token) as [Hi | Hi];
      destruct (String.eqb_spec (spec_id task) token) as [Hs | Hs]; cbn [orb andb];
      try (destruct (add_new task selected Hnd) as [Hnd' Hin'];
           destruct (has task selected) eqn:Hh; cbn [negb] in *;
           destruct (IH _ Hnd') as [H1 H2] || destruct (IH _ Hnd) as [H1 H2];
           (split; [exact H1|]); intros t; rewrite H2; try rewrite Hin'; simpl;
           apply selected_has_true in Hh || idtac;
           intuition (subst; auto)).
    destruct (IH _ Hnd) as [H1 H2]. split; [exact H1|]. intros t. rewrite H2. simpl.
    intuition (subst; tauto).
Qed.

Lemma nth_error_beyond (l : list Task) n : List.length l <= n -> nth_error l n = None.
Proof. apply nth_error_None. Qed.

(** One selector: it raises when it is unreadable, and adds what it picks
    otherwise. *)
Lemma select_one_spec all_tasks selected sel :
  NoDup selected ->
  match one all_tasks selected sel with
  | None => unreadable sel
  | Some selected' =>
      ~ unreadable sel /\ NoDup selected'
      /\ forall t, In t selected' <-> In t selected \/ picked all_tasks sel t
  end.
Proof.
  intros Hnd. unfold select_one, picks, unreadable. cbv zeta.
  destruct (isdigit (Str.strip sel)).
  2:{ split; [intros [H _]; discriminate H|]. apply select_named_spec, Hnd. }
  destruct (int (Str.strip sel)) as [idx|]; [|split; reflexivity].
  assert (Hr : ~ (true = true /\ Some idx = None)) by (intros [_ H]; discriminate H).
  destruct (Z.leb_spec 1 idx) as [H1 | H1]; cbn [andb].
  - destruct (Z.leb_spec idx (Z.of_nat (List.length all_tasks))) as [H2 | H2].
    + destruct (nth_error all_tasks (Z.to_nat (idx - 1))) as [task|] eqn:Hn.
      * destruct (add_new task selected Hnd) as [Ha Hb]. split; [exact Hr|]. split; [exact Ha|].
        intros t. rewrite Hb. split.
        -- intros [H | ->]; [auto|]. right. exists idx. auto.
        -- intros [H | (i & Hi & _ & Ht)]; [auto|]. right. congruence.
      * split; [exact Hr|]. split; [exact Hnd|]. intros t. split; [auto|].
        intros [H | (i & Hi & _ & Ht)]; [exact H | congruence].
    + split; [exact Hr|]. split; [exact Hnd|]. intros t. split; [auto|].
      intros [H | (i & Hi & _ & Ht)]; [exact H|].
      injection Hi as <-.
      rewrite (nth_error_beyond all_tasks (Z.to_nat (idx - 1))) in Ht by lia. discriminate Ht.
  - split; [exact Hr|]. split; [exact Hnd|]. intros t. split; [auto|].
    intros [H | (i & Hi & Hle & _)]; [exact H|]. injection Hi as <-. lia.
Qed.

(** The loop: it raises exactly when a selector is unreadable. *)
Lemma select_each_spec all_tasks sels : forall selected,
  NoDup selected ->
  match each all_tasks sels selected with
  | None => exists sel, In sel sels /\ unreadable sel
  | Some selected' =>
      (forall sel, In sel sels -> ~ unreadable sel) /\ NoDup selected'
      /\ forall t, In t selected'
                   <-> In t selected \/ exists sel, In sel sels /\ picked all_tasks sel t
  end.
Proof.
  induction sels as [|sel sels IH]; intros selected Hnd; cbn [select_each].
  - split; [intros ? []|]. split; [exact Hnd|].
    intros t. simpl. split; [auto | intros [H | (s & [] & _)]; exact H].
  - pose proof (select_one_spec all_tasks selected sel Hnd) as H1.
    destruct (one all_tasks selected sel) as [selected1|].
    2:{ exists sel. split; [left; reflexivity | exact H1]. }
    destruct H1 as (Hr1 & Hnd1 & Hin1). specialize (IH _ Hnd1).
    destruct (each all_tasks sels selected1) as [selected2|].
    + destruct IH as (Hr2 & Hnd2 & Hin2). split; [|split; [exact Hnd2|]].
      * intros s [<- | Hs]; auto.
      * intros t. rewrite Hin2, Hin1. simpl. split.
        -- intros [[H | H] | (s & Hs & Hp)]; eauto.
        -- intros [H | (s & [<- | Hs] & Hp)]; eauto.
    + destruct IH as (s & Hs & Hu). exists s. split; [right; exact Hs | exact Hu].
Qed.

(** A picked task is one of the tasks. *)
Lemma picked_in all_tasks sel t : picked all_tasks sel t -> In t all_tasks.
Proof.
  unfold picks. cbv zeta. destruct (isdigit _).
  - intros (idx & _ & _ & H). eapply nth_error_In, H.
  - tauto.
Qed.

End SelectionFacts.





(** A superscript two is a digit text that [int] does not read: the
    selection raises, whatever the other selectors pick. *)
Example select_task_subset_unreadable :
  let isdigit s := Sample2.ascii_isdigit s || String.eqb s "²" in
  select_task_subset Sample2.TaskInfo Sample2.TaskInfo_eq_dec Sample2.t_task_id Sample2.t_spec_id
    isdigit Sample2.ascii_int Sample2.tasks (Some ["1"; "²"]) = None.
Proof. reflexivity. Qed.

(* ================================================================= *)
(** * Values of the trace *)

Module Trace.
Import Str StrFacts Text Bounds.

(** Induction on values, through lists and dictionaries. *)
Lemma Value_induction (P : Value -> Prop) :
  (forall s, P (VStr s)) ->
  (forall l, Forall P l -> P (VList l)) ->
  (forall d, Forall (fun kv => P (snd kv)) d -> P (VDict d)) ->
  (forall x, P (VScalar x)) ->
  forall v, P v.
Proof.
  intros Hs Hl Hd Hx. fix IH 1. intros [s|l|d|x].
  - apply Hs.
  - apply Hl. revert l. fix IHl 1. intros [|v l]; constructor; [apply IH | apply IHl].
  - apply Hd. revert d. fix IHd 1. intros [|kv d]; constructor; [apply IH | apply IHd].
  - apply Hx.
Qed.

Lemma code_points_le s : code_points s <= String.length s.
Proof.
  induction s as [|c s IH]; simpl; [lia|]. destruct (is_continuation c); lia.
Qed.

Lemma code_points_app a b : code_points (a +++ b) = code_points a + code_points b.
Proof.
  induction a as [|c a IH]; simpl; [reflexivity|].
  destruct (is_continuation c); rewrite IH; reflexivity.
Qed.

(** The text branch: [n] characters at most, the ellipsis included. *)
Lemma truncate_text_bound s max_len :
  (1 <= max_len)%Z -> code_points (truncate_text s max_len) <= Z.to_nat max_len.
Proof.
  intros Hn. unfold truncate_text.
  destruct (Z.leb_spec (Z.of_nat (String.length s)) max_len) as [Hle | Hgt].
  - pose proof (code_points_le s). lia.
  - unfold slice_to. destruct (Z.leb_spec 0 (max_len - 1)) as [_ | Hneg]; [|lia].
    rewrite code_points_app. change (code_points "…") with 1.
    pose proof (code_points_le (take (Z.to_nat (max_len - 1)) s)).
    pose proof (length_take (Z.to_nat (max_len - 1)) s). lia.
Qed.

Section TrimFacts.

Variable each : Value -> Value.
Variable note : string.

Lemma trim_length items : forall idx,
  idx <= 50 -> List.length (trim each note idx items) <= 51 - idx.
Proof.
  induction items as [|item rest IH]; intros idx Hi; cbn [trim List.length]; [lia|].
  destruct (Nat.leb_spec 50 idx); cbn [List.length]; [lia|].
  specialize (IH (S idx)). lia.
Qed.

Lemma trim_upto (p : Value -> bool) items : forall idx,
  Forall (fun v => p (each v) = true) items -> idx <= 50 ->
  all_upto p (50 - idx) (trim each note idx items) = true.
Proof.
  induction items as [|item rest IH]; intros idx Hall Hi; cbn [trim].
  - destruct (50 - idx); reflexivity.
  - inversion Hall as [|? ? Hp Hrest]; subst.
    destruct (Nat.leb_spec 50 idx).
    + replace (50 - idx) with 0 by lia. reflexivity.
    + replace (50 - idx) with (S (50 - S idx)) by lia. cbn [all_upto].
      rewrite Hp, (IH (S idx) Hrest) by lia. reflexivity.
Qed.

(** The loop as a whole: the first fifty items go through [each], and the
    note follows when there are more. *)
Lemma trim_firstn items : forall idx,
  idx <= 50 ->
  trim each note idx items
  = map each (firstn (50 - idx) items)
    ++ (if 50 - idx <? List.length items then [VStr note] else []).
Proof.
  induction items as [|item rest IH]; intros idx Hi; cbn [trim].
  - rewrite firstn_nil. reflexivity.
  - destruct (Nat.leb_spec 50 idx).
    + replace (50 - idx) with 0 by lia. reflexivity.
    + replace (50 - idx) with (S (50 - S idx)) by lia.
      cbn [firstn map List.length app]. rewrite IH by lia.
      change (S (50 - S idx) <? S (List.length rest)) with (50 - S idx <? List.length rest).
      reflexivity.
Qed.

(** The 51st item, if there is one, is the note. *)
Lemma trim_note items :
  match nth_error (trim each note 0 items) 50 with
  | Some item => item = VStr note
  | None => True
  end.
Proof.
  rewrite trim_firstn by lia. change (50 - 0) with 50.
  destruct (Nat.ltb_spec 50 (List.length items)) as [Hlt | Hge].
  - rewrite nth_error_app2; rewrite length_map, length_firstn;
      replace (Nat.min 50 (List.length items)) with 50 by lia; [|lia].
    rewrite Nat.sub_diag. reflexivity.
  - rewrite List.app_nil_r.
    rewrite (proj2 (nth_error_None _ 50)); [exact I|].
    rewrite length_map, length_firstn. lia.
Qed.

(** Fifty items or fewer all go through. *)
Lemma trim_short items : forall idx,
  idx + List.length items <= 50 -> trim each note idx items = map each items.
Proof.
  induction items as [|item rest IH]; intros idx Hi; cbn [trim map]; [reflexivity|].
  cbn [List.length] in Hi. destruct (Nat.leb_spec 50 idx); [lia|].
  rewrite IH by lia. reflexivity.
Qed.

End TrimFacts.

Lemma endswith_app x suffix : endswith suffix (x +++ suffix) = true.
Proof.
  unfold endswith, last_chars. rewrite StrFacts.length_app.
  replace (String.length x + String.length suffix - String.length suffix)
    with (String.length x) by lia.
  rewrite Payload.drop_app. apply String.eqb_refl.
Qed.

Lemma note_is_note n : is_note (VStr (trimmed_note n)) = true.
Proof.
  unfold is_note, trimmed_note. apply andb_true_iff. split.
  - apply (StrFacts.startswith_app "... trimmed " "... trimmed "). reflexivity.
  - rewrite <- StrFacts.app_assoc. apply endswith_app.
Qed.

Lemma map_same {A} (f : A -> A) l : Forall (fun x => f x = x) l -> map f l = l.
Proof. induction 1 as [|x l Hx _ IH]; simpl; [reflexivity | rewrite Hx, IH; reflexivity]. Qed.

End Trace.

(** X10.  What [_truncate_value] returns for a list is the first fifty
    items, each one truncated, followed when the list has more by the note
    that counts the items left out.  For a positive [max_len] the result
    is bounded all the way down: every list under it has 51 items at most,
    of which the 51st is such a note, and every other text has [max_len]
    characters at most. *)
Theorem truncate_value_bounded (value : Value) (max_len : Z) :
  ((1 <= max_len)%Z -> bounded (Z.to_nat max_len) (_truncate_value value max_len) = true)
  /\ forall items,
       value = VList items ->
       _truncate_value value max_len
       = VList (map (fun item => _truncate_value item max_len) (firstn 50 items)
                ++ (if 50 <? List.length items
                    then [VStr ("... trimmed " +++ Str.of_nat (List.length items - 50)
                                +++ " items ...")]
                    else [])).
Proof.
  split.
  - intros Hn. induction value as [s | l IH | d IH | x] using Trace.Value_induction;
      cbn [_truncate_value bounded].
    + apply Nat.leb_le, Trace.truncate_text_bound, Hn.
    + apply andb_true_iff. split; [apply andb_true_iff; split|].
      * apply Nat.leb_le.
        pose proof (Trace.trim_length (fun item => _truncate_value item max_len)
                      (trimmed_note (List.length l)) l 0). lia.
      * apply (Trace.trim_upto _ _ (bounded (Z.to_nat max_len)) l 0); [exact IH | lia].
      * pose proof (Trace.trim_note (fun item => _truncate_value item max_len)
                      (trimmed_note (List.length l)) l) as Hnote.
        destruct (nth_error _ 50) as [item|]; [|reflexivity].
        rewrite Hnote. apply Trace.note_is_note.
    + induction IH as [|kv d Hkv _ IHd]; cbn [map forallb]; [reflexivity|].
      cbn [snd]. rewrite Hkv. exact IHd.
    + reflexivity.
  - intros items ->. cbn [_truncate_value]. f_equal.
    apply (Trace.trim_firstn _ _ items 0). lia.
Qed.

(** A record cut to four characters. *)
Lemma truncate_value_bounded_witness :
  _truncate_value Sample2.record 4
  = VDict [("raw", VStr "012…"); ("ids", VList [VStr "pro…"; VScalar (SInt 7)])]
  /\ bounded 4 (_truncate_value Sample2.record 4) = true.
Proof.
  split; [reflexivity|].
  exact (proj1 (truncate_value_bounded Sample2.record 4) ltac:(lia)).
Defined.

(** X11.  A value that is small already comes back as it is: with every
    text within [max_len] and every list within fifty items, at every
    depth, [_truncate_value] changes nothing. *)
Theorem truncate_value_fits (value : Value) (max_len : Z) :
  fits max_len value = true -> _truncate_value value max_len = value.
Proof.
  induction value as [s | l IH | d IH | x] using Trace.Value_induction;
    cbn [_truncate_value fits]; intros Hf.
  - unfold truncate_text. rewrite Hf. reflexivity.
  - apply andb_true_iff in Hf as [Hlen Hall]. apply Nat.leb_le in Hlen.
    rewrite Trace.trim_short by (simpl; lia). f_equal. apply Trace.map_same.
    rewrite forallb_forall in Hall. rewrite Forall_forall in IH |- *.
    intros v Hv. apply IH; [exact Hv | apply Hall, Hv].
  - f_equal. induction IH as [|[k v] d Hkv _ IHd]; cbn [map]; [reflexivity|].
    cbn [forallb] in Hf. apply andb_true_iff in Hf as [Hv Hd].
    cbn [fst snd] in *. rewrite (Hkv Hv), (IHd Hd). reflexivity.
  - reflexivity.
Qed.

Lemma truncate_value_fits_witness :
  fits 10 Sample2.record = true /\ _truncate_value Sample2.record 10 = Sample2.record.
Proof.
  split; [reflexivity|]. exact (truncate_value_fits Sample2.record 10 eq_refl).
Defined.

(** Without that, a list of 51 items is not left alone, and a second pass
    rewrites the note of the first. *)
Example truncate_value_long_list :
  let l := repeat (VScalar SNone) 52 in
  _truncate_value (VList l) 10
  = VList (repeat (VScalar SNone) 50 ++ [VStr "... trimmed 2 items ..."])
  /\ _truncate_value (_truncate_value (VList l) 10) 10
     = VList (repeat (VScalar SNone) 50 ++ [VStr "... trimmed 1 items ..."]).
Proof. split; reflexivity. Qed.

(* ================================================================= *)
(** * Short texts for the console *)

Module Short.
Import Str StrFacts Text Bounds.

Lemma take_length_ge n : forall s, n <= String.length s -> String.length (take n s) = n.
Proof.
  induction n as [|n IH]; intros [|c s]; simpl; intros H; try lia. rewrite IH; lia.
Qed.

Lemma take_take_app n : forall s x, n <= String.length s -> take n (take n s +++ x) = take n s.
Proof.
  induction n as [|n IH]; intros [|c s] x; simpl; intros H; try lia.
  - destruct x; reflexivity.
  - reflexivity.
  - f_equal. apply IH. lia.
Qed.

End Short.

(** X12.  For a limit of 1 or more, [_short] returns [limit] characters
    at most, a text within the limit as it is, and shortening twice is
    shortening once. *)
Theorem short_bounded (text : string) (limit : nat) :
  1 <= limit ->
  Text.code_points (_short text limit) <= limit
  /\ (String.length text <= limit -> _short text limit = text)
  /\ _short (_short text limit) limit = _short text limit.
Proof.
  intros Hl.
  destruct (Nat.leb_spec (String.length text) limit) as [Hle | Hgt].
  - assert (E : _short text limit = text)
      by (unfold _short; apply Nat.leb_le in Hle; rewrite Hle; reflexivity).
    rewrite !E. pose proof (Trace.code_points_le text).
    split; [lia | split; reflexivity].
  - assert (E : _short text limit = Str.take (limit - 1) text +++ "…")
      by (unfold _short; apply Nat.leb_gt in Hgt; rewrite Hgt; reflexivity).
    rewrite !E. split; [|split; [lia|]].
    + rewrite Trace.code_points_app. change (Text.code_points "…") with 1.
      pose proof (Trace.code_points_le (Str.take (limit - 1) text)).
      pose proof (Bounds.length_take (limit - 1) text). lia.
    + unfold _short. rewrite StrFacts.length_app, Short.take_length_ge by lia.
      change (String.length "…") with 3.
      destruct (Nat.leb_spec (limit - 1 + 3) limit); [lia|].
      rewrite Short.take_take_app by lia. reflexivity.
Qed.

Lemma short_bounded_witness :
  _short "Logged 3 hours on proj_acme" 10 = "Logged 3 …"
  /\ Text.code_points (_short "Logged 3 hours on proj_acme" 10) <= 10.
Proof.
  split; [reflexivity|].
  exact (proj1 (short_bounded "Logged 3 hours on proj_acme" 10 ltac:(lia))).
Defined.

(* ================================================================= *)
(** * The class of an error *)

Module Classify.
Import Str StrFacts.

Lemma any_in_embedded ws a t b :
  any_in ws (lower t) = true -> any_in ws (lower (a +++ (t +++ b))) = true.
Proof.
  unfold any_in. rewrite !existsb_exists. intros (w & Hin & Hc). exists w. split; [exact Hin|].
  rewrite !Fence.lower_app. apply contains_infix, Hc.
Qed.

(** The classes are tried in the order of the table. *)
Lemma classify_cases :
  exists L1 L2 L3, forall text,
    _classify_error text
    = if any_in L1 (lower text) then permission
      else if any_in L2 (lower text) then system
      else if any_in L3 (lower text) then not_found
      else other.
Proof.
  exists (snd (hd (other, []) ERROR_CLASSES)),
         (snd (hd (other, []) (tl ERROR_CLASSES))),
         (snd (hd (other, []) (tl (tl ERROR_CLASSES)))).
  intros text. unfold _classify_error, ERROR_CLASSES. cbn [find snd fst hd tl].
  repeat match goal with |- context [if ?c then _ else _] => destruct c end; reflexivity.
Qed.

End Classify.

(** X13.  Text around an error message never lowers its class: the
    message inside a longer text is classified as before, or in a class
    that [_classify_error] tries earlier (permission, then system, then
    not found).  In particular it does not become [other]. *)
Theorem classify_error_embedded (a t b : string) :
  ErrClass_rank (_classify_error (a +++ t +++ b)) <= ErrClass_rank (_classify_error t).
Proof.
  destruct Classify.classify_cases as (L1 & L2 & L3 & H). rewrite !H.
  pose proof (Classify.any_in_embedded L1 a t b) as M1.
  pose proof (Classify.any_in_embedded L2 a t b) as M2.
  pose proof (Classify.any_in_embedded L3 a t b) as M3.
  destruct (any_in L1 (Str.lower t)); [rewrite (M1 eq_refl); simpl; lia|].
  destruct (any_in L2 (Str.lower t));
    [rewrite (M2 eq_refl); destruct (any_in L1 _); simpl; lia|].
  destruct (any_in L3 (Str.lower t));
    [rewrite (M3 eq_refl); destruct (any_in L1 _), (any_in L2 _); simpl; lia|].
  destruct (any_in L1 _), (any_in L2 _), (any_in L3 _); simpl; lia.
Qed.

(** The indicators are looked for anywhere, inside numbers too. *)
Example classify_error_inside_number :
  _classify_error "Salary 150000 is above the band" = system.
Proof. reflexivity. Qed.

(* ================================================================= *)
(** * Regular expressions: what the matcher finds is a word of the pattern *)

Module ReSound.
Import Re StrFacts ReFacts.

Lemma nullable_lang r : nullable r = true -> lang r "".
Proof.
  induction r as [| | p | r1 IH1 r2 IH2 | r1 IH1 r2 IH2 | r IH]; cbn; intros H;
    try discriminate.
  - constructor.
  - apply andb_prop in H as [H1 H2]. change "" with ("" +++ "").
    constructor; auto.
  - apply orb_prop in H as [H | H]; [apply L_AltL | apply L_AltR]; auto.
  - constructor.
Qed.

Lemma seq_lang r1 r2 s : lang (seq r1 r2) s -> lang (Seq r1 r2) s.
Proof.
  unfold seq. intros H.
  destruct r1; try (exfalso; exact (lang_Void _ H));
    destruct r2; try (exfalso; exact (lang_Void _ H)); try exact H;
    change s with ("" +++ s); constructor; (exact H || constructor).
Qed.

Lemma alt_lang r1 r2 s : lang (alt r1 r2) s -> lang (Alt r1 r2) s.
Proof.
  unfold alt. intros H.
  destruct r1; destruct r2; try exact H;
    try (apply L_AltR; exact H); try (apply L_AltL; exact H).
Qed.

Lemma Seq_inv r1 r2 s :
  lang (Seq r1 r2) s -> exists s1 s2, s = s1 +++ s2 /\ lang r1 s1 /\ lang r2 s2.
Proof. intros H. inversion H; subst. eauto. Qed.

Lemma Alt_inv r1 r2 s : lang (Alt r1 r2) s -> lang r1 s \/ lang r2 s.
Proof. intros H. inversion H; subst; auto. Qed.

Lemma deriv_lang r : forall c s, lang (deriv c r) s -> lang r (String c s).
Proof.
  induction r as [| | p | r1 IH1 r2 IH2 | r1 IH1 r2 IH2 | r IH]; intros c s H; cbn [deriv] in H.
  - inversion H.
  - inversion H.
  - destruct (p c) eqn:Hp; inversion H; subst. constructor. exact Hp.
  - assert (Hl : lang (seq (deriv c r1) r2) s -> lang (Seq r1 r2) (String c s)).
    { intros Hs. apply seq_lang, Seq_inv in Hs as (s1 & s2 & -> & H1 & H2).
      change (String c (s1 +++ s2)) with (String c s1 +++ s2). constructor; auto. }
    destruct (nullable r1) eqn:Hn; [|auto].
    apply alt_lang, Alt_inv in H as [H | H]; [auto|].
    change (String c s) with ("" +++ String c s). constructor; [apply nullable_lang, Hn | auto].
  - apply alt_lang, Alt_inv in H as [H | H]; [apply L_AltL | apply L_AltR]; auto.
  - apply seq_lang, Seq_inv in H as (s1 & s2 & -> & H1 & H2).
    change (String c (s1 +++ s2)) with (String c s1 +++ s2). constructor; auto.
Qed.

(** Soundness of the matcher. *)
Lemma fullmatch_sound : forall s r, fullmatch r s = true -> lang r s.
Proof.
  induction s as [|c s IH]; intros r H; cbn in H.
  - apply nullable_lang, H.
  - apply deriv_lang, IH, H.
Qed.

Lemma Class_inv p s : lang (Class p) s -> exists c, s = String c "" /\ p c = true.
Proof. intros H. inversion H; subst. eauto. Qed.

Lemma Eps_inv s : lang Eps s -> s = "".
Proof. intros H. inversion H. reflexivity. Qed.

Lemma Lit_inv p : forall s, lang (Lit p) s -> s = p.
Proof.
  induction p as [|c p IH]; intros s H; cbn in H.
  - apply Eps_inv, H.
  - apply Seq_inv in H as (s1 & s2 & -> & H1 & H2).
    apply Class_inv in H1 as (d & -> & Hd). apply Ascii.eqb_eq in Hd. subst d.
    rewrite (IH _ H2). reflexivity.
Qed.

Lemma Star_class_inv p s : lang (Star (Class p)) s -> all_chars p s = true.
Proof.
  intros H. remember (Star (Class p)) as r eqn:Hr.
  induction H as [|? ? ?|? ? ? ? ? ? ? ?|? ? ? ? ?|? ? ? ? ?|?|r0 s1 s2 H1 _ H2 IH2];
    try discriminate; [reflexivity|].
  injection Hr as ->. apply Class_inv in H1 as (c & -> & Hc). simpl. rewrite Hc. auto.
Qed.

Lemma Plus_class_inv p s :
  lang (Plus (Class p)) s -> 1 <= String.length s /\ all_chars p s = true.
Proof.
  intros H. apply Seq_inv in H as (s1 & s2 & -> & H1 & H2).
  apply Class_inv in H1 as (c & -> & Hc). apply Star_class_inv in H2.
  simpl. rewrite Hc, H2. split; [lia | reflexivity].
Qed.

Lemma UpTo_class_inv p : forall n s,
  lang (UpTo n (Class p)) s -> String.length s <= n /\ all_chars p s = true.
Proof.
  induction n as [|n IH]; intros s H; cbn [UpTo] in H.
  - apply Eps_inv in H. subst. split; [simpl; lia | reflexivity].
  - apply Alt_inv in H as [H | H].
    + apply Seq_inv in H as (s1 & s2 & -> & H1 & H2).
      apply Class_inv in H1 as (c & -> & Hc). destruct (IH _ H2) as [Hl Ha].
      simpl. rewrite Hc, Ha. split; [lia | reflexivity].
    + apply Eps_inv in H. subst. split; [simpl; lia | reflexivity].
Qed.

Lemma Between_1_inv p n s :
  lang (Between 1 n (Class p)) s -> 1 <= String.length s <= 1 + (n - 1) /\ all_chars p s = true.
Proof.
  unfold Between. cbn [Rep]. intros H.
  apply Seq_inv in H as (s1 & s2 & -> & H1 & H2).
  apply Seq_inv in H1 as (s3 & s4 & -> & H3 & H4).
  apply Class_inv in H3 as (c & -> & Hc). apply Eps_inv in H4. subst s4.
  destruct (UpTo_class_inv _ _ _ H2) as [Hl Ha].
  simpl. rewrite Hc, Ha. split; [lia | reflexivity].
Qed.

(** [^r$]: the pattern, and a newline at the end or none. *)
Lemma match_anchored_sound r s :
  match_anchored r s = true -> exists x, lang r x /\ (s = x \/ s = x +++ nl).
Proof.
  unfold match_anchored. intros H. apply fullmatch_sound, Seq_inv in H as (x & y & -> & Hx & Hy).
  exists x. split; [exact Hx|]. apply Alt_inv in Hy as [Hy | Hy].
  - apply Class_inv in Hy as (c & -> & Hc). apply Ascii.eqb_eq in Hc. subst c. right. reflexivity.
  - apply Eps_inv in Hy. subst y. left. apply app_nil_r.
Qed.

Lemma match_anchored_newline r x : lang r x -> match_anchored r (x +++ nl) = true.
Proof.
  intros H. unfold match_anchored. apply fullmatch_complete. constructor; [exact H|].
  apply L_AltL. constructor. reflexivity.
Qed.

End ReSound.

Module Fabricated.
Import Re Str StrFacts ReFacts ReSound.

(** The two patterns of the heuristic. *)
Lemma numbered_lang x :
  lang (Cat [Alt (Lit "proj") (Alt (Lit "emp") (Lit "cust")); Chr "_"%char; Between 1 5 Digit]) x
  <-> exists p ds, In p ["proj"; "emp"; "cust"] /\ x = p +++ "_" +++ ds
                   /\ 1 <= String.length ds <= 5 /\ all_chars is_digit ds = true.
Proof.
  cbn [Cat]. split.
  - intros H. apply Seq_inv in H as (p & r & -> & Hp & Hr).
    apply Seq_inv in Hr as (u & ds & -> & Hu & Hds).
    apply Class_inv in Hu as (c & -> & Hc). apply Ascii.eqb_eq in Hc. subst c.
    apply Between_1_inv in Hds as [Hl Ha].
    exists p, ds. split; [|split; [reflexivity | split; [simpl in Hl; lia | exact Ha]]].
    apply Alt_inv in Hp as [Hp | Hp]; [apply Lit_inv in Hp; subst; simpl; auto|].
    apply Alt_inv in Hp as [Hp | Hp]; apply Lit_inv in Hp; subst; simpl; auto.
  - intros (p & ds & Hin & -> & Hl & Ha). constructor.
    + simpl in Hin. destruct Hin as [<- | [<- | [<- | []]]].
      * apply L_AltL, lang_Lit.
      * apply L_AltR, L_AltL, lang_Lit.
      * apply L_AltR, L_AltR, lang_Lit.
    + change ("_" +++ ds) with (String "_" "" +++ ds). constructor.
      * constructor. reflexivity.
      * apply lang_Between_1; [exact Ha | lia].
Qed.

Lemma lettered_lang x :
  lang (Seq (Lit "emp_") (Plus LowerAZ)) x
  <-> exists ls, x = "emp_" +++ ls /\ 1 <= String.length ls /\ all_chars is_lower ls = true.
Proof.
  split.
  - intros H. apply Seq_inv in H as (p & ls & -> & Hp & Hls).
    apply Lit_inv in Hp. subst p. apply Plus_class_inv in Hls. exists ls. tauto.
  - intros (ls & -> & Hl & Ha). constructor; [apply lang_Lit | apply lang_Plus_class; assumption].
Qed.

Lemma fabricated_nonempty id : fabricated_id id -> exists c r, id = String c r.
Proof.
  intros [(p & ds & Hin & -> & _) | (ls & -> & _)]; [|eexists; eexists; reflexivity].
  simpl in Hin. destruct Hin as [<- | [<- | [<- | []]]]; eexists; eexists; reflexivity.
Qed.

End Fabricated.


(** Identifiers as the platform gives them are not flagged; one with a
    newline after it is. *)
Example looks_hallucinated_samples :
  _looks_hallucinated "proj_acme_01" = false
  /\ _looks_hallucinated "emp_ana_kovac" = false
  /\ _looks_hallucinated "cust_nordic" = false
  /\ _looks_hallucinated "proj_123456" = false
  /\ _looks_hallucinated ("emp_7" +++ nl) = true.
Proof. repeat split. Qed.

(* ================================================================= *)
(** * What memory does not keep *)

Module Notes.
Import Str StrPred StrFacts Compress.

(** A pattern free of [c] that starts before a [c] ends before it. *)
Lemma startswith_before p : forall a c b,
  has_char c p = false -> startswith p (a +++ String c b) = true -> startswith p a = true.
Proof.
  induction p as [|x p IH]; intros a c b Hc H; [destruct a; reflexivity|].
  simpl in Hc. apply orb_false_elim in Hc as [Hx Hp].
  destruct a as [|y a]; simpl in H |- *.
  - apply andb_true_iff in H as [H _]. congruence.
  - apply andb_true_iff in H as [Hxy H]. rewrite Hxy. exact (IH _ _ _ Hp H).
Qed.

Lemma contains_across p : forall a c b,
  has_char c p = false -> contains p (a +++ String c b) = true ->
  contains p a = true \/ contains p b = true.
Proof.
  intros a c b Hc. induction a as [|y a IH]; intros H.
  - simpl append in H. rewrite contains_cons in H. apply orb_prop in H as [H | H]; [|auto].
    left. apply (startswith_before p "" c b Hc) in H. destruct p; [reflexivity | discriminate].
  - change (String y a +++ String c b) with (String y (a +++ String c b)) in H.
    rewrite contains_cons in H. apply orb_prop in H as [H | H].
    + left. rewrite contains_cons.
      apply (startswith_before p (String y a) c b Hc) in H. rewrite H. reflexivity.
    + destruct (IH H) as [Ha | Hb]; [|auto]. left. rewrite contains_cons, Ha.
      apply orb_true_r.
Qed.

Lemma join_no_ERR L : Forall clean_fragment L -> contains "ERR" (join " | " L) = false.
Proof.
  induction 1 as [|l L Hl HL IH]; [reflexivity|].
  destruct Hl as (_ & _ & _ & _ & Hl).
  destruct L as [|l2 L]; [exact Hl|]. rewrite join_cons2.
  destruct (contains "ERR" (l +++ " | " +++ join " | " (l2 :: L))) eqn:Hc; [|reflexivity].
  apply (contains_across "ERR" l " " _ eq_refl) in Hc as [Hc | Hc]; [congruence|].
  apply (contains_across "ERR" "" "|" _ eq_refl) in Hc as [Hc | Hc]; [discriminate|].
  apply (contains_across "ERR" "" " " _ eq_refl) in Hc as [Hc | Hc]; [discriminate|].
  congruence.
Qed.

(** The lines of a compressed memory with one more piece after it. *)
Lemma lines_of_join_tail : forall L pre tail,
  Forall clean_fragment L -> L <> [] -> all_space pre = true -> has_char "|" tail = false ->
  map strip (filter keep_fragment (split_on "|" (pre +++ join " | " L +++ " |" +++ tail)))
  = L ++ map strip (filter keep_fragment [tail]).
Proof.
  induction L as [|l L IH]; intros pre tail HL Hne Hpre Htail; [congruence|].
  inversion HL as [|? ? Hl HL']; subst.
  assert (Hbar : has_char "|" (pre +++ (l +++ " ")) = false).
  { rewrite !has_char_app, (all_space_no_bar pre Hpre). destruct Hl as (_ & _ & _ & Hb & _).
    rewrite Hb. reflexivity. }
  destruct (keep_padded pre l " " Hpre eq_refl Hl) as [Hk Hs].
  destruct L as [|l2 L].
  - cbn [join].
    replace (pre +++ l +++ " |" +++ tail) with ((pre +++ (l +++ " ")) +++ String "|" tail)
      by (rewrite !app_assoc; reflexivity).
    rewrite (split_on_app _ _ _ Hbar), (split_on_nosep _ _ Htail).
    cbn [filter]. rewrite Hk. cbn [map app]. rewrite Hs. reflexivity.
  - rewrite join_cons2.
    replace (pre +++ (l +++ " | " +++ join " | " (l2 :: L)) +++ " |" +++ tail)
      with ((pre +++ (l +++ " ")) +++ String "|" (" " +++ join " | " (l2 :: L) +++ " |" +++ tail))
      by (rewrite !app_assoc; reflexivity).
    rewrite (split_on_app _ _ _ Hbar). cbn [filter]. rewrite Hk. cbn [map app]. rewrite Hs.
    f_equal. apply (IH " "); [assumption | discriminate | reflexivity | assumption].
Qed.

(** A piece that is not kept, or kept and without a marker, leaves the
    compressed memory as it is. *)
Lemma compress_with_tail L tail :
  List.length L <= 12 -> Forall clean_fragment L -> Forall (fun l => is_signal l = true) L ->
  has_char "|" tail = false ->
  contains "ERR" tail = true \/ is_signal (strip tail) = false ->
  compress_memory (join " | " L +++ " |" +++ tail) = join " | " L.
Proof.
  intros Hlen Hc Hs Htail Hdrop.
  assert (Hlines : exists T,
            map strip (filter keep_fragment (split_on "|" (join " | " L +++ " |" +++ tail)))
            = L ++ T
            /\ List.length T <= 1 /\ Forall (fun l => is_signal l = false) T).
  { assert (HT : List.length (map strip (filter keep_fragment [tail])) <= 1
                 /\ Forall (fun l => is_signal l = false) (map strip (filter keep_fragment [tail]))).
    { cbn [filter]. unfold keep_fragment at 1 2.
      destruct Hdrop as [He | Hn].
      - rewrite He, andb_false_r. split; [simpl; lia | constructor].
      - destruct (nonempty (strip tail) && negb (contains "ERR" tail)); simpl;
          split; try lia; repeat constructor. exact Hn. }
    destruct L as [|l L].
    - exists (map strip (filter keep_fragment [tail])). split; [|exact HT].
      change (join " | " [] +++ " |" +++ tail) with (" " +++ String "|" tail).
      rewrite (split_on_app "|" " " tail eq_refl), (split_on_nosep _ _ Htail). reflexivity.
    - exists (map strip (filter keep_fragment [tail])). split; [|exact HT].
      apply (lines_of_join_tail (l :: L) ""); [assumption | discriminate | reflexivity | assumption]. }
  destruct Hlines as (T & HT & HlT & HsT).
  unfold compress_memory. rewrite HT.
  rewrite (last_n_short 20) by (rewrite List.length_app; lia).
  rewrite filter_app, (filter_true _ L Hs).
  assert (HfT : filter is_signal T = []).
  { clear - HsT. induction HsT as [|x T Hx _ IH]; simpl; [reflexivity | rewrite Hx; exact IH]. }
  rewrite HfT, List.app_nil_r, (last_n_short 12) by lia. reflexivity.
Qed.

End Notes.

(** X15.  A compressed memory has no [ERR] in it: the error notes that
    the handlers of the loop append to memory are gone with the next
    compression, before the reasoning engine is shown the memory. *)
Theorem compress_memory_drops_errors (mem : string) :
  Str.contains "ERR" (compress_memory mem) = false.
Proof.
  destruct (Compress.compress_memory_shape mem) as (L & -> & _ & Hc & _).
  apply Notes.join_no_ERR, Hc.
Qed.

(** X16.  A note appended to a compressed memory is dropped by the next
    compression when it carries none of the markers ([proj_], [emp_],
    [cust_], the arrow, [salary], [logged], [updated]), or when it has
    [ERR] in it: the memory is what it was. *)
Theorem compress_memory_drops_note (mem note : string) :
  StrPred.has_char "|" note = false ->
  Str.contains "ERR" note = true \/ is_signal (Str.strip note) = false ->
  compress_memory (compress_memory mem +++ " | " +++ note) = compress_memory mem.
Proof.
  intros Hbar Hdrop.
  destruct (Compress.compress_memory_shape mem) as (L & -> & Hlen & Hc & Hs).
  change (" | " +++ note) with (" |" +++ (" " +++ note)).
  apply Notes.compress_with_tail; assumption.
Qed.

(** The note of a loop of calls, after a project found earlier. *)
Lemma compress_memory_drops_note_witness :
  compress_memory (compress_memory "found proj_acme" +++ " | " +++ "LOOP: Req_SearchProjects x3")
  = compress_memory "found proj_acme".
Proof.
  exact (compress_memory_drops_note "found proj_acme" "LOOP: Req_SearchProjects x3"
           eq_refl (or_intror eq_refl)).
Defined.

(* ================================================================= *)
(** * More about the loop *)

Section MutationNote.

Variable E : Env.
Variable task_text : string.

Lemma tick_note k :
  is_mutation k = true ->
  StrPred.has_char "|" (" ✓" +++ Kind_name k) = false
  /\ is_signal (Str.strip (" ✓" +++ Kind_name k)) = false.
Proof. destruct k; try discriminate; intros _; split; reflexivity. Qed.

(** On a compressed memory the hints change nothing. *)
Lemma hints_memory_same fn res st :
  (exists x, memory st = compress_memory x) ->
  memory (hints E task_text fn res st) = memory st.
Proof.
  intros [x Hx]. unfold hints.
  destruct (is_mutation (a_kind fn)) eqn:Hm;
    repeat match goal with
           | |- context [if ?c then _ else _] => destruct c
           | |- context [match ?c with Some _ => _ | None => _ end] => destruct c
           end; cbn [memory set_memory push_msg set_messages set_scratch]; try reflexivity;
    rewrite Hx;
    destruct (Compress.compress_memory_shape x) as (L & -> & Hlen & Hc & Hs);
    destruct (tick_note _ Hm) as [Hbar Hsig];
    change (Str.join " | " L +++ " | ✓" +++ Kind_name (a_kind fn))
      with (Str.join " | " L +++ " |" +++ (" ✓" +++ Kind_name (a_kind fn)));
    apply Notes.compress_with_tail; auto.
Qed.

End MutationNote.

(** X17.  A successful mutation leaves no mark in memory: the tick note
    that the loop adds after [Req_LogTimeEntry], [Req_UpdateEmployeeInfo],
    [Req_UpdateProjectStatus], [Req_UpdateProjectTeam] or [Req_UpdateWiki]
    has none of the markers, so that the compression that adds it drops
    it.  After the hints the memory is what it was after the merge. *)
Theorem mutation_note_dropped (E : Env) (task_text : string) (step : nat) (ns : NextStep)
        (fn : Action) (res : Response) (st : State) :
  memory (hints E task_text fn res
            (fst (do_dispatch E fn (merge E ns (after_reply E task_text step st)))))
  = memory (merge E ns (after_reply E task_text step st)).
Proof.
  unfold do_dispatch. cbn [fst]. rewrite hints_memory_same; [reflexivity|].
  cbn [log_event set_events memory]. apply merged_memory_compressed.
Qed.

(** A time entry goes through and the memory is as before. *)
Example mutation_note_dropped_sample :
  let E := Sample.env 30 (Sample.engine_says (Sample.step_with false Sample3.log_time))
                      Sample.api_ok in
  let st := set_memory "logged 3h on proj_acme_01" (init_state E "log 3 hours" Sample.employee) in
  memory (result_state (iteration E "log 3 hours" Sample.employee 0 st))
  = "logged 3h on proj_acme_01".
Proof. reflexivity. Qed.

(* ================================================================= *)
(** * The guest guard *)

Module Guest.
Import Str StrFacts.

Lemma contains_date t : contains "current date" t = true -> contains "date" t = true.
Proof.
  revert t. fix IH 1. intros [|c t] H; [discriminate|].
  rewrite contains_cons in H. apply orb_prop in H as [H | H].
  - pose proof (Ids.startswith_split _ _ H) as Hs. rewrite Hs.
    apply (contains_infix "date" "current " "date" _). reflexivity.
  - rewrite contains_cons. rewrite (IH t H). apply orb_true_r.
Qed.

Lemma date_words_same t :
  any_in ["date"; "today"; "current date"; "what day"] t = any_in date_words t.
Proof.
  unfold any_in, date_words. cbn [existsb].
  destruct (contains "date" t) eqn:Hd; [reflexivity|]. cbn [orb].
  destruct (contains "today" t); [reflexivity|]. cbn [orb].
  destruct (contains "current date" t) eqn:Hc; [|reflexivity].
  apply contains_date in Hc. congruence.
Qed.

Lemma time_words_same t :
  any_in ["date"; "today"; "current date"; "what day"; "what time"] t
  = any_in date_words t || contains "what time" t.
Proof.
  rewrite <- date_words_same. unfold any_in. cbn [existsb].
  rewrite orb_false_r.
  repeat match goal with |- context [contains ?p t] => destruct (contains p t) end; reflexivity.
Qed.

End Guest.

(** X18.  A guest is answered at the guard, with nothing asked of the
    reasoning engine or the API: the date for a question with [date],
    [today] or [what day], a denial for anything else.  The one way past
    the guard is a question with [what time] and none of those words. *)
Theorem guest_stops_at_guard (E : Env) (task_text : string) (about : WhoAmI) :
  is_public about = true ->
  (any_in date_words (Str.lower task_text) = true ->
   run_task E task_text about
   = (empty_state, mkFinal ok_answer (today about +++ branding) [] exit_guest_date 0))
  /\ (any_in date_words (Str.lower task_text) = false ->
      Str.contains "what time" (Str.lower task_text) = false ->
      run_task E task_text about
      = (empty_state, mkFinal denied_security "Access denied." [] exit_guest_denied 0))
  /\ (events (fst (run_task E task_text about)) <> [] ->
      Str.contains "what time" (Str.lower task_text) = true
      /\ any_in date_words (Str.lower task_text) = false).
Proof.
  intros Hpub. unfold run_task, task_lower.
  rewrite Hpub, Guest.time_words_same, Guest.date_words_same. cbn [andb].
  destruct (any_in date_words (Str.lower task_text)); cbn [orb negb].
  - split; [reflexivity|]. split; [discriminate|]. intros H. exfalso. apply H. reflexivity.
  - destruct (Str.contains "what time" (Str.lower task_text)); cbn [negb].
    + split; [discriminate|]. split; [discriminate|]. auto.
    + split; [discriminate|]. split; [reflexivity|]. intros H. exfalso. apply H. reflexivity.
Qed.

Lemma guest_stops_at_guard_witness :
  is_public Sample.guest = true
  /\ run_task (Sample.env 30 Sample.engine_down Sample.api_ok) "Show me the salary of CEO"
              Sample.guest
     = (empty_state, mkFinal denied_security "Access denied." [] exit_guest_denied 0).
Proof.
  split; [reflexivity|].
  exact (proj1 (proj2 (guest_stops_at_guard (Sample.env 30 Sample.engine_down Sample.api_ok)
                         "Show me the salary of CEO" Sample.guest eq_refl))
           eq_refl eq_refl).
Defined.

(* ================================================================= *)
(** * Counting calls *)

Section Budget.

Variable E : Env.
Variable task_text : string.
Variable about : WhoAmI.

Local Abbreviation iter := (iteration E task_text about).
Local Abbreviation reach := (reachable E task_text about).
Local Abbreviation run := (run_task E task_text about).

(** What an iteration adds to the log: one reasoning call and one
    dispatch at most; an iteration that goes on has made its reasoning
    call. *)
Lemma continue_calls step st st' :
  iter step st = Continue st' ->
  reasoning_calls (events st') = reasoning_calls (events st) + 1
  /\ dispatches (events st') <= dispatches (events st) + 1
  /\ lookups (events st') = lookups (events st).
Proof.
  intros Hi. apply iter_continue in Hi. unfold reasoning_calls, dispatches, lookups.
  inversion Hi as [| | | | |ns std fn r ? ? ? Hs Hr]; subst; frames;
    cbn [filter is_reasoning is_dispatch is_lookup List.length]; try lia.
  sent_frame.
  replied_cases; frames; rewrite Hevs; frames;
    cbn [filter is_reasoning is_dispatch is_lookup List.length]; lia.
Qed.

Lemma return_calls step st st' f :
  iter step st = Return st' f -> api_fails st = 0 ->
  reasoning_calls (events st') = reasoning_calls (events st) + 1
  /\ dispatches (events st') <= dispatches (events st) + 1
  /\ lookups (events st') = lookups (events st)
  /\ f_step f = step.
Proof.
  intros Hi Ha. apply iter_return in Hi. unfold reasoning_calls, dispatches, lookups.
  inversion Hi as [Hf | | | | |ns std fn r ? ? ? Hs Hr]; subst; frames;
    cbn [filter is_reasoning is_dispatch is_lookup List.length]; try lia.
  - rewrite Ha in Hf. discriminate.
  - sent_frame.
    replied_cases; frames; rewrite Hevs; frames;
      cbn [filter is_reasoning is_dispatch is_lookup List.length]; lia.
Qed.

Lemma init_calls :
  reasoning_calls (events (init_state E task_text about)) = 0
  /\ dispatches (events (init_state E task_text about)) = 0
  /\ lookups (events (init_state E task_text about)) <= 1.
Proof.
  unfold init_state. cbn [events].
  destruct (current_user about) as [u|]; [|repeat split; cbn; lia].
  destruct (_ && _); repeat split; cbn; lia.
Qed.

Lemma reachable_calls step st :
  reach step st ->
  reasoning_calls (events st) = step /\ dispatches (events st) <= step
  /\ lookups (events st) <= 1.
Proof.
  induction 1 as [|step st st' Hr (IH1 & IH2 & IH3) Hlt Hi]; [pose proof init_calls; lia|].
  destruct (continue_calls _ _ _ Hi) as (H1 & H2 & H3). lia.
Qed.

Lemma exhausted_step st : f_step (exhausted E task_text st) = MAX_STEPS E.
Proof.
  unfold exhausted.
  repeat match goal with |- context [if ?c then _ else _] => destruct c end; reflexivity.
Qed.

(** The call history is the list of the requests that the API answered. *)
Lemma step_history step st :
  call_history st = answered_keys (events st) ->
  call_history (result_state (iter step st))
  = answered_keys (events (result_state (iter step st))).
Proof.
  intros Hh. pose proof (iteration_cases E task_text about step st) as Hi.
  inversion Hi as [| | | | |ns std fn r ? ? ? Hs Hr]; subst; cbn [result_state]; frames;
    cbn [answered_keys]; try exact Hh.
  sent_frame.
  replied_cases; cbn [result_state]; frames; rewrite ?Hhist, Hevs; frames;
    cbn [answered_keys];
    repeat match goal with
           | H : is_kind Req_ProvideAgentResponse _ = _ |- _ => rewrite H
           end; rewrite ?Hh; reflexivity.
Qed.

End Budget.

(** X19.  A task costs [MAX_STEPS] reasoning calls at most.  The requests
    dispatched for the reasoning engine are never more than the reasoning
    calls, and the one other request in the log is the look-up of the
    profile of the user, made once at most; the step at which the task
    ends is within the ceiling. *)
Theorem run_within_budget (E : Env) (task_text : string) (about : WhoAmI) :
  reasoning_calls (events (fst (run_task E task_text about))) <= MAX_STEPS E
  /\ dispatches (events (fst (run_task E task_text about)))
     <= reasoning_calls (events (fst (run_task E task_text about)))
  /\ lookups (events (fst (run_task E task_text about))) <= 1
  /\ List.length (events (fst (run_task E task_text about)))
     = reasoning_calls (events (fst (run_task E task_text about)))
       + dispatches (events (fst (run_task E task_text about)))
       + lookups (events (fst (run_task E task_text about)))
  /\ f_step (snd (run_task E task_text about)) <= MAX_STEPS E.
Proof.
  assert (Hlen : forall evs,
            List.length evs = reasoning_calls evs + dispatches evs + lookups evs).
  { unfold reasoning_calls, dispatches, lookups.
    induction evs as [|[u|o|a r] evs IH];
      cbn [filter is_reasoning is_dispatch is_lookup List.length]; lia. }
  assert (Hloop : forall st f, loop_end E task_text about st f ->
            reasoning_calls (events st) <= MAX_STEPS E
            /\ dispatches (events st) <= reasoning_calls (events st)
            /\ lookups (events st) <= 1
            /\ f_step f <= MAX_STEPS E).
  { intros st f [Hr Hf | step st0 Hr Hlt Hi].
    - destruct (reachable_calls _ _ _ _ _ Hr) as (H1 & H2 & H3).
      rewrite H1, Hf, exhausted_step. lia.
    - destruct (reachable_calls _ _ _ _ _ Hr) as (H1 & H2 & H3).
      destruct (reachable_api_fails _ _ _ _ _ Hr) as [Hz _].
      destruct (return_calls _ _ _ _ _ _ _ Hi Hz) as (H4 & H5 & H6 & H7). lia. }
  assert (Hrun : reasoning_calls (events (fst (run_task E task_text about))) <= MAX_STEPS E
            /\ dispatches (events (fst (run_task E task_text about)))
               <= reasoning_calls (events (fst (run_task E task_text about)))
            /\ lookups (events (fst (run_task E task_text about))) <= 1
            /\ f_step (snd (run_task E task_text about)) <= MAX_STEPS E).
  { unfold run_task.
    repeat match goal with
           | |- context [if ?c then _ else _] => destruct c
           | |- context [match ?c with Some _ => _ | None => _ end] => destruct c
           end; try (cbn; lia).
    apply Hloop, loop_ends. }
  destruct Hrun as (H1 & H2 & H3 & H4). repeat split; auto.
Qed.

(** X20.  The call history of the loop is exactly the list of the
    requests that the API answered, in order, final responses apart: a
    request that raised is not in it, and what the completion guard reads
    in the history is what was dispatched and answered. *)
Theorem call_history_is_answered (E : Env) (task_text : string) (about : WhoAmI) :
  call_history (fst (run_task E task_text about))
  = answered_keys (events (fst (run_task E task_text about))).
Proof.
  apply (run_state_invariant E task_text about
           (fun st => call_history st = answered_keys (events st))).
  - reflexivity.
  - unfold init_state. cbn [events call_history].
    destruct (current_user about) as [u|]; [destruct (_ && _)|]; reflexivity.
  - intros step st _. apply step_history.
Qed.

(* ================================================================= *)
(** * Outcomes *)

Section Outcomes.

Variable E : Env.
Variable task_text : string.
Variable about : WhoAmI.

Local Abbreviation iter := (iteration E task_text about).
Local Abbreviation reach := (reachable E task_text about).
Local Abbreviation run := (run_task E task_text about).

Lemma status_rewrite_outcome fn st :
  a_outcome (status_rewrite task_text fn st) = denied_security
  \/ a_outcome (status_rewrite task_text fn st) = a_outcome fn.
Proof. unfold status_rewrite. destruct (_ && _); [left | right]; reflexivity. Qed.

(** A final response goes out with [ok_not_found] turned into [ok_answer]. *)
Lemma Sent_surfaced step ns stm std fn :
  Sent E task_text about step ns stm std fn ->
  is_kind Req_ProvideAgentResponse fn = true -> a_outcome fn <> ok_not_found.
Proof.
  intros Hs Hk.
  assert (Hsurf : forall p, a_outcome (surface p) <> ok_not_found).
  { intros p. rewrite surface_outcome. destruct (is_outcome ok_not_found (a_outcome p)) eqn:Ho;
      [discriminate|]. intros Heq. apply is_outcome_true in Heq. congruence. }
  destruct Hs as [Hn | | |].
  - congruence.
  - rewrite drop_links_outcome. apply Hsurf.
  - rewrite drop_links_outcome.
    destruct (status_rewrite_outcome (surface (proposal about ns)) stm) as [-> | ->];
      [discriminate | apply Hsurf].
  - rewrite drop_links_outcome.
    destruct (status_rewrite_outcome (surface (proposal about ns)) (block_notes required stm))
      as [-> | ->]; [discriminate | apply Hsurf].
Qed.

(** What the loop submits when it returns. *)
Lemma return_outcome step st st' f :
  iter step st = Return st' f -> f_outcome f <> ok_not_found.
Proof.
  intros Hi. apply iter_return in Hi.
  inversion Hi as [| | | | |ns std fn r ? ? ? Hs Hr]; subst; try discriminate.
  replied_cases; try discriminate. cbn [f_outcome]. eapply Sent_surfaced; eassumption.
Qed.

Lemma exhausted_outcome st :
  f_exit (exhausted E task_text st) = exit_exhausted
  /\ (f_outcome (exhausted E task_text st) = denied_security
      \/ f_outcome (exhausted E task_text st) = error_internal).
Proof.
  unfold exhausted.
  repeat match goal with |- context [if ?c then _ else _] => destruct c end; cbn; auto.
Qed.

(** No request in the log is a final response with [ok_not_found]. *)
Lemma step_surfaced step st :
  (forall a r, In (EvDispatch a r) (events st) ->
               is_kind Req_ProvideAgentResponse a = true -> a_outcome a <> ok_not_found) ->
  forall a r, In (EvDispatch a r) (events (result_state (iter step st))) ->
              is_kind Req_ProvideAgentResponse a = true -> a_outcome a <> ok_not_found.
Proof.
  intros Hok. pose proof (iteration_cases E task_text about step st) as Hi.
  inversion Hi as [| | | | |ns std fn r0 ? ? ? Hs Hr]; subst; cbn [result_state]; frames;
    try (intros a r Hin; cbn [In] in Hin;
         repeat (destruct Hin as [Hin | Hin]; [discriminate Hin|]); exact (Hok a r Hin)).
  sent_frame. pose proof (Sent_surfaced _ _ _ _ _ Hs) as Hfn.
  replied_cases; cbn [result_state]; frames; rewrite Hevs; frames;
    intros a r Hin; cbn [In] in Hin;
    (destruct Hin as [Hin | [Hin | Hin]];
     [injection Hin as <- _; exact Hfn | discriminate Hin | exact (Hok a r Hin)]).
Qed.

(** An iteration sends a request and goes on as the reply says, or it
    sends nothing. *)
Lemma iteration_sent step st :
  (exists ns std fn,
     Sent E task_text about step ns (merge E ns (after_reply E task_text step st)) std fn
     /\ iter step st = after_dispatch E task_text step ns fn (do_dispatch E fn std))
  \/ (forall a r, In (EvDispatch a r) (events (result_state (iter step st))) ->
                  In (EvDispatch a r) (events st)).
Proof.
  assert (Hno : forall r0 : StepResult,
            (exists reply, events (result_state r0) = EvLLM reply :: events st) ->
            forall a r, In (EvDispatch a r) (events (result_state r0)) ->
                        In (EvDispatch a r) (events st)).
  { intros r0 [reply ->] a r [Hin | Hin]; [discriminate Hin | exact Hin]. }
  unfold iteration. destruct (3 <=? api_fails st) eqn:Hg; [right; cbn; auto|].
  cbv zeta. destruct (ask E task_text step (compressed st)) as [ns|] eqn:Hr.
  - unfold execute_tool. cbv zeta.
    replace (log_event (EvLLM (Some ns)) (compressed st)) with (after_reply E task_text step st)
      by (unfold after_reply; rewrite Hr; reflexivity).
    destruct (find_hallucinated (clamp_limit (function ns))) as [val|] eqn:Hh.
    { right. apply Hno. eexists. cbn [result_state]. frames. reflexivity. }
    set (stm := merge E ns (after_reply E task_text step st)).
    destruct (is_kind Req_ProvideAgentResponse (proposal about ns)) eqn:Hk.
    + unfold finalize. cbv zeta.
      destruct (is_outcome ok_answer (a_outcome (proposal about ns)) && negb (system_broken stm))
        eqn:Hga.
      * apply andb_prop in Hga as [Ho Hb]. apply is_outcome_true in Ho.
        apply negb_true_iff in Hb. unfold completion_guard.
        destruct (required_call task_text (call_history stm)) as [req|] eqn:Hreq.
        -- cbv zeta. destruct (Z.of_nat step <? Z.of_nat (MAX_STEPS E) - 5)%Z eqn:Hz.
           ++ right. apply Hno. eexists. cbn [result_state]. unfold stm. frames. reflexivity.
           ++ left. exists ns. eexists. eexists. split; [|reflexivity].
              rewrite Ho. eapply sent_waived; eauto.
        -- left. exists ns. eexists. eexists. split; [|reflexivity].
           rewrite Ho. eapply sent_allowed; eauto.
      * left. exists ns. eexists. eexists. split; [|reflexivity]. eapply sent_unguarded; eauto.
    + left. exists ns. eexists. eexists. split; [|reflexivity]. eapply sent_request; eauto.
  - right. apply Hno. exists None. unfold on_llm_failure. cbv zeta.
    destruct (3 <=? llm_fails _); reflexivity.
Qed.

Lemma continue_no_denial step ns fn std st' :
  after_dispatch E task_text step ns fn (do_dispatch E fn std) = Continue st' ->
  exists r, events st' = EvDispatch fn r :: events std /\ is_denial (EvDispatch fn r) = false.
Proof.
  unfold after_dispatch, do_dispatch. cbn [fst snd].
  destruct (dispatch E (now std) fn) as [res|err|err] eqn:Hd.
  - destruct (is_kind Req_ProvideAgentResponse fn); [discriminate|].
    unfold record_call. destruct (done ns); [discriminate|].
    intros H. injection H as <-. exists (ApiOk res). frames. split; reflexivity.
  - unfold on_api_exception. cbn [is_denial].
    destruct (_classify_error err) eqn:Hc; try discriminate.
    + destruct (is_kind Req_UpdateProjectStatus fn || is_kind Req_UpdateProjectTeam fn) eqn:Hm;
        [discriminate|].
      intros H. injection H as <-. exists (ApiException err). frames.
      split; [reflexivity|]. cbn [is_denial]. rewrite Hc. reflexivity.
    + intros H. injection H as <-. exists (ApiException err). frames.
      split; [reflexivity|]. cbn [is_denial]. rewrite Hc. reflexivity.
  - unfold on_fault. intros H. injection H as <-. exists (Fault err). frames.
    split; reflexivity.
Qed.

(** While the loop goes on, the API has raised no error that ends the
    task with a denial. *)
Lemma reachable_no_denial step st :
  reach step st -> forall a r, In (EvDispatch a r) (events st) -> is_denial (EvDispatch a r) = false.
Proof.
  induction 1 as [|step st st' Hr IH Hlt Hi].
  - unfold init_state. cbn [events]. intros a r Hin.
    destruct (current_user about) as [u|]; [destruct (_ && _)|]; cbn [In] in Hin;
      intuition discriminate.
  - destruct (iteration_sent step st) as [(ns & std & fn & Hs & Heq) | Hold].
    + rewrite Heq in Hi. apply continue_no_denial in Hi as (r0 & Hev & Hd).
      sent_frame. rewrite Hev, Hevs. frames.
      intros a r [Hin | [Hin | Hin]]; [injection Hin as <- <-; exact Hd | discriminate Hin | auto].
    + rewrite Hi in Hold. cbn [result_state] in Hold. intros a r Hin. apply IH, Hold, Hin.
Qed.

End Outcomes.

(** X21.  [ok_not_found] is never what comes out: a final response
    proposed with it is sent as [ok_answer], so that no run ends with it
    and no final response in the log carries it. *)
Theorem ok_not_found_never_surfaces (E : Env) (task_text : string) (about : WhoAmI) :
  f_outcome (snd (run_task E task_text about)) <> ok_not_found
  /\ forall a r, In (EvDispatch a r) (events (fst (run_task E task_text about))) ->
                 a_kind a = Req_ProvideAgentResponse -> a_outcome a <> ok_not_found.
Proof.
  split.
  - assert (Hloop : forall st f, loop_end E task_text about st f -> f_outcome f <> ok_not_found).
    { intros st f [Hr Hf | step st0 Hr Hlt Hi].
      - rewrite Hf. destruct (exhausted_outcome E task_text st) as [_ [-> | ->]]; discriminate.
      - exact (return_outcome _ _ _ _ _ _ _ Hi). }
    unfold run_task.
    repeat match goal with
           | |- context [if ?c then _ else _] => destruct c
           | |- context [match ?c with Some _ => _ | None => _ end] => destruct c
           end; try (cbn; discriminate).
    exact (Hloop _ _ (loop_ends E task_text about)).
  - intros a r Hin Hk. apply is_kind_true in Hk. revert a r Hin Hk.
    apply (run_state_invariant E task_text about
             (fun st => forall a r, In (EvDispatch a r) (events st) ->
                        is_kind Req_ProvideAgentResponse a = true -> a_outcome a <> ok_not_found)).
    + intros a r [].
    + unfold init_state. cbn [events]. intros a r Hin.
      destruct (current_user about) as [u|]; [destruct (_ && _)|]; cbn [In] in Hin;
        intuition discriminate.
    + intros step st _. apply step_surfaced.
Qed.

(** A final response proposed with [ok_not_found]. *)
Lemma ok_not_found_never_surfaces_witness :
  let ns := Sample.step_with false (Sample.respond ok_not_found "No such project.") in
  let E := Sample.env 30 (Sample.engine_says ns) Sample.api_ok in
  let a := surface (Sample.respond ok_not_found "No such project.") in
  In (EvDispatch a (ApiOk Sample.empty_response))
     (events (fst (run_task E "find the project" Sample.employee)))
  /\ a_kind a = Req_ProvideAgentResponse
  /\ a_outcome a <> ok_not_found
  /\ f_outcome (snd (run_task E "find the project" Sample.employee)) = ok_answer.
Proof.
  intros ns E a.
  assert (Hin : In (EvDispatch a (ApiOk Sample.empty_response))
                   (events (fst (run_task E "find the project" Sample.employee))))
    by (vm_compute; left; reflexivity).
  split; [exact Hin|]. split; [reflexivity|]. split; [|reflexivity].
  exact (proj2 (ok_not_found_never_surfaces E "find the project" Sample.employee) a _ Hin eq_refl).
Defined.

(** X22.  An error of the API that is classified [permission], or
    classified [not_found] on a request to change the status or the team
    of a project, ends the task at once with [denied_security] and no
    link; the failed call is the last thing the run did. *)
Theorem denial_error_is_terminal (E : Env) (task_text : string) (about : WhoAmI)
        (a : Action) (err : string) :
  In (EvDispatch a (ApiException err)) (events (fst (run_task E task_text about))) ->
  _classify_error err = permission
  \/ (_classify_error err = not_found
      /\ (a_kind a = Req_UpdateProjectStatus \/ a_kind a = Req_UpdateProjectTeam)) ->
  f_outcome (snd (run_task E task_text about)) = denied_security
  /\ f_links (snd (run_task E task_text about)) = []
  /\ f_message (snd (run_task E task_text about))
     = match _classify_error err with
       | permission => "Permission denied."
       | _ => "You are not authorized to modify this project."
       end
  /\ exists rest,
       events (fst (run_task E task_text about)) = EvDispatch a (ApiException err) :: rest.
Proof.
  intros Hin Hclass.
  assert (Hbad : is_denial (EvDispatch a (ApiException err)) = true).
  { cbn [is_denial]. destruct Hclass as [-> | [-> Hk]]; [reflexivity|].
    apply orb_true_iff. destruct Hk as [Hk | Hk]; [left | right]; apply is_kind_true, Hk. }
  destruct (run_task E task_text about) as [stf f] eqn:Hrun.
  pose proof (run_task_ends E task_text about) as Hends. rewrite Hrun in Hends.
  cbn [fst snd] in *.
  destruct Hends as [(-> & _)|[Hr _|step st0 Hr _ Hi]].
  - destruct Hin.
  - exfalso. rewrite (reachable_no_denial _ _ _ _ _ Hr _ _ Hin) in Hbad. discriminate.
  - pose proof (reachable_no_denial _ _ _ _ _ Hr) as Hno.
    assert (Hold : ~ In (EvDispatch a (ApiException err)) (events st0))
      by (intros Ho; rewrite (Hno _ _ Ho) in Hbad; discriminate).
    apply iter_return in Hi. inversion Hi as [| | | | |ns std fn r ? ? ? Hs Hrep]; subst; frames1.
    + exfalso. revert Hin. frames. exact Hold.
    + exfalso. revert Hin. frames. intros [Hin|Hin]; [discriminate | exact (Hold Hin)].
    + sent_frame.
      replied_cases; revert Hin; frames; rewrite Hevs; frames;
        (intros [Hin|[Hin|Hin]];
         [ | discriminate Hin | exfalso; exact (Hold Hin) ]);
        try discriminate Hin; injection Hin as -> ->.
      * match goal with H : _classify_error err = permission |- _ => rewrite H end.
        repeat split. eexists. reflexivity.
      * match goal with H : _classify_error err = not_found |- _ => rewrite H end.
        repeat split. eexists. reflexivity.
      * exfalso. cbn [is_denial] in Hbad.
        match goal with H : _classify_error err = system |- _ => rewrite H in Hbad end.
        discriminate.
Qed.

(** The first call to the API is refused. *)
Lemma denial_error_is_terminal_witness :
  let E := Sample.env 30 (Sample.engine_says (Sample.step_with false (Sample.list_projects 5)))
                      (Sample.api_raises "Forbidden for this user") in
  In (EvDispatch (Sample.list_projects 5) (ApiException "Forbidden for this user"))
     (events (fst (run_task E "list the projects" Sample.employee)))
  /\ _classify_error "Forbidden for this user" = permission
  /\ f_outcome (snd (run_task E "list the projects" Sample.employee)) = denied_security.
Proof.
  intros E.
  assert (Hin : In (EvDispatch (Sample.list_projects 5) (ApiException "Forbidden for this user"))
                   (events (fst (run_task E "list the projects" Sample.employee))))
    by (vm_compute; left; reflexivity).
  split; [exact Hin|]. split; [reflexivity|].
  exact (proj1 (denial_error_is_terminal E "list the projects" Sample.employee _ _ Hin
                  (or_introl eq_refl))).
Defined.

(** X23.  The flag [system_broken] is never seen set: it is clear at the
    head of every iteration, and set only in the state in which a system
    error of the API ends the task.  So a loop that runs out of steps never
    reports [System error.]: it ends with the denial of a status task or
    with [Could not complete.]. *)
Theorem system_broken_never_read (E : Env) (task_text : string) (about : WhoAmI) :
  (forall step st, reachable E task_text about step st -> system_broken st = false)
  /\ (system_broken (fst (run_task E task_text about)) = true ->
      f_exit (snd (run_task E task_text about)) = exit_system_error)
  /\ (f_exit (snd (run_task E task_text about)) = exit_exhausted ->
      (f_outcome (snd (run_task E task_text about)) = denied_security
       /\ f_message (snd (run_task E task_text about)) = "Project not found or not authorized."
       /\ f_links (snd (run_task E task_text about)) = [])
      \/ (f_outcome (snd (run_task E task_text about)) = error_internal
          /\ f_message (snd (run_task E task_text about)) = "Could not complete.")).
Proof.
  assert (Hflag : forall step st, reachable E task_text about step st -> system_broken st = false)
    by (intros step st Hr; apply (reachable_api_fails _ _ _ _ _ Hr)).
  split; [exact Hflag|].
  destruct (run_task E task_text about) as [stf f] eqn:Hrun.
  pose proof (run_task_ends E task_text about) as Hends. rewrite Hrun in Hends.
  cbn [fst snd] in *.
  destruct Hends as [(-> & _ & Hex)|[Hr Hf|step st0 Hr _ Hi]].
  - split; [discriminate|]. intros Hx. rewrite Hx in Hex. cbn in Hex. intuition discriminate.
  - split; [rewrite (Hflag _ _ Hr); discriminate|]. intros _. rewrite Hf. unfold exhausted.
    rewrite (Hflag _ _ Hr).
    destruct (any_in _ _); cbn; [left | right]; repeat split.
  - pose proof (Hflag _ _ Hr) as Hb. destruct (reachable_api_fails _ _ _ _ _ Hr) as [Ha _].
    apply iter_return in Hi. inversion Hi as [Hg| | | | |ns std fn r ? ? ? Hs Hrep]; subst.
    + rewrite Ha in Hg. discriminate.
    + frames. rewrite Hb. split; discriminate.
    + sent_frame. replied_cases; frames; rewrite ?Hbrk; frames; rewrite ?Hb;
        split; try discriminate; reflexivity.
Qed.

(** The head of the first iteration. *)
Lemma system_broken_never_read_witness :
  let E := Sample.env 30 Sample.engine_down Sample.api_ok in
  let st := init_state E "list the projects" Sample.employee in
  reachable E "list the projects" Sample.employee 0 st /\ system_broken st = false.
Proof.
  intros E st.
  assert (Hr : reachable E "list the projects" Sample.employee 0 st) by constructor.
  split; [exact Hr|].
  exact (proj1 (system_broken_never_read E "list the projects" Sample.employee) 0 st Hr).
Defined.

(* ================================================================= *)
(** * What goes out to the API *)

Section Enriched.

Variable about : WhoAmI.

(** A time entry as it is proposed to go out. *)
Lemma proposal_time_entry ns :
  a_kind (function ns) = Req_LogTimeEntry ->
  a_logged_by (proposal about ns) = or_else (a_logged_by (function ns)) (current_user about)
  /\ a_work_category (proposal about ns)
     = or_else (a_work_category (function ns)) (Some "development")
  /\ a_status (proposal about ns) = or_else (a_status (function ns)) (Some "draft")
  /\ a_billable (proposal about ns)
     = Some (match a_billable (function ns) with Some b => b | None => true end)
  /\ a_employee (proposal about ns) = a_employee (function ns)
  /\ a_project (proposal about ns) = a_project (function ns).
Proof.
  intros Hk. unfold proposal.
  destruct (function ns) as [k lim q i e pj cu lb wc stt bl skl wls cb sal dep loc nts locs oc msg lks oth];
    simpl in Hk; subst k.
  unfold clamp_limit. cbn [a_limit].
  destruct lim as [l|]; [destruct (_ && _)|]; repeat split.
Qed.

(** An employee update as it is proposed to go out: built anew from what
    the request has. *)
Lemma proposal_update ns :
  a_kind (function ns) = Req_UpdateEmployeeInfo ->
  proposal about ns = rebuild_update about (function ns).
Proof.
  intros Hk. unfold proposal.
  destruct (function ns) as [k lim q i e pj cu lb wc stt bl skl wls cb sal dep loc nts locs oc msg lks oth];
    simpl in Hk; subst k.
  unfold clamp_limit. cbn [a_limit].
  destruct lim as [l|]; [destruct (_ && _)|]; reflexivity.
Qed.

(** A search for employees as it is proposed to go out. *)
Lemma proposal_skill_filter ns :
  a_kind (function ns) = Req_SearchEmployees ->
  a_skills (proposal about ns)
  = match a_skills (function ns) with
    | Some (sk :: sks) => Some (map clear_max_level (sk :: sks))
    | given => given
    end.
Proof.
  intros Hk. unfold proposal.
  destruct (function ns) as [k lim q i e pj cu lb wc stt bl skl wls cb sal dep loc nts locs oc msg lks oth];
    simpl in Hk; subst k.
  unfold clamp_limit. cbn [a_limit a_skills].
  destruct lim as [l|]; [destruct (_ && _)|];
    destruct skl as [[|sk sks]|]; reflexivity.
Qed.

Lemma clear_max_level_spec sk : max_level (clear_max_level sk) <> Some 0%Z.
Proof.
  unfold clear_max_level. destruct (max_level sk) as [[| |]|] eqn:Hm; cbn; congruence.
Qed.

Lemma nonblank_spec o s : nonblank o = Some s -> o = Some s /\ Str.strip s <> "".
Proof.
  unfold nonblank. destruct o as [x|]; [|discriminate].
  destruct (Str.nonempty x && Str.nonempty (Str.strip x)) eqn:H; [|discriminate].
  intros Heq. injection Heq as ->. split; [reflexivity|].
  apply andb_prop in H as [_ H]. intros E0. rewrite E0 in H. discriminate.
Qed.

End Enriched.

Section Dispatched.

Variable E : Env.
Variable task_text : string.
Variable about : WhoAmI.

(** Every request in the log of a run was sent for a reply of the
    reasoning engine. *)
Lemma dispatched_for a r :
  In (EvDispatch a r) (events (fst (run_task E task_text about))) ->
  exists ns o m l,
    In (EvLLM (Some ns)) (events (fst (run_task E task_text about)))
    /\ a = respond_with o m l (proposal about ns).
Proof.
  intros Hin.
  destruct (log_ok_dispatch about _ _ _ (run_log_ok E task_text about) Hin)
    as (ns & Hns & _ & o & m & l & Ha).
  exists ns, o, m, l. auto.
Qed.

(** A request that is no final response goes out as it was proposed. *)
Lemma Sent_request step ns stm std fn :
  find_hallucinated (clamp_limit (function ns)) = None ->
  Sent E task_text about step ns stm std fn ->
  a_kind fn <> Req_ProvideAgentResponse -> fn = proposal about ns.
Proof.
  intros Hh Hs Hk. destruct (Sent_sent_for about _ _ _ _ _ _ _ Hh Hs) as (_ & o & m & l & Ha).
  destruct Hs as [Hn | Hp | Hp | ? Hp]; [reflexivity| | |];
    exfalso; apply Hk; rewrite Ha;
    change (a_kind (respond_with o m l ?x)) with (a_kind x);
    apply is_kind_true; exact Hp.
Qed.

Lemma step_as_proposed step st :
  (forall a r, In (EvDispatch a r) (events st) -> a_kind a <> Req_ProvideAgentResponse ->
               exists ns, In (EvLLM (Some ns)) (events st) /\ a = proposal about ns) ->
  forall a r, In (EvDispatch a r) (events (result_state (iteration E task_text about step st))) ->
              a_kind a <> Req_ProvideAgentResponse ->
              exists ns, In (EvLLM (Some ns))
                            (events (result_state (iteration E task_text about step st)))
                         /\ a = proposal about ns.
Proof.
  intros Hok. pose proof (iteration_cases E task_text about step st) as Hi.
  inversion Hi as [| | | | |ns std fn r0 ? Hask Hh Hs Hr]; subst; cbn [result_state]; frames;
    try (intros a r Hin Hk; cbn [In] in Hin;
         repeat (destruct Hin as [Hin | Hin]; [discriminate Hin|]);
         destruct (Hok a r Hin Hk) as (ns' & Hns & Ha);
         exists ns'; split; [simpl; tauto | exact Ha]).
  sent_frame. pose proof (Sent_request _ _ _ _ _ Hh Hs) as Hfn.
  replied_cases; cbn [result_state]; frames; rewrite Hevs; frames; rewrite Hask;
    intros a r Hin Hk; cbn [In] in Hin;
    (destruct Hin as [Hin | [Hin | Hin]];
     [injection Hin as <- _; exists ns; split; [simpl; tauto | exact (Hfn Hk)]
     | discriminate Hin
     | destruct (Hok a r Hin Hk) as (ns' & Hns & Ha);
       exists ns'; split; [simpl; tauto | exact Ha]]).
Qed.

Lemma request_as_proposed a r :
  In (EvDispatch a r) (events (fst (run_task E task_text about))) ->
  a_kind a <> Req_ProvideAgentResponse ->
  exists ns, In (EvLLM (Some ns)) (events (fst (run_task E task_text about)))
             /\ a = proposal about ns.
Proof.
  revert a r.
  apply (run_state_invariant E task_text about
           (fun st => forall a r, In (EvDispatch a r) (events st) ->
                                  a_kind a <> Req_ProvideAgentResponse ->
                                  exists ns, In (EvLLM (Some ns)) (events st)
                                             /\ a = proposal about ns)).
  - intros a r [].
  - intros a r Hin. exfalso. revert Hin. unfold init_state. cbn [events].
    destruct (current_user about) as [u|]; [destruct (_ && _)|]; cbn [In];
      intuition discriminate.
  - intros step st _. apply step_as_proposed.
Qed.

End Dispatched.





(** X26.  A search for employees never goes out with a skill whose
    [max_level] is 0: the bound is cleared. *)
Theorem skill_filter_cleared (E : Env) (task_text : string) (about : WhoAmI)
        (a : Action) (r : ApiReply) (skills : list Skill) (sk : Skill) :
  In (EvDispatch a r) (events (fst (run_task E task_text about))) ->
  a_kind a = Req_SearchEmployees ->
  a_skills a = Some skills -> In sk skills ->
  max_level sk <> Some 0%Z.
Proof.
  intros Hin Hk Hs Hsk.
  destruct (dispatched_for E task_text about a r Hin) as (ns & o & m & l & Hns & ->).
  change (a_kind (respond_with o m l ?x)) with (a_kind x) in Hk.
  change (a_skills (respond_with o m l ?x)) with (a_skills x) in Hs.
  rewrite proposal_kind in Hk. rewrite (proposal_skill_filter about ns Hk) in Hs.
  destruct (a_skills (function ns)) as [[|s0 ss]|]; try discriminate.
  - injection Hs as <-. destruct Hsk.
  - injection Hs as <-. destruct Hsk as [<- | Hsk]; [apply clear_max_level_spec|].
    apply in_map_iff in Hsk as (x & <- & _). apply clear_max_level_spec.
Qed.

Lemma skill_filter_cleared_witness :
  let E := Sample.env 30 (Sample.engine_says (Sample.step_with true Sample3.search_python))
                      Sample.api_ok in
  let a := enrich Sample.employee Sample3.search_python in
  In (EvDispatch a (ApiOk Sample.empty_response))
     (events (fst (run_task E "who knows Python" Sample.employee)))
  /\ a_skills a = Some [mkSkill "python" 3 None]
  /\ max_level (mkSkill "python" 3 None) <> Some 0%Z.
Proof.
  intros E a.
  assert (Hin : In (EvDispatch a (ApiOk Sample.empty_response))
                   (events (fst (run_task E "who knows Python" Sample.employee))))
    by (vm_compute; left; reflexivity).
  split; [exact Hin|]. split; [reflexivity|].
  exact (skill_filter_cleared E _ Sample.employee a _ _ _ Hin eq_refl eq_refl
           (or_introl eq_refl)).
Defined.
